(** * body-parser: the bounded streaming body reader

    A shallow embedding of the request-body reader of the repository:

    - [RawBody]  : the stream accumulator ([getDecoder], [halt],
      [readStream] and its inner functions [done], [invokeCallback],
      [onAborted], [onData], [onEnd], [cleanup]);
    - [Read]     : the orchestrator of [lib/read.ts] ([contentstream],
      [read] and the callback it hands to the accumulator);
    - [Bytes]    : the size unit parser ([map], [parseRegExp], [parse]);
    - [Json]     : the JSON middleware of [lib/json.ts] ([json], [parse],
      [jsonParser], [createStrictSyntaxError], [firstchar], [getCharset],
      [normalizeJsonSyntaxError]).

    JavaScript closures are modelled by explicit state passing: the variables
    a closure captures are the fields of a record, every function of the
    source is a function on that record, and everything the program does to
    the outside world (stream method calls, callback invocations) is appended
    to a trace in the order the source performs it.

    The source declares its mutable locals ([complete], [sync], [received],
    [buffer], [decoder]) with [const] and assigns them afterwards; the
    embedding reads them as the mutable variables the assignments need. *)

From Stdlib Require Import ZArith List String Ascii Bool Lia.
From Stdlib Require Import Floats.SpecFloat.
Import ListNotations.
Local Open Scope Z_scope.

(** ** JavaScript strings

    A string is a sequence of UTF-16 code units.  The value of a header, the
    name of a charset and the kind of an error are [string]s: their code
    units are below 256, which is what Node delivers for a header value.
    The text decoded from a body and the message of an error hold code
    units of any value: they are [Text]s (further down). *)

Definition is_digit (c : ascii) : bool :=
  let n := N_of_ascii c in ((48 <=? n) && (n <=? 57))%N.

Definition digit_value (c : ascii) : Z := Z.of_N (N_of_ascii c) - 48.

Fixpoint all_digits (s : string) : bool :=
  match s with
  | EmptyString => true
  | String c r => is_digit c && all_digits r
  end.

(** The number a string of decimal digits writes, after [acc]. *)
Fixpoint decimal (acc : Z) (s : string) : Z :=
  match s with
  | EmptyString => acc
  | String c r => decimal (10 * acc + digit_value c) r
  end.

(** [String.prototype.toLowerCase]: the letters A-Z and the Latin-1 capitals
    (0xC0-0xDE but the multiplication sign) move by 32. *)
Definition lower (c : ascii) : ascii :=
  let n := N_of_ascii c in
  if (((65 <=? n) && (n <=? 90)) || ((192 <=? n) && (n <=? 222) && negb (n =? 215)))%N
  then ascii_of_N (n + 32)
  else c.

Fixpoint toLowerCase (s : string) : string :=
  match s with
  | EmptyString => EmptyString
  | String c r => String (lower c) (toLowerCase r)
  end.

(** A string between double quotes. *)
Definition quoted (s : string) : string :=
  (String (ascii_of_N 34) s ++ String (ascii_of_N 34) EmptyString)%string.

(** A string of any code units, and the code units of a [string]. *)
Definition Text := list N.

Definition code_units (s : string) : Text :=
  List.map N_of_ascii (list_ascii_of_string s).

Coercion code_units : string >-> Text.

(** ** Byte counts

    The expected length and the limit of a read are JavaScript numbers.
    [Int z] is the integer [z]; [Float x] is the binary64 value [x], for a
    number that is no integer: a fraction, an infinity, NaN. *)
Inductive Num :=
| Int (z : Z)
| Float (x : spec_float).

Coercion Int : Z >-> Num.

Arguments Some {A} & a.

(** What a number is worth: nothing (NaN), an infinity, or [m * 2 ^ e]. *)
Inductive Worth :=
| NotANumber
| Infinite (negative : bool)
| Dyadic (m e : Z).

Definition worth (x : Num) : Worth :=
  match x with
  | Int z => Dyadic z 0
  | Float S754_nan => NotANumber
  | Float (S754_infinity s) => Infinite s
  | Float (S754_zero _) => Dyadic 0 0
  | Float (S754_finite s m e) => Dyadic (if s then Zneg m else Zpos m) e
  end.

(** The order of two numbers, [None] when one of them is NaN. *)
Definition compare_worth (x y : Worth) : option comparison :=
  match x, y with
  | NotANumber, _ | _, NotANumber => None
  | Infinite s1, Infinite s2 =>
      Some (if s1 then if s2 then Eq else Lt else if s2 then Gt else Eq)
  | Infinite s, Dyadic _ _ => Some (if s then Lt else Gt)
  | Dyadic _ _, Infinite s => Some (if s then Gt else Lt)
  | Dyadic m1 e1, Dyadic m2 e2 =>
      let e := Z.min e1 e2 in
      Some (m1 * 2 ^ (e1 - e) ?= m2 * 2 ^ (e2 - e))
  end.

(** [x > y] *)
Definition greater (x y : Num) : bool :=
  match x, y with
  | Int a, Int b => a >? b
  | _, _ =>
      match compare_worth (worth x) (worth y) with
      | Some Gt => true
      | _ => false
      end
  end.

(** [x !== y] *)
Definition differs (x y : Num) : bool :=
  match x, y with
  | Int a, Int b => negb (a =? b)
  | _, _ =>
      match compare_worth (worth x) (worth y) with
      | Some Eq => false
      | _ => true
      end
  end.

(** ** Errors

    [createHttpError] of [lib/utils] and [createError] of [http-errors] build
    an error object from a status, a message and a bag of properties.  The
    property bag is a record of the keys the program ever sets. *)

Definition Buffer := list Byte.byte.

Definition Buffer_length (b : Buffer) : Z := Z.of_nat (List.length b).

Definition Buffer_concat (l : list Buffer) : Buffer := List.concat l.

(** The body is a string when a decoder was used, a [Buffer] otherwise. *)
Inductive Body :=
| BodyString (s : Text)
| BodyBuffer (b : Buffer).

Arguments BodyString s%_string.

Record Props := mkProps {
  p_type     : option string;
  p_code     : option string;
  p_expected : option Num;
  p_length   : option Num;
  p_limit    : option Num;
  p_received : option Z;
  p_encoding : option string;
  p_charset  : option string;
  p_body     : option Body
}.

Definition no_props : Props :=
  mkProps None None None None None None None None None.

Inductive Error :=
| HttpError (status : Z) (message : Text) (props : Props)
| PlainError (message : Text).

Arguments HttpError status%_Z message%_string props.
Arguments PlainError message%_string.

(** Modelled from the spec: [createHttpError] of [lib/utils] is not under
    [src/]; the spec (section 6) has every error "tagged with a
    machine-readable kind string and the contextual fields", so the model
    keeps exactly the status, the message and the properties it is given. *)
Definition createHttpError (status : Z) (message : Text) (props : Props) : Error :=
  HttpError status message props.

Arguments createHttpError status%_Z message%_string props.

Definition error_type (e : Error) : option string :=
  match e with
  | HttpError _ _ p => p_type p
  | PlainError _ => None
  end.

Definition error_status (e : Error) : option Z :=
  match e with
  | HttpError s _ _ => Some s
  | PlainError _ => None
  end.

(** ** Values handed to the callback *)

(** The arguments of a node-style callback: [(err)] or [(null, body)]. *)
Inductive Args :=
| Failure (err : Error)
| Success (body : Body).

(** ** The stream and the trace *)

Inductive event := ev_aborted | ev_close | ev_data | ev_end | ev_error.

(** The four functions [readStream] registers as listeners. *)
Inductive handler := h_onAborted | h_cleanup | h_onData | h_onEnd.

Definition event_eqb (a b : event) : bool :=
  match a, b with
  | ev_aborted, ev_aborted | ev_close, ev_close | ev_data, ev_data
  | ev_end, ev_end | ev_error, ev_error => true
  | _, _ => false
  end.

Definition handler_eqb (a b : handler) : bool :=
  match a, b with
  | h_onAborted, h_onAborted | h_cleanup, h_cleanup
  | h_onData, h_onData | h_onEnd, h_onEnd => true
  | _, _ => false
  end.

Definition listener := (event * handler)%type.

Definition listener_eqb (a b : listener) : bool :=
  event_eqb (fst a) (fst b) && handler_eqb (snd a) (snd b).

(** What the caller's code may do when it is called back.  These are the
    actions of the callback [read] hands to the accumulator. *)
Inductive action :=
| a_resume                          (* stream.resume() *)
| a_onFinished (e : Error)          (* onFinished(req, () => next(e)) *)
| a_next (e : option Error).        (* next(e) / next() *)

(** Everything observable, in program order. *)
Inductive effect :=
| E_on (ev : event) (h : handler)
| E_removeListener (ev : event) (h : handler)
| E_unpipe
| E_pause
| E_resume
| E_pipe                            (* req.pipe(stream) *)
| E_callback (a : Args)
| E_onFinished (e : Error)
| E_next (e : option Error).

(** The readable stream the accumulator is given.  [encoding_set] stands for
    [stream._decoder || state.encoding || state.decoder]. *)
Record Stream := mkStream {
  paused : bool;
  piped : bool;
  encoding_set : bool
}.

(** [buffer] is a string, an array of chunks or [null]. *)
Inductive Buf :=
| BufString (s : Text)
| BufChunks (l : list Buffer)
| BufNull.

(** Signals from the environment: the five stream events the accumulator
    listens to (the error a stream emits is an error object of its own, with
    a message and none of the properties this program sets), one turn of the [process.nextTick] queue, the end of the
    request as [onFinished] sees it, and one turn of the deferred queue
    [onFinished] uses when the request had already finished. *)
Inductive signal :=
| Data (chunk : Buffer)
| EndOfStream
| StreamError (message : string)
| Aborted
| Close
| Tick
| Finished
| Immediate.

Module Bytes.

(** ** JavaScript numbers

    A number is an IEEE 754 binary64 value: [spec_float] at precision 53
    and maximal exponent 1024.  Conversions from text round to nearest, ties
    to even. *)

Definition prec : Z := 53.
Definition emax : Z := 1024.

Definition number := spec_float.

Definition NaN : number := S754_nan.

Definition isNaN (x : number) : bool :=
  match x with S754_nan => true | _ => false end.

(** The number nearest to an integer; [neg] is the sign of a zero. *)
Definition of_int (neg : bool) (z : Z) : number :=
  binary_normalize prec emax z 0 neg.

(** The number nearest to [p / q]. *)
Definition of_ratio (neg : bool) (p : Z) (q : positive) : number :=
  match p with
  | Zpos m => SFdiv prec emax (S754_finite neg m 0) (S754_finite false q 0)
  | _ => S754_zero neg
  end.

(** The [*] of numbers. *)
Definition mul (x y : number) : number := SFmul prec emax x y.

(** [Math.floor] *)
Definition Math_floor (x : number) : number :=
  match x with
  | S754_finite s m e =>
      if 0 <=? e then x
      else
        let q := Z.shiftr (Zpos m) (- e) in
        if s
        then of_int true (- (if Zpos m =? Z.shiftl q (- e) then q else q + 1))
        else of_int false q
  | _ => x
  end.

(** [a << n] on 32-bit integers: the shift count is taken modulo 32 and the
    result wraps to the signed 32-bit range. *)
Definition shl32 (a n : Z) : Z :=
  let r := (a * 2 ^ (n mod 32)) mod 2 ^ 32 in
  if r <? 2 ^ 31 then r else r - 2 ^ 32.

(** ** [map] *)

Definition map_b : number := of_int false 1.
Definition map_kb : number := of_int false (shl32 1 10).
Definition map_mb : number := of_int false (shl32 1 20).
Definition map_gb : number := of_int false (shl32 1 30).
Definition map_tb : number := mul (of_int false (shl32 1 30)) (of_int false 1024).

(** [map[unit]]; a key the object does not have gives [undefined], which
    [*] turns into [NaN]. *)
Definition map (unit : string) : number :=
  if String.eqb unit "b" then map_b
  else if String.eqb unit "kb" then map_kb
  else if String.eqb unit "mb" then map_mb
  else if String.eqb unit "gb" then map_gb
  else if String.eqb unit "tb" then map_tb
  else NaN.

(** ** Scanning *)

(** The longest prefix of decimal digits, and what follows it. *)
Fixpoint span_digits (s : string) : string * string :=
  match s with
  | String c r =>
      if is_digit c
      then let (d, t) := span_digits r in (String c d, t)
      else (EmptyString, s)
  | EmptyString => (EmptyString, EmptyString)
  end.

Fixpoint skip_spaces (s : string) : string :=
  match s with
  | String c r => if Ascii.eqb c " " then skip_spaces r else s
  | EmptyString => EmptyString
  end.

(** The white space [parseInt] and [parseFloat] skip, among the code units
    below 256: TAB, LF, VT, FF, CR, SP and NBSP. *)
Definition is_white (c : ascii) : bool :=
  let n := N_of_ascii c in
  (((9 <=? n) && (n <=? 13)) || (n =? 32) || (n =? 160))%N.

Fixpoint trim_start (s : string) : string :=
  match s with
  | String c r => if is_white c then trim_start r else s
  | EmptyString => EmptyString
  end.

(** An optional sign: whether it is a minus, and what follows it. *)
Definition take_sign (s : string) : bool * string :=
  match s with
  | String c r =>
      if Ascii.eqb c "-" then (true, r)
      else if Ascii.eqb c "+" then (false, r)
      else (false, s)
  | EmptyString => (false, s)
  end.

(** ** [parseInt(string, 10)] *)

Definition parseInt (s : string) : number :=
  let (neg, r) := take_sign (trim_start s) in
  let (digits, _) := span_digits r in
  match digits with
  | EmptyString => NaN
  | _ => of_int neg (if neg then - decimal 0 digits else decimal 0 digits)
  end.

(** ** [parseFloat(string)] *)

(** An exponent part [e], [e+] or [e-] followed by digits: its value and
    what follows it; [None] when there is none. *)
Definition take_exponent (s : string) : option (Z * string) :=
  match s with
  | String c r =>
      if Ascii.eqb c "e" || Ascii.eqb c "E"
      then
        let (neg, r') := take_sign r in
        let (digits, t) := span_digits r' in
        match digits with
        | EmptyString => None
        | _ => Some (if neg then - decimal 0 digits else decimal 0 digits, t)
        end
      else None
  | EmptyString => None
  end.

(** The number nearest to [m * 10 ^ e]. *)
Definition of_decimal (neg : bool) (m e : Z) : number :=
  match e with
  | Zneg k => of_ratio neg m (10 ^ k)%positive
  | _ => of_int neg (if neg then - (m * 10 ^ e) else m * 10 ^ e)
  end.

Definition parseFloat (s : string) : number :=
  let (neg, r) := take_sign (trim_start s) in
  if String.prefix "Infinity" r then S754_infinity neg
  else
    let (int_digits, r1) := span_digits r in
    let (frac_digits, r2) :=
      match r1 with
      | String c t => if Ascii.eqb c "." then span_digits t else (EmptyString, r1)
      | EmptyString => (EmptyString, r1)
      end in
    match int_digits, frac_digits with
    | EmptyString, EmptyString => NaN
    | _, _ =>
        let exponent :=
          match take_exponent r2 with
          | Some (e, _) => e
          | None => 0
          end in
        of_decimal neg (decimal 0 (int_digits ++ frac_digits))
                   (exponent - Z.of_nat (String.length frac_digits))
    end.

(** ** [isNaN(string)]

    [isNaN] converts its argument to a number first.  For a string the
    white space at both ends is dropped, and what is left is a number when
    it is empty (the number 0), a decimal literal (an optional sign, then
    [Infinity], or digits with an optional fraction and an optional
    exponent, or a fraction with an optional exponent) or an unsigned
    literal in base 16, 8 or 2 ([0x], [0o], [0b]); anything else is NaN. *)

Fixpoint trim_end (s : string) : string :=
  match s with
  | EmptyString => EmptyString
  | String c r =>
      match trim_end r with
      | EmptyString => if is_white c then EmptyString else String c EmptyString
      | t => String c t
      end
  end.

(** A non-empty string of characters of one class. *)
Definition some_of (class : ascii -> bool) (s : string) : bool :=
  match s with
  | EmptyString => false
  | _ => forallb class (list_ascii_of_string s)
  end.

Definition is_hex_digit (c : ascii) : bool :=
  let n := N_of_ascii c in
  (((48 <=? n) && (n <=? 57)) || ((65 <=? n) && (n <=? 70))
   || ((97 <=? n) && (n <=? 102)))%N.

Definition is_octal_digit (c : ascii) : bool :=
  let n := N_of_ascii c in ((48 <=? n) && (n <=? 55))%N.

Definition is_binary_digit (c : ascii) : bool :=
  let n := N_of_ascii c in ((48 <=? n) && (n <=? 49))%N.

Definition is_non_decimal_literal (s : string) : bool :=
  match s with
  | String z (String b r) =>
      Ascii.eqb z "0"
      && (((Ascii.eqb b "x" || Ascii.eqb b "X") && some_of is_hex_digit r)
          || ((Ascii.eqb b "o" || Ascii.eqb b "O") && some_of is_octal_digit r)
          || ((Ascii.eqb b "b" || Ascii.eqb b "B") && some_of is_binary_digit r))
  | _ => false
  end.

(** Nothing, or an exponent part and nothing after it. *)
Definition ends_with_exponent (s : string) : bool :=
  match s with
  | EmptyString => true
  | String c r =>
      (Ascii.eqb c "e" || Ascii.eqb c "E") && some_of is_digit (snd (take_sign r))
  end.

Definition is_decimal_literal (s : string) : bool :=
  let r := snd (take_sign s) in
  String.eqb r "Infinity"
  || (let (int_digits, r1) := span_digits r in
      match r1 with
      | String c t =>
          if Ascii.eqb c "."
          then
            let (frac_digits, r2) := span_digits t in
            negb (String.eqb (int_digits ++ frac_digits) EmptyString)
            && ends_with_exponent r2
          else negb (String.eqb int_digits EmptyString) && ends_with_exponent r1
      | EmptyString => negb (String.eqb int_digits EmptyString)
      end).

Definition isNaN_string (s : string) : bool :=
  let t := trim_end (trim_start s) in
  negb (String.eqb t EmptyString || is_non_decimal_literal t || is_decimal_literal t).

(** ** [parseRegExp]

    [/^((-|\+)?(\d+(?:\.\d+)?)) *(kb|mb|gb|tb)$/i]: the capture groups of a
    match. *)
Record Match := mkMatch {
  group1 : string;          (* the signed number *)
  group2 : option string;   (* the sign *)
  group3 : string;          (* the number *)
  group4 : string           (* the unit *)
}.

(** A letter of the pattern matches itself in either case. *)
Definition upper (c : ascii) : ascii :=
  let n := N_of_ascii c in
  if ((97 <=? n) && (n <=? 122))%N then ascii_of_N (n - 32) else c.

Definition is_unit (unit : string) : bool :=
  match unit with
  | String a (String b EmptyString) =>
      let a := upper a in
      (Ascii.eqb a "K" || Ascii.eqb a "M" || Ascii.eqb a "G" || Ascii.eqb a "T")
      && Ascii.eqb (upper b) "B"
  | _ => false
  end.

(** [parseRegExp.exec(val)]: every quantifier of the pattern is followed by
    something its own characters cannot start, so the leftmost-greedy match
    is the only candidate and one pass decides. *)
Definition parseRegExp_exec (val : string) : option Match :=
  let (sign, r) :=
    match val with
    | String c t =>
        if Ascii.eqb c "-" || Ascii.eqb c "+"
        then (Some (String c EmptyString), t)
        else (None, val)
    | EmptyString => (None, val)
    end in
  let (int_digits, r1) := span_digits r in
  match int_digits with
  | EmptyString => None
  | _ =>
      let (fraction, r2) :=
        match r1 with
        | String c t =>
            if Ascii.eqb c "."
            then
              match span_digits t with
              | (EmptyString, _) => (EmptyString, r1)
              | (d, t') => (String c d, t')
              end
            else (EmptyString, r1)
        | EmptyString => (EmptyString, r1)
        end in
      let unit := skip_spaces r2 in
      if is_unit unit
      then
        let num := (int_digits ++ fraction)%string in
        Some (mkMatch (match sign with Some sg => sg ++ num | None => num end)%string
                      sign num unit)
      else None
  end.

(** ** [parse] *)

Inductive value :=
| Number (x : number)
| Str (s : string)
| Boolean (b : bool)
| Null
| Undefined.

Definition parse (val : value) : value :=
  match val with
  | Number x => if isNaN x then Null else Number x
  | Str s =>
      let results := parseRegExp_exec s in
      let (floatValue, unit) :=
        match results with
        | None => (parseInt s, "b"%string)
        | Some m => (parseFloat (group1 m), toLowerCase (group4 m))
        end in
      Number (Math_floor (mul (map unit) floatValue))
  | _ => Null
  end.

(** *** The contract as the specification words it

    "matches an optional sign, a decimal magnitude, and a required unit
    suffix from {b, kb, mb, gb, tb}; result is floor(magnitude x
    multiplier)": the multiplier of a unit, and the floor of the signed
    magnitude [m / 10 ^ k] times it. *)
Definition multiplier (unit : string) : Z :=
  if String.eqb unit "b" then 1
  else if String.eqb unit "kb" then 2 ^ 10
  else if String.eqb unit "mb" then 2 ^ 20
  else if String.eqb unit "gb" then 2 ^ 30
  else 2 ^ 40.

Definition spec_bytes (neg : bool) (int_digits frac_digits unit : string) : Z :=
  let m := decimal 0 (int_digits ++ frac_digits) in
  ((if neg then - m else m) * multiplier (toLowerCase unit))
  / 10 ^ Z.of_nat (String.length frac_digits).

(** The shape the pattern matches: a sign, digits, a fraction (nothing, or a
    point and digits), spaces, a unit. *)
Fixpoint spaces (n : nat) : string :=
  match n with
  | O => EmptyString
  | S k => String " " (spaces k)
  end.

Definition fraction (frac_digits : string) : string :=
  match frac_digits with
  | EmptyString => EmptyString
  | _ => String "." frac_digits
  end.

Definition is_sign (sign : string) : bool :=
  String.eqb sign EmptyString || String.eqb sign "-" || String.eqb sign "+".

Definition starts_with_digit (s : string) : bool :=
  match s with
  | String c _ => is_digit c
  | EmptyString => false
  end.

(** The integer a number is, when it is one. *)
Definition to_int (x : number) : option Z :=
  match x with
  | S754_zero _ => Some 0
  | S754_finite s m e =>
      if 0 <=? e then Some ((if s then Zneg m else Zpos m) * 2 ^ e)
      else if Zpos m mod 2 ^ (- e) =? 0
      then Some ((if s then Zneg m else Zpos m) / 2 ^ (- e))
      else None
  | _ => None
  end.

End Bytes.

Module RawBody.

Section Accumulator.

(** [iconv-lite] is an external collaborator: a decoder is a state, an
    incremental [write] and a final [end]; [iconv.getDecoder] returns a
    decoder or throws an error with a message. *)
Variable dstate : Type.
Variable iconv_getDecoder : string -> dstate + string.
Variable decoder_write : dstate -> Buffer -> dstate * Text.
Variable decoder_end : dstate -> option Text.

(** The caller's callback, as the list of actions it takes. *)
Variable callback : Args -> list action.

(** The variables [readStream] closes over, the listeners it has on the
    stream, the queues of the event loop and the trace. *)
Record state := mkState {
  complete  : bool;
  sync      : bool;
  received  : Z;
  decoder   : option dstate;
  buffer    : Buf;
  listeners : list listener;
  stream    : Stream;
  nextTick  : list Args;
  finished  : bool;
  on_finished : list Error;
  deferred  : list Error;
  trace     : list effect
}.

Definition set_complete (b : bool) (st : state) : state :=
  mkState b (sync st) (received st) (decoder st) (buffer st) (listeners st)
          (stream st) (nextTick st) (finished st) (on_finished st) (deferred st) (trace st).
Definition set_sync (b : bool) (st : state) : state :=
  mkState (complete st) b (received st) (decoder st) (buffer st) (listeners st)
          (stream st) (nextTick st) (finished st) (on_finished st) (deferred st) (trace st).
Definition set_received (n : Z) (st : state) : state :=
  mkState (complete st) (sync st) n (decoder st) (buffer st) (listeners st)
          (stream st) (nextTick st) (finished st) (on_finished st) (deferred st) (trace st).
Definition set_decoder (d : option dstate) (st : state) : state :=
  mkState (complete st) (sync st) (received st) d (buffer st) (listeners st)
          (stream st) (nextTick st) (finished st) (on_finished st) (deferred st) (trace st).
Definition set_buffer (b : Buf) (st : state) : state :=
  mkState (complete st) (sync st) (received st) (decoder st) b (listeners st)
          (stream st) (nextTick st) (finished st) (on_finished st) (deferred st) (trace st).
Definition set_listeners (l : list listener) (st : state) : state :=
  mkState (complete st) (sync st) (received st) (decoder st) (buffer st) l
          (stream st) (nextTick st) (finished st) (on_finished st) (deferred st) (trace st).
Definition set_stream (s : Stream) (st : state) : state :=
  mkState (complete st) (sync st) (received st) (decoder st) (buffer st) (listeners st)
          s (nextTick st) (finished st) (on_finished st) (deferred st) (trace st).
Definition set_nextTick (q : list Args) (st : state) : state :=
  mkState (complete st) (sync st) (received st) (decoder st) (buffer st) (listeners st)
          (stream st) q (finished st) (on_finished st) (deferred st) (trace st).
Definition set_finished (b : bool) (st : state) : state :=
  mkState (complete st) (sync st) (received st) (decoder st) (buffer st) (listeners st)
          (stream st) (nextTick st) b (on_finished st) (deferred st) (trace st).
Definition set_on_finished (l : list Error) (st : state) : state :=
  mkState (complete st) (sync st) (received st) (decoder st) (buffer st) (listeners st)
          (stream st) (nextTick st) (finished st) l (deferred st) (trace st).
Definition set_deferred (l : list Error) (st : state) : state :=
  mkState (complete st) (sync st) (received st) (decoder st) (buffer st) (listeners st)
          (stream st) (nextTick st) (finished st) (on_finished st) l (trace st).
Definition log (e : effect) (st : state) : state :=
  mkState (complete st) (sync st) (received st) (decoder st) (buffer st) (listeners st)
          (stream st) (nextTick st) (finished st) (on_finished st) (deferred st)
          (trace st ++ [e]).

(** *** Stream methods *)

(** [stream.on(ev, h)] *)
Definition stream_on (ev : event) (h : handler) (st : state) : state :=
  log (E_on ev h) (set_listeners (listeners st ++ [(ev, h)]) st).

(** [removeListener] drops the most recently added matching listener. *)
Fixpoint remove_first (x : listener) (l : list listener) : list listener :=
  match l with
  | [] => []
  | y :: r => if listener_eqb x y then r else y :: remove_first x r
  end.

Definition remove_last (x : listener) (l : list listener) : list listener :=
  rev (remove_first x (rev l)).

Definition stream_removeListener (ev : event) (h : handler) (st : state) : state :=
  log (E_removeListener ev h) (set_listeners (remove_last (ev, h) (listeners st)) st).

Definition stream_unpipe (st : state) : state :=
  log E_unpipe (set_stream (mkStream (paused (stream st)) false (encoding_set (stream st))) st).

Definition stream_pause (st : state) : state :=
  log E_pause (set_stream (mkStream true (piped (stream st)) (encoding_set (stream st))) st).

Definition stream_resume (st : state) : state :=
  log E_resume (set_stream (mkStream false (piped (stream st)) (encoding_set (stream st))) st).

(** *** The caller's actions *)

(** Modelled from the spec: [onFinished] of [lib/utils] is not under
    [src/].  It calls its listener once the request has finished: when the
    request is still in flight the listener waits for the [Finished]
    signal; when the request has already finished the call is deferred to
    the next turn of the event loop ([Immediate]), never made inline. *)
Definition onFinished (e : Error) (st : state) : state :=
  let st := log (E_onFinished e) st in
  if finished st
  then set_deferred (deferred st ++ [e]) st
  else set_on_finished (on_finished st ++ [e]) st.

Definition perform (a : action) (st : state) : state :=
  match a with
  | a_resume => stream_resume st
  | a_onFinished e => onFinished e st
  | a_next e => log (E_next e) st
  end.

Definition perform_all (l : list action) (st : state) : state :=
  fold_left (fun s a => perform a s) l st.

(** *** [getDecoder] *)

Definition ICONV_ENCODING_MESSAGE_REGEXP_test (message : string) : bool :=
  String.prefix "Encoding not recognized: " message.

Definition encoding_unsupported (encoding : string) : Error :=
  createHttpError 415 "specified encoding unsupported"
    (mkProps (Some "encoding.unsupported"%string) None None None None None
             (Some encoding) None None).

(** [inl] is the returned decoder ([None] for [null]), [inr] the thrown
    error. *)
Definition getDecoder (encoding : option string) : option dstate + Error :=
  match encoding with
  | None => inl None
  | Some EmptyString => inl None
  | Some enc =>
      match iconv_getDecoder enc with
      | inl d => inl (Some d)
      | inr message =>
          if ICONV_ENCODING_MESSAGE_REGEXP_test message
          then inr (encoding_unsupported enc)
          else inr (PlainError message)
      end
  end.

(** *** [halt] *)

Definition halt (st : state) : state :=
  stream_pause (stream_unpipe st).

(** *** The inner functions of [readStream] *)

Definition cleanup (st : state) : state :=
  let st := set_buffer BufNull st in
  let st := stream_removeListener ev_aborted h_onAborted st in
  let st := stream_removeListener ev_data h_onData st in
  let st := stream_removeListener ev_end h_onEnd st in
  let st := stream_removeListener ev_error h_onEnd st in
  stream_removeListener ev_close h_cleanup st.

Definition invokeCallback (args : Args) (st : state) : state :=
  let st := cleanup st in
  let st := match args with
            | Failure _ => halt st
            | Success _ => st
            end in
  perform_all (callback args) (log (E_callback args) st).

Definition done (args : Args) (st : state) : state :=
  let st := set_complete true st in
  if sync st
  then set_nextTick (nextTick st ++ [args]) st
  else invokeCallback args st.

(** The parameters [readStream] is called with. *)
Variable encoding : option string.
Variable length : option Num.
Variable limit : option Num.

(** The errors the listeners build, from the bytes received so far. *)
Definition request_aborted (received : Z) : Error :=
  createHttpError 400 "request aborted"
    (mkProps (Some "request.aborted"%string) (Some "ECONNABORTED"%string)
             length length None (Some received) None None None).

Definition entity_too_large (received : Z) : Error :=
  createHttpError 413 "request entity too large"
    (mkProps (Some "entity.too.large"%string) None None None
             limit (Some received) None None None).

Definition request_size_invalid (received : Z) : Error :=
  createHttpError 400 "request size did not match content length"
    (mkProps (Some "request.size.invalid"%string) None
             length length None (Some received) None None None).

Definition onAborted (st : state) : state :=
  if complete st then st
  else
    done (Failure (request_aborted (received st))) st.

(** [limit !== null && received > limit] *)
Definition over_limit (n : Z) : bool :=
  match limit with
  | Some lim => greater n lim
  | None => false
  end.

Definition onData (chunk : Buffer) (st : state) : state :=
  if complete st then st
  else
    let st := set_received (received st + Buffer_length chunk) st in
    if over_limit (received st)
    then done (Failure (entity_too_large (received st))) st
    else
      match decoder st, buffer st with
      | Some d, BufString s =>
          (* buffer += decoder.write(chunk) *)
          let (d', out) := decoder_write d chunk in
          set_buffer (BufString (s ++ out)) (set_decoder (Some d') st)
      | None, BufChunks l =>
          (* buffer.push(chunk) *)
          set_buffer (BufChunks (l ++ [chunk])) st
      | _, _ =>
          (* [buffer] is a string exactly when there is a decoder, and it is
             [null] only once the listeners are gone: no other combination
             reaches this line (lemma [wf_step]) *)
          st
      end.

(** [length !== null && received !== length] *)
Definition size_mismatch (n : Z) : bool :=
  match length with
  | Some len => differs n len
  | None => false
  end.

(** [decoder ? buffer + (decoder.end() || empty) : Buffer.concat(buffer)], where
    [empty] is the empty string *)
Definition final_body (st : state) : Body :=
  match decoder st with
  | Some d =>
      BodyString ((match buffer st with BufString s => s | _ => [] end)
                  ++ (match decoder_end d with Some t => t | None => [] end))%list
  | None =>
      BodyBuffer (Buffer_concat (match buffer st with BufChunks l => l | _ => [] end))
  end.

Definition onEnd (err : option Error) (st : state) : state :=
  if complete st then st
  else
    match err with
    | Some e => done (Failure e) st
    | None =>
        if size_mismatch (received st)
        then done (Failure (request_size_invalid (received st))) st
        else done (Success (final_body st)) st
    end.

(** [length > limit], both present *)
Definition length_over_limit : bool :=
  match limit, length with
  | Some lim, Some len => greater len lim
  | _, _ => false
  end.

Definition entity_too_large_expected : Error :=
  createHttpError 413 "request entity too large"
    (mkProps (Some "entity.too.large"%string) None length length limit None None None None).

Definition stream_encoding_set : Error :=
  createHttpError 500 "stream encoding should not be set"
    (mkProps (Some "stream.encoding.set"%string) None None None None None None None None).

(** The body of [readStream] up to its return: the synchronous section. *)
Definition readStream (st : state) : state :=
  let st := set_sync true (set_complete false st) in
  if length_over_limit
  then done (Failure entity_too_large_expected) st
  else if encoding_set (stream st)
  then done (Failure stream_encoding_set) st
  else
    let st := set_received 0 st in
    match getDecoder encoding with
    | inr err => done (Failure err) st
    | inl d =>
        let st := set_decoder d st in
        let st := set_buffer (match d with Some _ => BufString [] | None => BufChunks [] end) st in
        let st := stream_on ev_aborted h_onAborted st in
        let st := stream_on ev_close h_cleanup st in
        let st := stream_on ev_data h_onData st in
        let st := stream_on ev_end h_onEnd st in
        let st := stream_on ev_error h_onEnd st in
        set_sync false st
    end.

(** *** The event loop *)

Definition run_handler (h : handler) (sig : signal) (st : state) : state :=
  match h with
  | h_onAborted => onAborted st
  | h_cleanup => cleanup st
  | h_onData => match sig with Data chunk => onData chunk st | _ => st end
  | h_onEnd =>
      match sig with
      | StreamError message => onEnd (Some (PlainError message)) st
      | _ => onEnd None st
      end
  end.

(** [stream.emit(ev, ...)] calls the listeners registered for [ev] at the
    time of the call, in registration order. *)
Definition emit (ev : event) (sig : signal) (st : state) : state :=
  fold_left (fun s l => if event_eqb (fst l) ev then run_handler (snd l) sig s else s)
            (listeners st) st.

Definition fire (l : list Error) (st : state) : state :=
  fold_left (fun s e => log (E_next (Some e)) s) l st.

Definition step (st : state) (sig : signal) : state :=
  match sig with
  | Data _ => emit ev_data sig st
  | EndOfStream => emit ev_end sig st
  | StreamError _ => emit ev_error sig st
  | Aborted => emit ev_aborted sig st
  | Close => emit ev_close sig st
  | Tick =>
      match nextTick st with
      | [] => st
      | args :: q => invokeCallback args (set_nextTick q st)
      end
  | Finished =>
      fire (on_finished st) (set_on_finished [] (set_finished true st))
  | Immediate =>
      fire (deferred st) (set_deferred [] st)
  end.

Definition run (st : state) (sigs : list signal) : state :=
  fold_left step sigs st.

(** *** What the trace says *)

Definition is_callback (e : effect) : bool :=
  match e with E_callback _ => true | _ => false end.

(** The arguments of the callback invocations, in order. *)
Fixpoint calls (tr : list effect) : list Args :=
  match tr with
  | [] => []
  | E_callback a :: r => a :: calls r
  | _ :: r => calls r
  end.

(** The errors handed to [next], in order. *)
Fixpoint nexts (tr : list effect) : list (option Error) :=
  match tr with
  | [] => []
  | E_next e :: r => e :: nexts r
  | _ :: r => nexts r
  end.

(** The listeners a trace leaves on the stream. *)
Definition replay (l : list listener) (e : effect) : list listener :=
  match e with
  | E_on ev h => l ++ [(ev, h)]
  | E_removeListener ev h => remove_last (ev, h) l
  | _ => l
  end.

Definition listeners_of (tr : list effect) : list listener :=
  fold_left replay tr [].

(** The listeners of a read in progress, the removals of [cleanup] and the
    effects of the caller's actions. *)
Definition five : list listener :=
  [(ev_aborted, h_onAborted); (ev_close, h_cleanup); (ev_data, h_onData);
   (ev_end, h_onEnd); (ev_error, h_onEnd)].

Definition removals : list effect :=
  [E_removeListener ev_aborted h_onAborted; E_removeListener ev_data h_onData;
   E_removeListener ev_end h_onEnd; E_removeListener ev_error h_onEnd;
   E_removeListener ev_close h_cleanup].

Definition effect_of (a : action) : effect :=
  match a with
  | a_resume => E_resume
  | a_onFinished e => E_onFinished e
  | a_next e => E_next e
  end.

Definition halting (args : Args) : list effect :=
  match args with
  | Failure _ => [E_unpipe; E_pause]
  | Success _ => []
  end.

(** The effects of one [invokeCallback]. *)
Definition delivery (args : Args) : list effect :=
  removals ++ halting args ++ E_callback args :: List.map effect_of (callback args).

(** Whether every callback of a trace is invoked with no listener left on
    the stream, starting from the listeners [l]. *)
Fixpoint detached (l : list listener) (tr : list effect) : bool :=
  match tr with
  | [] => true
  | e :: r =>
      match e with
      | E_callback _ => match l with [] => detached l r | _ => false end
      | _ => detached (replay l e) r
      end
  end.

(** The listeners [cleanup] leaves. *)
Definition remove5 (l : list listener) : list listener :=
  fold_left replay removals l.

(** *** The phases of a read

    A read is pending (setup failed, the callback waits for the next
    tick), reading (the five listeners are on the stream), closed (the
    stream closed before the read completed) or delivered (the callback
    has been invoked). *)
Definition is_failure (args : Args) : Prop :=
  match args with Failure _ => True | Success _ => False end.

Definition buffer_ok (st : state) : Prop :=
  match decoder st, buffer st with
  | Some _, BufString _ => True
  | None, BufChunks _ => True
  | _, _ => False
  end.

Inductive phase (st : state) : Prop :=
| Pending (args : Args) :
    complete st = true -> sync st = true -> listeners st = [] ->
    nextTick st = [args] -> calls (trace st) = [] -> received st = 0 ->
    is_failure args -> phase st
| Reading :
    complete st = false -> sync st = false -> listeners st = five ->
    nextTick st = [] -> calls (trace st) = [] -> buffer_ok st -> phase st
| Closed :
    complete st = false -> sync st = false -> listeners st = [] ->
    nextTick st = [] -> calls (trace st) = [] -> phase st
| Delivered (args : Args) :
    complete st = true -> listeners st = [] ->
    nextTick st = [] -> calls (trace st) = [args] -> phase st.

(** A state the program can be in: in one of the phases, with the
    listeners its trace says, every callback invoked with none left. *)
Record wf (st : state) : Prop := mk_wf {
  wf_phase : phase st;
  wf_listeners : listeners_of (trace st) = listeners st;
  wf_detached : detached [] (trace st) = true
}.

(** A state [readStream] can start from. *)
Record clean (st : state) : Prop := mk_clean {
  clean_listeners : listeners st = [];
  clean_nextTick : nextTick st = [];
  clean_calls : calls (trace st) = [];
  clean_received : received st = 0;
  clean_replay : listeners_of (trace st) = [];
  clean_detached : detached [] (trace st) = true
}.

(** Whether a trace takes nothing from the stream: it attaches no listener
    and pipes the stream nowhere. *)
Definition never_attached (tr : list effect) : bool :=
  forallb (fun e => match e with E_on _ _ | E_pipe => false | _ => true end) tr.

(** What a read is to produce from the chunks of a stream: the
    concatenation of the chunks, or, with a decoder, what the decoder
    writes for each chunk followed by what it flushes at the end. *)
Definition total (chunks : list Buffer) : Z :=
  fold_right (fun c n => Buffer_length c + n) 0 chunks.

Definition flush (d : dstate) : Text :=
  match decoder_end d with Some t => t | None => [] end.

Fixpoint decode_chunks (d : dstate) (chunks : list Buffer) : Text :=
  match chunks with
  | [] => flush d
  | c :: r => let (d', out) := decoder_write d c in out ++ decode_chunks d' r
  end.

Definition body_of (d : option dstate) (chunks : list Buffer) : Body :=
  match d with
  | Some d => BodyString (decode_chunks d chunks)
  | None => BodyBuffer (Buffer_concat chunks)
  end.

Definition is_tick (sig : signal) : bool :=
  match sig with Tick => true | _ => false end.

(** The signals of the stream. *)
Definition from_stream (sig : signal) : bool :=
  match sig with
  | Data _ | EndOfStream | StreamError _ | Aborted | Close => true
  | Tick | Finished | Immediate => false
  end.

End Accumulator.

Arguments state : clear implicits.
Arguments mkState {dstate}.
Arguments complete {dstate}.
Arguments sync {dstate}.
Arguments received {dstate}.
Arguments decoder {dstate}.
Arguments buffer {dstate}.
Arguments listeners {dstate}.
Arguments stream {dstate}.
Arguments nextTick {dstate}.
Arguments finished {dstate}.
Arguments on_finished {dstate}.
Arguments deferred {dstate}.
Arguments trace {dstate}.
Arguments buffer_ok {dstate}.
Arguments phase {dstate}.
Arguments wf {dstate}.
Arguments clean {dstate}.
Arguments listeners_of : simpl never.
Arguments remove5 : simpl never.

(** A world in which nothing has happened yet. *)
Definition world (dstate : Type) (s : Stream) (fin : bool) : state dstate :=
  mkState false true 0 None BufNull [] s [] fin [] [] [].

(** *** [getRawBody]

    The options [read] passes: [length] is the [content-length] header or
    [undefined], [limit] whatever the caller of [read] made the limit,
    [encoding] a charset name or [null]. *)
Record IOptions := mkIOptions {
  o_length   : option string;
  o_limit    : Bytes.value;
  o_encoding : option string
}.

(** A number as a byte count. *)
Definition count_of (x : Bytes.number) : Num :=
  match Bytes.to_int x with
  | Some z => Int z
  | None => Float x
  end.

(** [bytes.parse(opts.limit)]: a number, or [null]. *)
Definition limit_of (opts_limit : Bytes.value) : option Num :=
  match Bytes.parse opts_limit with
  | Bytes.Number x => Some (count_of x)
  | _ => None
  end.

(** [opts.length != null && !isNaN(opts.length) ? parseInt(opts.length, 10) : null]:
    a header that is no number gives [null]; one that is a number gives
    what [parseInt] reads at its start, which is NaN when no integer
    starts it (the empty header, [Infinity], [.5]). *)
Definition expected_length (l : option string) : option Num :=
  match l with
  | None => None
  | Some s =>
      if Bytes.isNaN_string s then None else Some (count_of (Bytes.parseInt s))
  end.

Definition getRawBody (dstate : Type) (iconv_getDecoder : string -> dstate + string)
    (opts : IOptions) (callback : Args -> list action) (st : state dstate) : state dstate :=
  let encoding := o_encoding opts in
  let limit := limit_of (o_limit opts) in
  let length := expected_length (o_length opts) in
  readStream dstate iconv_getDecoder callback encoding length limit st.

End RawBody.

Module Read.

Import RawBody.

Record Request := mkRequest {
  content_encoding : option string;   (* req.headers["content-encoding"] *)
  content_length   : option string;   (* req.headers["content-length"] *)
  req_stream       : Stream;
  req_finished     : bool
}.

(** The stream [contentstream] returns: the request itself, or a [zlib]
    transform the request is piped into; [cs_length] is its [length]
    property. *)
Inductive stream_kind := the_request | zlib_inflate | zlib_gunzip.

Record ContentStream := mkContentStream {
  cs_kind   : stream_kind;
  cs_length : option string
}.

Definition content_encoding_unsupported (message encoding : string) : Error :=
  HttpError 415 message
    (mkProps (Some "encoding.unsupported"%string) None None None None None
             (Some encoding) None None).

(** A transform [zlib] has just created: not flowing, piped nowhere. *)
Definition zlib_stream : Stream := mkStream true false false.

Section Orchestrator.

Variable dstate : Type.
Variable iconv_getDecoder : string -> dstate + string.
Variable decoder_write : dstate -> Buffer -> dstate * Text.
Variable decoder_end : dstate -> option Text.

(** [iconv.encodingExists], and [iconv.decode], which returns the text or
    throws. *)
Variable iconv_encodingExists : string -> bool.
Variable iconv_decode : Buffer -> string -> Text + Error.

(** [createError(status, err, props)] of [http-errors] applied to an
    existing error, and [String.prototype.toUpperCase]. *)
Variable createError : Z -> Error -> Props -> Error.
Variable toUpperCase : string -> string.

(** The collaborators: [verify] (absent, or a function that returns or
    throws) and [parse] (returns, or throws); the value [parse] returns is
    stored in [req.body] and not looked at again. *)
Variable verify : option (Body -> option Error).
Variable parse : Body -> option Error.

(** [req.pipe(stream)]: the content stream is now the transform. *)
Definition req_pipe (st : state dstate) : state dstate :=
  log dstate E_pipe (set_stream dstate zlib_stream st).

(** [(req.headers["content-encoding"] || "identity").toLowerCase()] *)
Definition encoding_token (req : Request) : string :=
  toLowerCase (match content_encoding req with
               | None | Some EmptyString => "identity"
               | Some e => e
               end).

(** [inflate] is [None] when the argument is left out. *)
Definition contentstream (req : Request) (inflate : option bool) (st : state dstate)
  : (ContentStream + Error) * state dstate :=
  let encoding := encoding_token req in
  let length := content_length req in
  if (match inflate with Some false => true | _ => false end)
     && negb (String.eqb encoding "identity")
  then (inr (content_encoding_unsupported "content encoding unsupported" encoding), st)
  else if String.eqb encoding "deflate"
  then (inl (mkContentStream zlib_inflate None), req_pipe st)
  else if String.eqb encoding "gzip"
  then (inl (mkContentStream zlib_gunzip None), req_pipe st)
  else if String.eqb encoding "identity"
  then (inl (mkContentStream the_request length), st)
  else (inr (content_encoding_unsupported
               ("unsupported content encoding " ++ quoted encoding) encoding), st).

Definition charset_unsupported (encoding : string) : Error :=
  HttpError 415 ("unsupported charset " ++ quoted (toUpperCase encoding))
    (mkProps (Some "charset.unsupported"%string) None None None None None None
             (Some (toLowerCase encoding)) None).

(** [err.type || fallback] *)
Definition type_or (err : Error) (fallback : string) : string :=
  match error_type err with
  | None | Some EmptyString => fallback
  | Some t => t
  end.

Section Callback.

(** [encoding] as [read] computed it from its options. *)
Variable encoding : option string.

(** The [parse] step of the callback. *)
Definition parse_body (body : Body) : list action :=
  let decoded : Body + Error :=
    match body, encoding with
    | BodyBuffer b, Some enc =>
        match iconv_decode b enc with
        | inl text => inl (BodyString text)
        | inr err => inr err
        end
    | _, _ => inl body
    end in
  match decoded with
  | inr err =>
      (* [str] is still [body] when [iconv.decode] throws *)
      [a_next (Some (createError 400 err
                       (mkProps (Some (type_or err "entity.parse.failed")) None None None
                                None None None None (Some body))))]
  | inl str =>
      match parse str with
      | Some err =>
          [a_next (Some (createError 400 err
                           (mkProps (Some (type_or err "entity.parse.failed")) None None
                                    None None None None None (Some str))))]
      | None => [a_next None]
      end
  end.

(** [_error]: the error the callback builds from the one it is given.
    [encoding.toUpperCase()] throws on [null]; [None] stands for that
    exception, which ends the callback. *)
Definition classify (error : Error) : option Error :=
  if match error_type error with
     | Some t => String.eqb t "encoding.unsupported"
     | None => false
     end
  then option_map charset_unsupported encoding
  else Some (createError 400 error no_props).

(** The function [read] hands to [getBody]. *)
Definition on_body (args : Args) : list action :=
  match args with
  | Failure error =>
      match classify error with
      | Some _error => [a_resume; a_onFinished (createError 400 _error no_props)]
      | None => []
      end
  | Success body =>
      match verify with
      | Some check =>
          match check body with
          | Some err =>
              [a_next (Some (createError 403 err
                               (mkProps (Some (type_or err "entity.verify.failed")) None None
                                        None None None None None (Some body))))]
          | None => parse_body body
          end
      | None => parse_body body
      end
  end.

(** What the trace and the queues say once the accumulator has
    reported the failure [error]: the callback resumed the stream and
    left the classified error with [onFinished]; that error waits for
    the request to finish, or for the next turn of the event loop when
    the request had finished already, or has been handed to [next], the
    request being finished. *)
Definition failure_deferred (error : Error) (st : state dstate) : Prop :=
  exists _error pre post,
    classify error = Some _error
    /\ trace st = pre ++ E_callback (Failure error) :: E_resume
                      :: E_onFinished (createError 400 _error no_props) :: post
    /\ nexts pre = []
    /\ paused (stream st) = false
    /\ ((on_finished st = [createError 400 _error no_props] /\ deferred st = []
         /\ finished st = false /\ nexts post = [])
        \/ (on_finished st = [] /\ deferred st = [createError 400 _error no_props]
            /\ finished st = true /\ nexts post = [])
        \/ (on_finished st = [] /\ deferred st = []
            /\ finished st = true
            /\ nexts post = [Some (createError 400 _error no_props)])).

(** The states of the orchestrator once [getBody] has been called. *)
Definition orchestrated (st : state dstate) : Prop :=
  (forall error, In (Failure error) (nextTick st) -> classify error <> None)
  /\ match calls (trace st) with
     | [] => on_finished st = [] /\ deferred st = [] /\ nexts (trace st) = []
     | [Failure error] => failure_deferred error st
     | [Success _] => on_finished st = [] /\ deferred st = []
     | _ => False
     end.

End Callback.

(** The options of [read] the reader looks at. *)
Record Options := mkOptions {
  opt_encoding : option string;
  opt_inflate  : option bool;
  opt_limit    : Bytes.value
}.

Definition read (req : Request) (options : Options) : state dstate :=
  let st := world dstate (req_stream req) (req_finished req) in
  let encoding := opt_encoding options in
  match contentstream req (opt_inflate options) st with
  | (inr err, st) => log dstate (E_next (Some err)) st
  | (inl cs, st) =>
      let length := cs_length cs in
      let opts := mkIOptions length (opt_limit options)
                             (match verify with Some _ => None | None => encoding end) in
      match o_encoding opts, encoding with
      | None, Some enc =>
          if negb (iconv_encodingExists enc)
          then log dstate (E_next (Some (charset_unsupported enc))) st
          else getRawBody dstate iconv_getDecoder opts (on_body encoding) st
      | _, _ => getRawBody dstate iconv_getDecoder opts (on_body encoding) st
      end
  end.

(** The program after [read] has returned: the accumulator with the
    parameters [getRawBody] gave it and [on_body] as its callback. *)
Definition react (req : Request) (options : Options) : state dstate -> signal -> state dstate :=
  let encoding := opt_encoding options in
  step dstate decoder_write decoder_end (on_body encoding)
       (expected_length
          (match fst (contentstream req (opt_inflate options)
                                    (world dstate (req_stream req) (req_finished req))) with
           | inl cs => cs_length cs
           | inr _ => None
           end))
       (limit_of (opt_limit options)).

Definition serve (req : Request) (options : Options) (sigs : list signal) : state dstate :=
  fold_left (react req options) sigs (read req options).

End Orchestrator.

End Read.

(** ** The JSON middleware ([lib/json.ts]) *)

Module Json.

Import RawBody Read.

(** *** [FIRST_CHAR_REGEXP] and [firstchar] *)

(** The class [[\x20\x09\x0a\x0d]]. *)
Definition is_space (c : N) : bool :=
  ((c =? 32) || (c =? 9) || (c =? 10) || (c =? 13))%N.

(** What [.] does not match: the line terminators LF, CR, U+2028 and
    U+2029. *)
Definition is_line_terminator (c : N) : bool :=
  ((c =? 10) || (c =? 13) || (c =? 8232) || (c =? 8233))%N.

(** [FIRST_CHAR_REGEXP.exec(str)]: the first group of the match, [None]
    when there is no match.  The star is greedy: the longer run of white
    space is tried first, and when nothing after it can be captured the run
    gives its last character back. *)
Fixpoint FIRST_CHAR_REGEXP_exec (str : Text) : option N :=
  match str with
  | [] => None
  | c :: r =>
      let here := if is_line_terminator c then None else Some c in
      if is_space c
      then match FIRST_CHAR_REGEXP_exec r with
           | Some x => Some x
           | None => here
           end
      else here
  end.

(** [firstchar(str)] is [FIRST_CHAR_REGEXP.exec(str)![1]]: when the
    pattern does not match, indexing [null] throws; [None] stands for
    that exception. *)
Definition firstchar (str : Text) : option N :=
  FIRST_CHAR_REGEXP_exec str.

(** *** Strings *)

(** [str.indexOf(char)], [-1] when [char] does not occur. *)
Fixpoint indexOf (str : Text) (char : N) : Z :=
  match str with
  | [] => -1
  | c :: r =>
      if (c =? char)%N then 0
      else let i := indexOf r char in if i <? 0 then -1 else i + 1
  end.

(** [str.substring(0, index)]: a negative index counts as 0. *)
Definition substring0 (str : Text) (index : Z) : Text :=
  firstn (Z.to_nat index) str.

(** [message.replace("#", char)]: the first [#] becomes [char]. *)
Fixpoint replace_hash (char : N) (message : Text) : Text :=
  match message with
  | [] => []
  | c :: r => if (c =? 35)%N then char :: r else c :: replace_hash char r
  end.

Definition error_message (e : Error) : Text :=
  match e with
  | HttpError _ m _ => m
  | PlainError m => m
  end.

(** [error.message = message] *)
Definition set_message (message : Text) (e : Error) : Error :=
  match e with
  | HttpError s _ p => HttpError s message p
  | PlainError _ => PlainError message
  end.

(** What the evaluation of [JSON.parse(body, reviver)] throws: an error
    object (the engine's [SyntaxError], or an error the reviver throws);
    or a value of the reviver that is no such object, on which the [catch]
    block of [parse] throws a [TypeError] of the engine itself, that
    [TypeError] (for a value without a [stack], [replace] is called on
    [undefined]). *)
Inductive thrown :=
| an_error (e : Error)
| not_an_error (type_error : Error).

(** *** The options of [json] *)

(** [opts.verify]: absent or any other falsy value, a function, or any
    other value. *)
Inductive verify_option :=
| verify_falsy
| verify_function (f : Body -> option Error)
| verify_other.

Record IOptionsJson := mkIOptionsJson {
  o_inflate : option bool;
  o_limit   : Bytes.value;
  o_strict  : option bool;
  o_verify  : verify_option
}.

(** [opts = options || {}] when no options are given. *)
Definition no_options : IOptionsJson :=
  mkIOptionsJson None Bytes.Undefined None verify_falsy.

(** Whether [v || w] is [v]. *)
Definition truthy (v : Bytes.value) : bool :=
  match v with
  | Bytes.Number x =>
      match x with S754_zero _ | S754_nan => false | _ => true end
  | Bytes.Str s => negb (String.eqb s EmptyString)
  | Bytes.Boolean b => b
  | Bytes.Null | Bytes.Undefined => false
  end.

(** The variables the middleware closes over. *)
Record Closure := mkClosure {
  c_limit   : Bytes.value;
  c_inflate : bool;
  c_strict  : bool;
  c_verify  : option (Body -> option Error)
}.

(** [typeof opts.limit !== "number" ? bytes.parse(opts.limit || "100kb") : opts.limit] *)
Definition json_limit (opts_limit : Bytes.value) : Bytes.value :=
  match opts_limit with
  | Bytes.Number x => Bytes.Number x
  | _ => Bytes.parse (if truthy opts_limit then opts_limit else Bytes.Str "100kb")
  end.

(** [json(options)] up to the creation of the middleware: the variables
    it closes over, or the [TypeError] it throws. *)
Definition json (options : option IOptionsJson) : Closure + Error :=
  let opts := match options with Some o => o | None => no_options end in
  let limit := json_limit (o_limit opts) in
  let inflate := match o_inflate opts with Some false => false | _ => true end in
  let strict := match o_strict opts with Some false => false | _ => true end in
  match o_verify opts with
  | verify_other => inr (PlainError "option verify must be function")
  | verify_function f => inl (mkClosure limit inflate strict (Some f))
  | verify_falsy => inl (mkClosure limit inflate strict None)
  end.

(** *** The request *)

(** The request as the middleware sees it: the request of [read] and the
    flag [_body].  The parsed value the middleware stores in [req.body] is
    never looked at and is not in the model. *)
Record ServerRequest := mkServerRequest {
  incoming : Request;
  _body    : bool
}.

Section Middleware.

(** The collaborators of [read]. *)
Variable dstate : Type.
Variable iconv_getDecoder : string -> dstate + string.
Variable iconv_encodingExists : string -> bool.
Variable iconv_decode : Buffer -> string -> Text + Error.
Variable createError : Z -> Error -> Props -> Error.
Variable toUpperCase : string -> string.

(** [JSON.parse(text)]: [None] when it returns, the message of the
    [SyntaxError] when it throws.  [JSON.parse(text, reviver)] with the
    reviver of the options: [None] when it returns, what is thrown
    otherwise. *)
Variable JSON_parse : Text -> option Text.
Variable JSON_parse_reviver : Text -> option thrown.

(** The [TypeError] of the engine when [null] is indexed. *)
Variable null_index_error : Error.

(** An error object once every property it holds itself, but [stack] and
    [message], has been deleted: what it inherits stays.  Which of its
    properties an error holds itself is not in the model. *)
Variable delete_own : Error -> Error.

(** [typeis.hasBody(req)], [shouldParse(req)] (the type checker made of
    the [type] option) and the [charset] parameter [contentType.parse(req)]
    finds: [None] when it throws, [Some None] when there is no such
    parameter. *)
Variable typeis_hasBody : ServerRequest -> bool.
Variable shouldParse : ServerRequest -> bool.
Variable contentType_parse : ServerRequest -> option (option string).

(** What [parse] does with a body that is no string. *)
Variable parse_buffer : Buffer -> option Error.

(** The variables of the closure. *)
Variable strict : bool.
Variable inflate : bool.
Variable verify : option (Body -> option Error).
Variable limit : Bytes.value.

(** *** [normalizeJsonSyntaxError]

    Every property the error holds itself but [stack] and [message] is
    deleted, and the message is replaced by the one given.  An error with a
    message and nothing else ([PlainError]) has nothing to lose.  (The
    stack is not in the model.) *)
Definition normalizeJsonSyntaxError (error : Error) (obj_message : Text) : Error :=
  match error with
  | PlainError _ => PlainError obj_message
  | HttpError _ _ _ => set_message obj_message (delete_own error)
  end.

(** *** [createStrictSyntaxError]

    [JSON.parse(partial)] throws a [SyntaxError] of the engine, an error
    with a message and nothing else; were it to return, the function would
    throw such an error itself. *)
Definition createStrictSyntaxError (str : Text) (char : N) : Error :=
  let index := indexOf str char in
  let partial := (substring0 str index ++ [35%N])%list in
  match JSON_parse partial with
  | Some message =>
      normalizeJsonSyntaxError (PlainError message) (replace_hash char message)
  | None =>
      normalizeJsonSyntaxError (PlainError "strict violation")
                               (replace_hash char "strict violation"%string)
  end.

(** *** [parse]

    [None] when it returns a value, the error when it throws. *)
Definition parse (body : Text) : option Error :=
  match body with
  | [] => None
  | _ =>
      let rest :=
        match JSON_parse_reviver body with
        | Some (an_error e) => Some (normalizeJsonSyntaxError e (error_message e))
        | Some (not_an_error type_error) => Some type_error
        | None => None
        end in
      if strict
      then
        match firstchar body with
        | None => Some null_index_error
        | Some first =>
            if negb (first =? 123)%N && negb (first =? 91)%N
            then Some (createStrictSyntaxError body first)
            else rest
        end
      else rest
  end.

(** [parse] as [read] calls it. *)
Definition parse_any (body : Body) : option Error :=
  match body with
  | BodyString s => parse s
  | BodyBuffer b => parse_buffer b
  end.

(** *** [getCharset] *)

(** [None] is [undefined]. *)
Definition getCharset (req : ServerRequest) : option string :=
  match contentType_parse req with
  | Some (Some charset) => Some (toLowerCase charset)
  | Some None => Some EmptyString
  | None => None
  end.

(** [getCharset(req) || "utf-8"] *)
Definition charset_of (req : ServerRequest) : string :=
  match getCharset req with
  | None | Some EmptyString => "utf-8"
  | Some c => c
  end.

(** *** [jsonParser] *)

Definition read_options (req : ServerRequest) : Options :=
  mkOptions (Some (charset_of req)) (Some inflate) limit.

(** The request and the world when [jsonParser] returns.  [read] flags
    the request as parsed before anything else. *)
Definition jsonParser (req : ServerRequest) : ServerRequest * state dstate :=
  let st := world dstate (req_stream (incoming req)) (req_finished (incoming req)) in
  if _body req then (req, log dstate (E_next None) st)
  else if negb (typeis_hasBody req) then (req, log dstate (E_next None) st)
  else if negb (shouldParse req) then (req, log dstate (E_next None) st)
  else
    let charset := charset_of req in
    if negb (String.eqb (String.substring 0 4 charset) "utf-")
    then
      (req,
       log dstate
           (E_next (Some (HttpError 415
                            ("unsupported charset " ++ quoted (toUpperCase charset))
                            (mkProps (Some "charset.unsupported"%string) None None None None
                                     None None (Some charset) None))))
           st)
    else
      (mkServerRequest (incoming req) true,
       read dstate iconv_getDecoder iconv_encodingExists iconv_decode createError
            toUpperCase verify parse_any (incoming req) (read_options req)).

(** The middleware and what follows it: the signals reach the accumulator
    [read] started, if it started one. *)
Variable decoder_write : dstate -> Buffer -> dstate * Text.
Variable decoder_end : dstate -> option Text.

Definition handle (req : ServerRequest) (sigs : list signal) : state dstate :=
  fold_left (react dstate decoder_write decoder_end iconv_decode createError toUpperCase
                   verify parse_any (incoming req) (read_options req))
            sigs (snd (jsonParser req)).

End Middleware.

End Json.

(** ** A concrete set of collaborators

    One registry entry, the single-byte charset [latin1] (every byte is one
    character, nothing is pending at the end), and [createError] as
    [http-errors] has it: an error keeps the status it already carries and
    takes the given properties. *)
Module Latin1.

Definition supported (encoding : string) : bool :=
  String.eqb (toLowerCase encoding) "latin1".

Definition not_recognized (encoding : string) : string :=
  ("Encoding not recognized: '" ++ encoding ++ "'")%string.

Definition getDecoder (encoding : string) : unit + string :=
  if supported encoding then inl tt else inr (not_recognized encoding).

(** Every byte is the code unit of its value. *)
Definition text_of (b : Buffer) : Text := List.map Byte.to_N b.

Definition write (d : unit) (chunk : Buffer) : unit * Text :=
  (d, text_of chunk).

Definition finish (d : unit) : option Text := None.

Definition decode (b : Buffer) (encoding : string) : Text + Error :=
  if supported encoding
  then inl (text_of b)
  else inr (PlainError (not_recognized encoding)).

Definition or_else {A} (a b : option A) : option A :=
  match a with Some _ => a | None => b end.

Definition merge (new old : Props) : Props :=
  mkProps (or_else (p_type new) (p_type old)) (or_else (p_code new) (p_code old))
          (or_else (p_expected new) (p_expected old)) (or_else (p_length new) (p_length old))
          (or_else (p_limit new) (p_limit old)) (or_else (p_received new) (p_received old))
          (or_else (p_encoding new) (p_encoding old)) (or_else (p_charset new) (p_charset old))
          (or_else (p_body new) (p_body old)).

Definition createError (status : Z) (err : Error) (props : Props) : Error :=
  match err with
  | HttpError s m p => HttpError s m (merge props p)
  | PlainError m => HttpError status m props
  end.

Definition toUpperCase (s : string) : string :=
  let fix go s :=
    match s with
    | EmptyString => EmptyString
    | String c r => String (Bytes.upper c) (go r)
    end in
  go s.

(** A paused request stream, nothing piped, no encoding set. *)
Definition quiet : Stream := mkStream true false false.

(** A chunk with the bytes of a string. *)
Definition chunk (s : string) : Buffer := list_byte_of_string s.

(** A limit of so many bytes, as a number. *)
Definition bytes (n : Z) : Bytes.value := Bytes.Number (Bytes.of_int false n).

End Latin1.

(** * Facts about the size unit parser *)

Section BytesFacts.

Import Bytes.
Local Open Scope string_scope.

Local Arguments is_digit : simpl never.
Local Arguments digit_value : simpl never.
Local Arguments is_white : simpl never.
Local Arguments upper : simpl never.
Local Arguments lower : simpl never.

(** *** Scanning *)

Lemma span_digits_app (digits rest : string) :
  all_digits digits = true -> starts_with_digit rest = false ->
  span_digits (digits ++ rest) = (digits, rest).
Proof.
  intros Hd Hr. induction digits as [|c d IH]; cbn in *.
  - destruct rest as [|c r]; cbn in *; [reflexivity|]. rewrite Hr. reflexivity.
  - apply andb_true_iff in Hd as [Hc Hd]. rewrite Hc, (IH Hd). reflexivity.
Qed.

Lemma span_digits_all (digits : string) :
  all_digits digits = true -> span_digits digits = (digits, EmptyString).
Proof.
  intros H. rewrite <- (span_digits_app digits EmptyString H eq_refl).
  f_equal. induction digits as [|c d IH]; cbn; [reflexivity|]. rewrite <- IH at 1.
  - reflexivity.
  - cbn in H. apply andb_true_iff in H. tauto.
Qed.

Lemma skip_spaces_app (n : nat) (rest : string) :
  match rest with String c _ => Ascii.eqb c " " | EmptyString => false end = false ->
  skip_spaces (spaces n ++ rest) = rest.
Proof.
  intros H. induction n as [|n IH]; cbn.
  - destruct rest as [|c r]; cbn in *; [reflexivity|]. rewrite H. reflexivity.
  - exact IH.
Qed.

(** A digit is no sign, no point, no space, no white space and no
    letter. *)
Lemma digit_other (c : ascii) :
  is_digit c = true ->
  Ascii.eqb c "-" = false /\ Ascii.eqb c "+" = false /\ Ascii.eqb c "." = false
  /\ Ascii.eqb c " " = false /\ is_white c = false /\ Ascii.eqb c "I" = false.
Proof.
  destruct c as [[] [] [] [] [] [] [] []]; intros H; try discriminate H;
    repeat split; reflexivity.
Qed.

(** A unit is two letters, and a letter starts neither digits, nor a
    fraction, nor spaces. *)
Lemma unit_letters (unit : string) :
  is_unit unit = true ->
  exists a b, unit = String a (String b EmptyString)
              /\ is_digit a = false /\ Ascii.eqb a " " = false /\ Ascii.eqb a "." = false.
Proof.
  destruct unit as [|a [|b [|? ?]]]; try discriminate. intros H.
  exists a, b. split; [reflexivity|].
  destruct a as [[] [] [] [] [] [] [] []]; try discriminate H; repeat split; reflexivity.
Qed.

Lemma tail_no_digit (frac_digits : string) (n : nat) (unit : string) :
  is_unit unit = true \/ unit = "b" ->
  starts_with_digit (spaces n ++ unit) = false
  /\ starts_with_digit (fraction frac_digits ++ spaces n ++ unit) = false
  /\ match spaces n ++ unit with
     | String c _ => Ascii.eqb c "."
     | EmptyString => false
     end = false
  /\ skip_spaces (spaces n ++ unit) = unit.
Proof.
  intros Hu.
  assert (H : exists a r, unit = String a r /\ is_digit a = false
                          /\ Ascii.eqb a " " = false /\ Ascii.eqb a "." = false).
  { destruct Hu as [Hu| ->].
    - destruct (unit_letters unit Hu) as (a & b & -> & H). exists a, (String b EmptyString). tauto.
    - exists "b"%char, EmptyString. repeat split; reflexivity. }
  destruct H as (a & r & -> & H1 & H2 & H3).
  assert (G : starts_with_digit (spaces n ++ String a r) = false
              /\ match spaces n ++ String a r with
                 | String c _ => Ascii.eqb c "."
                 | EmptyString => false
                 end = false).
  { destruct n; cbn; [split; assumption|split; reflexivity]. }
  destruct G as [G1 G2]. repeat split; try assumption.
  - destruct frac_digits; cbn; [exact G1|reflexivity].
  - apply skip_spaces_app. exact H2.
Qed.

(** What the pattern captures on a string of its shape, and that a
    string of that shape with the unit "b" does not match. *)
Lemma exec_shape (sign int_digits frac_digits : string) (n : nat) (unit : string) :
  is_sign sign = true -> int_digits <> EmptyString ->
  all_digits int_digits = true -> all_digits frac_digits = true ->
  is_unit unit = true \/ unit = "b" ->
  parseRegExp_exec (sign ++ int_digits ++ fraction frac_digits ++ spaces n ++ unit)
  = if is_unit unit
    then Some (mkMatch (sign ++ int_digits ++ fraction frac_digits)
                       (match sign with EmptyString => None | _ => Some sign end)
                       (int_digits ++ fraction frac_digits) unit)
    else None.
Proof.
  intros Hs Hne Hi Hf Hu.
  destruct (tail_no_digit frac_digits n unit Hu) as (T1 & T2 & T3 & T4).
  assert (Hbody : forall sg,
             (let (int_digits0, r1) :=
                span_digits (int_digits ++ fraction frac_digits ++ spaces n ++ unit) in
              match int_digits0 with
              | EmptyString => None
              | _ =>
                  let (fraction0, r2) :=
                    match r1 with
                    | String c t =>
                        if Ascii.eqb c "."
                        then match span_digits t with
                             | (EmptyString, _) => (EmptyString, r1)
                             | (d, t') => (String c d, t')
                             end
                        else (EmptyString, r1)
                    | EmptyString => (EmptyString, r1)
                    end in
                  let unit0 := skip_spaces r2 in
                  if is_unit unit0
                  then
                    let num := int_digits0 ++ fraction0 in
                    Some (mkMatch (match sg with Some s0 => s0 ++ num | None => num end)
                                  sg num unit0)
                  else None
              end)
             = if is_unit unit
               then Some (mkMatch (match sg with
                                   | Some s0 => s0 ++ int_digits ++ fraction frac_digits
                                   | None => int_digits ++ fraction frac_digits
                                   end)
                                  sg (int_digits ++ fraction frac_digits) unit)
               else None).
  { intros sg. rewrite (span_digits_app _ _ Hi T2).
    destruct int_digits as [|c0 d0]; [congruence|].
    destruct frac_digits as [|f0 fs].
    - cbn [fraction append].
      destruct (spaces n ++ unit) as [|c t] eqn:E.
      + cbn in T4. rewrite <- T4. reflexivity.
      + rewrite T3, T4. reflexivity.
    - cbn [fraction append]. rewrite Ascii.eqb_refl.
      change (String f0 (fs ++ spaces n ++ unit)) with (String f0 fs ++ spaces n ++ unit).
      rewrite (span_digits_app _ _ Hf T1), T4. reflexivity. }
  unfold is_sign in Hs.
  destruct (String.eqb_spec sign EmptyString) as [->|N1].
  { unfold parseRegExp_exec. cbn [append].
    destruct int_digits as [|c0 d0] eqn:E; [congruence|]. cbn [append].
    cbn in Hi. apply andb_true_iff in Hi as [Hc0 Hi'].
    destruct (digit_other c0 Hc0) as (D1 & D2 & _). rewrite D1, D2. cbn [orb].
    rewrite <- E in *. change (String c0 (d0 ++ ?x)) with ((String c0 d0) ++ x).
    rewrite <- E. apply (Hbody None). }
  destruct (String.eqb_spec sign "-") as [->|N2].
  { unfold parseRegExp_exec. cbn [append]. apply (Hbody (Some "-")). }
  destruct (String.eqb_spec sign "+") as [->|N3]; [|discriminate].
  unfold parseRegExp_exec. cbn [append]. apply (Hbody (Some "+")).
Qed.

(** [parseFloat] on the first capture group: the number nearest to the
    decimal the digits write. *)
Lemma parseFloat_group (sign int_digits frac_digits : string) :
  is_sign sign = true -> int_digits <> EmptyString ->
  all_digits int_digits = true -> all_digits frac_digits = true ->
  parseFloat (sign ++ int_digits ++ fraction frac_digits)
  = of_decimal (String.eqb sign "-") (decimal 0 (int_digits ++ frac_digits))
               (- Z.of_nat (String.length frac_digits)).
Proof.
  intros Hs Hne Hi Hf.
  destruct int_digits as [|c0 d0] eqn:E; [congruence|].
  pose proof Hi as Hi0. cbn in Hi0. apply andb_true_iff in Hi0 as [Hc0 _].
  destruct (digit_other c0 Hc0) as (D1 & D2 & D3 & D4 & D5 & D6).
  assert (Hbody : forall neg,
             (if String.prefix "Infinity" (String c0 d0 ++ fraction frac_digits)
              then S754_infinity neg
              else
                let (int_digits0, r1) := span_digits (String c0 d0 ++ fraction frac_digits) in
                let (frac_digits0, r2) :=
                  match r1 with
                  | String c t => if Ascii.eqb c "." then span_digits t else (EmptyString, r1)
                  | EmptyString => (EmptyString, r1)
                  end in
                match int_digits0, frac_digits0 with
                | EmptyString, EmptyString => NaN
                | _, _ =>
                    let exponent :=
                      match take_exponent r2 with
                      | Some (e, _) => e
                      | None => 0%Z
                      end in
                    of_decimal neg (decimal 0 (int_digits0 ++ frac_digits0))
                               (exponent - Z.of_nat (String.length frac_digits0))
                end)
             = of_decimal neg (decimal 0 (String c0 d0 ++ frac_digits))
                          (- Z.of_nat (String.length frac_digits))).
  { intros neg.
    replace (String.prefix "Infinity" (String c0 d0 ++ fraction frac_digits)) with false
      by (cbn [append String.prefix]; destruct (ascii_dec "I" c0) as [<-|];
          [vm_compute in Hc0; discriminate Hc0|reflexivity]).
    rewrite span_digits_app; [|exact Hi|destruct frac_digits; reflexivity].
    destruct frac_digits as [|f0 fs].
    - reflexivity.
    - cbn [fraction]. rewrite Ascii.eqb_refl, (span_digits_all _ Hf). reflexivity. }
  unfold is_sign in Hs.
  destruct (String.eqb_spec sign EmptyString) as [->|N1].
  { unfold parseFloat. cbn [append trim_start]. rewrite D5. cbn [take_sign].
    rewrite D1, D2. apply (Hbody false). }
  destruct (String.eqb_spec sign "-") as [->|N2].
  { unfold parseFloat.
    change (take_sign (trim_start ("-" ++ String c0 d0 ++ fraction frac_digits)))
      with (true, String c0 d0 ++ fraction frac_digits).
    apply (Hbody true). }
  destruct (String.eqb_spec sign "+") as [->|N3]; [|discriminate].
  unfold parseFloat.
  change (take_sign (trim_start ("+" ++ String c0 d0 ++ fraction frac_digits)))
    with (false, String c0 d0 ++ fraction frac_digits).
  apply (Hbody false).
Qed.

(** [parseInt] on a string that starts with digits. *)
Lemma parseInt_digits (digits rest : string) :
  digits <> EmptyString -> all_digits digits = true -> starts_with_digit rest = false ->
  parseInt (digits ++ rest) = of_int false (decimal 0 digits).
Proof.
  intros Hne Hd Hr.
  destruct digits as [|c0 d0] eqn:E; [congruence|].
  pose proof Hd as Hd0. cbn in Hd0. apply andb_true_iff in Hd0 as [Hc0 _].
  destruct (digit_other c0 Hc0) as (D1 & D2 & D3 & D4 & D5 & D6).
  unfold parseInt. cbn [append trim_start]. rewrite D5. cbn [take_sign]. rewrite D1, D2.
  change (String c0 (d0 ++ rest)) with (String c0 d0 ++ rest).
  rewrite (span_digits_app _ _ Hd Hr). reflexivity.
Qed.

Lemma unit_lower (unit : string) :
  is_unit unit = true ->
  toLowerCase unit = "kb" \/ toLowerCase unit = "mb"
  \/ toLowerCase unit = "gb" \/ toLowerCase unit = "tb".
Proof.
  destruct unit as [|a [|b [|? ?]]]; try discriminate. intros H.
  unfold is_unit in H. cbv zeta in H. apply andb_true_iff in H as [Ha Hb].
  assert (Eb : lower b = "b"%char).
  { destruct b as [[] [] [] [] [] [] [] []]; try reflexivity; discriminate Hb. }
  cbn [toLowerCase]. rewrite Eb. clear Hb Eb.
  destruct a as [[] [] [] [] [] [] [] []]; try discriminate Ha;
    try (left; reflexivity); try (right; left; reflexivity);
    try (right; right; left; reflexivity); right; right; right; reflexivity.
Qed.

(** [Math.floor] is the floor: on a number [+-m * 2 ^ e] with a negative
    exponent it is the integer quotient of [+-m] by [2 ^ -e], rounded towards
    minus infinity. *)
Lemma Math_floor_quotient (s : bool) (m : positive) (e : Z) :
  (e < 0)%Z ->
  Math_floor (S754_finite s m e)
  = of_int s ((if s then Zneg m else Zpos m) / 2 ^ (- e))%Z.
Proof.
  intros He. unfold Math_floor.
  destruct (Z.leb_spec 0 e) as [H|_]; [lia|].
  assert (Hk : (0 <= - e)%Z) by lia.
  assert (Hd : (0 < 2 ^ (- e))%Z) by (apply Z.pow_pos_nonneg; lia).
  rewrite Z.shiftr_div_pow2 by exact Hk.
  destruct s; [|reflexivity].
  f_equal. rewrite Z.shiftl_mul_pow2 by exact Hk.
  change (Z.neg m) with (- Z.pos m)%Z.
  pose proof (Z.div_mod (Z.pos m) (2 ^ (- e)) ltac:(lia)) as Hdm.
  pose proof (Z.mod_pos_bound (Z.pos m) (2 ^ (- e)) Hd) as Hb.
  destruct (Z.eqb_spec (Z.pos m) (Z.pos m / 2 ^ (- e) * 2 ^ (- e))) as [E|N].
  - rewrite Z.div_opp_l_z; [reflexivity|lia|]. lia.
  - rewrite Z.div_opp_l_nz; [lia|lia|]. lia.
Qed.

(** C8 (as amended).  [parse] returns a number that is not NaN unchanged,
    and null for NaN and for what is neither a number nor a string.  On
    a string made of an optional sign, a decimal magnitude, spaces and a
    unit among kb, mb, gb, tb in either case, it returns the floor of the
    multiplier (2^10, 2^20, 2^30, 2^40) times the number nearest to the
    magnitude.  Any other string, one with the suffix b among them, goes
    through [parseInt]: when it starts with an integer the result is the
    floor of 1 times that integer.  So "1mb" is 2^20, "2kb" is 2048 and
    "10abc" is 10.  The floor rounds towards minus infinity: "1.3kb" is
    1331 and "-1.3kb" is -1332. *)
Theorem parse_contract :
  (forall x, isNaN x = false -> parse (Number x) = Number x)
  /\ (parse (Number NaN) = Null /\ parse Null = Null /\ parse Undefined = Null
      /\ forall b, parse (Boolean b) = Null)
  /\ (forall sign int_digits frac_digits n unit,
        is_sign sign = true -> int_digits <> EmptyString ->
        all_digits int_digits = true -> all_digits frac_digits = true ->
        is_unit unit = true ->
        parse (Str (sign ++ int_digits ++ fraction frac_digits ++ spaces n ++ unit))
        = Number (Math_floor
                    (mul (map (toLowerCase unit))
                         (of_decimal (String.eqb sign "-")
                                     (decimal 0 (int_digits ++ frac_digits))
                                     (- Z.of_nat (String.length frac_digits))))))
  /\ (forall unit, is_unit unit = true ->
        toLowerCase unit = "kb" \/ toLowerCase unit = "mb"
        \/ toLowerCase unit = "gb" \/ toLowerCase unit = "tb")
  /\ (map "b" = of_int false 1 /\ map "kb" = of_int false (2 ^ 10)
      /\ map "mb" = of_int false (2 ^ 20) /\ map "gb" = of_int false (2 ^ 30)
      /\ map "tb" = of_int false (2 ^ 40))
  /\ (forall s, parseRegExp_exec s = None -> isNaN (parseInt s) = false ->
        parse (Str s) = Number (Math_floor (mul (map "b") (parseInt s))))
  /\ (forall sign int_digits frac_digits n,
        is_sign sign = true -> int_digits <> EmptyString ->
        all_digits int_digits = true -> all_digits frac_digits = true ->
        parseRegExp_exec (sign ++ int_digits ++ fraction frac_digits ++ spaces n ++ "b")
        = None)
  /\ (forall digits rest,
        digits <> EmptyString -> all_digits digits = true -> starts_with_digit rest = false ->
        parseInt (digits ++ rest) = of_int false (decimal 0 digits))
  /\ (parse (Str "1mb") = Number (of_int false (2 ^ 20))
      /\ parse (Str "2kb") = Number (of_int false 2048)
      /\ parse (Str "10abc") = Number (of_int false 10))
  /\ (forall s m e,
        (e < 0)%Z ->
        Math_floor (S754_finite s m e)
        = of_int s ((if s then Zneg m else Zpos m) / 2 ^ (- e))%Z)
  /\ (forall s m e, (0 <= e)%Z -> Math_floor (S754_finite s m e) = S754_finite s m e)
  /\ (parse (Str "1.5kb") = Number (of_int false 1536)
      /\ parse (Str "1.3kb") = Number (of_int false 1331)
      /\ parse (Str "-1.3kb") = Number (of_int true (-1332))
      /\ parse (Str "0.5mb") = Number (of_int false 524288)).
Proof.
  split; [intros x H; cbn; rewrite H; reflexivity|].
  split; [repeat split|].
  split.
  { intros sign int_digits frac_digits n unit Hs Hne Hi Hf Hu.
    unfold parse.
    rewrite (exec_shape sign int_digits frac_digits n unit Hs Hne Hi Hf (or_introl Hu)), Hu.
    cbn [group1 group4].
    rewrite (parseFloat_group sign int_digits frac_digits Hs Hne Hi Hf). reflexivity. }
  split; [exact unit_lower|].
  split; [repeat split; vm_compute; reflexivity|].
  split; [intros s H _; unfold parse; rewrite H; reflexivity|].
  split.
  { intros sign int_digits frac_digits n Hs Hne Hi Hf.
    rewrite (exec_shape sign int_digits frac_digits n "b" Hs Hne Hi Hf (or_intror eq_refl)).
    reflexivity. }
  split; [exact parseInt_digits|].
  split; [repeat split; vm_compute; reflexivity|].
  split; [exact Math_floor_quotient|].
  split.
  { intros s m e He. unfold Math_floor.
    destruct (Z.leb_spec 0 e) as [_|H]; [reflexivity|lia]. }
  repeat split; vm_compute; reflexivity.
Qed.

(** *** What the pattern matches *)

Lemma span_digits_inv (s digits rest : string) :
  span_digits s = (digits, rest) ->
  s = digits ++ rest /\ all_digits digits = true /\ starts_with_digit rest = false.
Proof.
  revert digits rest; induction s as [|c s IH]; intros digits rest H; cbn in H.
  - injection H as <- <-. repeat split.
  - destruct (is_digit c) eqn:Ec.
    + destruct (span_digits s) as [d t]. injection H as <- <-.
      destruct (IH d t eq_refl) as (E & Hd & Hr).
      cbn. rewrite Ec, Hd, <- E. repeat split. exact Hr.
    + injection H as <- <-. cbn. rewrite Ec. repeat split.
Qed.

Lemma skip_spaces_inv (s : string) :
  exists n, s = spaces n ++ skip_spaces s.
Proof.
  induction s as [|c s [n IH]]; [exists 0%nat; reflexivity|].
  cbn. destruct (Ascii.eqb_spec c " ") as [->|N].
  - exists (S n). cbn. rewrite <- IH. reflexivity.
  - exists 0%nat. reflexivity.
Qed.

Lemma exec_inv (val : string) (m : Match) :
  parseRegExp_exec val = Some m ->
  exists sign int_digits frac_digits n unit,
    is_sign sign = true /\ int_digits <> EmptyString
    /\ all_digits int_digits = true /\ all_digits frac_digits = true
    /\ is_unit unit = true
    /\ val = sign ++ int_digits ++ fraction frac_digits ++ spaces n ++ unit
    /\ m = mkMatch (sign ++ int_digits ++ fraction frac_digits)
                   (match sign with EmptyString => None | _ => Some sign end)
                   (int_digits ++ fraction frac_digits) unit.
Proof.
  unfold parseRegExp_exec.
  set (split_sign := match val with
                     | String c t =>
                         if Ascii.eqb c "-" || Ascii.eqb c "+"
                         then (Some (String c EmptyString), t)
                         else (None, val)
                     | EmptyString => (None, val)
                     end).
  assert (Hsign : exists sign, is_sign sign = true
                    /\ val = sign ++ snd split_sign
                    /\ fst split_sign = match sign with EmptyString => None | _ => Some sign end
                    /\ forall num, match fst split_sign with
                                   | Some sg => sg ++ num
                                   | None => num
                                   end = sign ++ num).
  { unfold split_sign. destruct val as [|c t]; [exists EmptyString; repeat split|].
    destruct (Ascii.eqb_spec c "-") as [->|N1]; [exists "-"; repeat split|].
    destruct (Ascii.eqb_spec c "+") as [->|N2]; [exists "+"; repeat split|].
    exists EmptyString; repeat split. }
  destruct Hsign as (sign & Hs & Hval & Hfst & Hnum).
  destruct split_sign as [sg r]. cbn [fst snd] in *.
  destruct (span_digits r) as [int_digits r1] eqn:E1.
  destruct (span_digits_inv r int_digits r1 E1) as (Er & Hi & Hr1).
  destruct int_digits as [|c0 d0] eqn:Ei; [discriminate|]. rewrite <- Ei in *.
  assert (Hfrac : exists frac_digits r2,
             all_digits frac_digits = true
             /\ r1 = fraction frac_digits ++ r2
             /\ match r1 with
                | String c t =>
                    if Ascii.eqb c "."
                    then match span_digits t with
                         | (EmptyString, _) => (EmptyString, r1)
                         | (d, t') => (String c d, t')
                         end
                    else (EmptyString, r1)
                | EmptyString => (EmptyString, r1)
                end = (fraction frac_digits, r2)).
  { destruct r1 as [|c t]; [exists EmptyString, EmptyString; repeat split|].
    destruct (Ascii.eqb_spec c ".") as [->|N]; [|exists EmptyString, (String c t); repeat split].
    destruct (span_digits t) as [d t'] eqn:E2.
    destruct (span_digits_inv t d t' E2) as (Et & Hd & _).
    destruct d as [|f0 fs] eqn:Ed.
    - exists EmptyString, (String "." t). repeat split.
    - exists (String f0 fs), t'. rewrite Et. repeat split. exact Hd. }
  destruct Hfrac as (frac_digits & r2 & Hf & Er1 & ->).
  destruct (skip_spaces_inv r2) as [n En].
  destruct (is_unit (skip_spaces r2)) eqn:Hu; [|discriminate].
  intros H. injection H as <-.
  exists sign, int_digits, frac_digits, n, (skip_spaces r2).
  repeat split; try assumption.
  - rewrite Ei. discriminate.
  - rewrite Hval, Er, Er1, En at 1. reflexivity.
  - rewrite Hnum, Hfst. reflexivity.
Qed.

(** X8.  The pattern matches exactly the strings made of an optional sign,
    digits, an optional fraction (a point followed by digits), any number
    of spaces and a unit among kb, mb, gb, tb in either case, with
    nothing before or after; its first group is the signed number and its
    fourth the unit.  Every other string, and so every string with the
    unit b or with no unit, is left to [parseInt]. *)
Theorem pattern_language (val : string) :
  (forall m, parseRegExp_exec val = Some m ->
     exists sign int_digits frac_digits n unit,
       is_sign sign = true /\ int_digits <> EmptyString
       /\ all_digits int_digits = true /\ all_digits frac_digits = true
       /\ is_unit unit = true
       /\ val = sign ++ int_digits ++ fraction frac_digits ++ spaces n ++ unit
       /\ group1 m = sign ++ int_digits ++ fraction frac_digits
       /\ group3 m = int_digits ++ fraction frac_digits
       /\ group4 m = unit)
  /\ (parseRegExp_exec val = None ->
      forall sign int_digits frac_digits n unit,
        is_sign sign = true -> int_digits <> EmptyString ->
        all_digits int_digits = true -> all_digits frac_digits = true ->
        is_unit unit = true ->
        val <> sign ++ int_digits ++ fraction frac_digits ++ spaces n ++ unit)
  /\ (parseRegExp_exec val = None ->
      parse (Str val) = Number (Math_floor (mul (map "b") (parseInt val)))).
Proof.
  split; [|split].
  - intros m H.
    destruct (exec_inv val m H) as (sign & i & f & n & u & H1 & H2 & H3 & H4 & H5 & H6 & ->).
    exists sign, i, f, n, u. repeat split; assumption.
  - intros H sign i f n u H1 H2 H3 H4 H5 ->.
    rewrite (exec_shape sign i f n u H1 H2 H3 H4 (or_introl H5)), H5 in H. discriminate H.
  - intros H. unfold parse. rewrite H. reflexivity.
Qed.

(** *** Strings that are no size *)

Lemma no_number_no_match (s : string) :
  starts_with_digit (snd (take_sign (trim_start s))) = false ->
  parseRegExp_exec s = None /\ parseInt s = NaN.
Proof.
  intros H.
  assert (Hspan : forall r, starts_with_digit r = false ->
                    span_digits r = (EmptyString, r)).
  { intros [|c r] Hr; [reflexivity|]. cbn in *. rewrite Hr. reflexivity. }
  split.
  - unfold parseRegExp_exec. destruct s as [|c t]; [reflexivity|].
    cbn [trim_start] in H.
    destruct (Ascii.eqb_spec c "-") as [->|N1].
    { cbn in H. cbn [orb]. rewrite (Hspan t H). reflexivity. }
    destruct (Ascii.eqb_spec c "+") as [->|N2].
    { cbn in H. cbn [orb]. rewrite (Hspan t H). reflexivity. }
    cbn [orb]. destruct (is_digit c) eqn:Ed.
    + exfalso. destruct (digit_other c Ed) as (D1 & D2 & _ & _ & D5 & _).
      rewrite D5 in H. cbn [take_sign] in H. rewrite D1, D2 in H. cbn in H. congruence.
    + rewrite Hspan; [reflexivity|exact Ed].
  - unfold parseInt. destruct (take_sign (trim_start s)) as [neg r]. cbn [snd] in H.
    rewrite (Hspan r H). reflexivity.
Qed.

(** X9.  A string with no number at its start (after the white space and
    the sign [parseInt] skips), the empty string among them, is no size:
    [parse] returns NaN for it, neither null nor an error; and [parse]
    applied to that result, as [getRawBody] applies it to the limit it is
    given, returns null. *)
Theorem parse_without_number (s : string) :
  starts_with_digit (snd (take_sign (trim_start s))) = false ->
  parse (Str s) = Number NaN /\ parse (parse (Str s)) = Null.
Proof.
  intros H. destruct (no_number_no_match s H) as [H1 H2].
  assert (E : parse (Str s) = Number NaN).
  { unfold parse. rewrite H1, H2. vm_compute. reflexivity. }
  rewrite E. split; reflexivity.
Qed.

End BytesFacts.

(** * Facts about the accumulator *)

Section AccumulatorFacts.

Import RawBody.

Variable dstate : Type.
Variable iconv_getDecoder : string -> dstate + string.
Variable decoder_write : dstate -> Buffer -> dstate * Text.
Variable decoder_end : dstate -> option Text.
Variable callback : Args -> list action.
Variable encoding : option string.
Variables length limit : option Num.

Local Notation "'STEP'" := (step dstate decoder_write decoder_end callback length limit).
Local Notation "'RUN'" := (run dstate decoder_write decoder_end callback length limit).
Local Notation "'READ'" := (readStream dstate iconv_getDecoder callback encoding length limit).
Local Notation "'DONE'" := (done dstate callback).
Local Notation "'INVOKE'" := (invokeCallback dstate callback).
Local Notation "'delivery'" := (RawBody.delivery callback).

(** *** The caller's actions leave the accumulator alone *)

Lemma perform_fields (a : action) (st : state dstate) :
  complete (perform dstate a st) = complete st
  /\ sync (perform dstate a st) = sync st
  /\ received (perform dstate a st) = received st
  /\ decoder (perform dstate a st) = decoder st
  /\ buffer (perform dstate a st) = buffer st
  /\ listeners (perform dstate a st) = listeners st
  /\ nextTick (perform dstate a st) = nextTick st
  /\ trace (perform dstate a st) = trace st ++ [effect_of a].
Proof.
  destruct a; cbn; unfold onFinished; cbn; try destruct (finished st); cbn;
    repeat split.
Qed.

Lemma perform_all_fields (l : list action) (st : state dstate) :
  complete (perform_all dstate l st) = complete st
  /\ sync (perform_all dstate l st) = sync st
  /\ received (perform_all dstate l st) = received st
  /\ decoder (perform_all dstate l st) = decoder st
  /\ buffer (perform_all dstate l st) = buffer st
  /\ listeners (perform_all dstate l st) = listeners st
  /\ nextTick (perform_all dstate l st) = nextTick st
  /\ trace (perform_all dstate l st) = trace st ++ List.map effect_of l.
Proof.
  revert st; induction l as [|a l IH]; intros st.
  - cbn; rewrite app_nil_r; repeat split.
  - change (perform_all dstate (a :: l) st)
      with (perform_all dstate l (perform dstate a st)).
    destruct (IH (perform dstate a st)) as (H1 & H2 & H3 & H4 & H5 & H6 & H7 & H8).
    destruct (perform_fields a st) as (G1 & G2 & G3 & G4 & G5 & G6 & G7 & G8).
    rewrite H1, H2, H3, H4, H5, H6, H7, H8, G1, G2, G3, G4, G5, G6, G7, G8.
    cbn [List.map]. rewrite <- app_assoc. repeat split.
Qed.

Lemma fire_fields (l : list Error) (st : state dstate) :
  complete (fire dstate l st) = complete st
  /\ sync (fire dstate l st) = sync st
  /\ received (fire dstate l st) = received st
  /\ decoder (fire dstate l st) = decoder st
  /\ buffer (fire dstate l st) = buffer st
  /\ listeners (fire dstate l st) = listeners st
  /\ nextTick (fire dstate l st) = nextTick st
  /\ stream (fire dstate l st) = stream st
  /\ finished (fire dstate l st) = finished st
  /\ on_finished (fire dstate l st) = on_finished st
  /\ deferred (fire dstate l st) = deferred st
  /\ trace (fire dstate l st) = trace st ++ List.map (fun e => E_next (Some e)) l.
Proof.
  revert st; induction l as [|a l IH]; intros st.
  - cbn; rewrite app_nil_r; repeat split.
  - change (fire dstate (a :: l) st)
      with (fire dstate l (log dstate (E_next (Some a)) st)).
    destruct (IH (log dstate (E_next (Some a)) st))
      as (H1 & H2 & H3 & H4 & H5 & H6 & H7 & H8 & H9 & H10 & H11 & H12).
    rewrite H1, H2, H3, H4, H5, H6, H7, H8, H9, H10, H11, H12.
    cbn. rewrite <- app_assoc. repeat split.
Qed.

(** *** Reading a trace *)

Lemma calls_app (t1 t2 : list effect) : calls (t1 ++ t2) = calls t1 ++ calls t2.
Proof.
  induction t1 as [|e t1 IH]; cbn; [reflexivity|].
  destruct e; cbn; rewrite IH; reflexivity.
Qed.

Lemma nexts_app (t1 t2 : list effect) : nexts (t1 ++ t2) = nexts t1 ++ nexts t2.
Proof.
  induction t1 as [|e t1 IH]; cbn; [reflexivity|].
  destruct e; cbn; rewrite IH; reflexivity.
Qed.

Lemma calls_effects (l : list action) : calls (List.map effect_of l) = [].
Proof. induction l as [|a l IH]; cbn; [reflexivity|]. destruct a; cbn; exact IH. Qed.

Lemma calls_nexts (l : list Error) : calls (List.map (fun e => E_next (Some e)) l) = [].
Proof. induction l as [|a l IH]; cbn; [reflexivity|exact IH]. Qed.

Lemma calls_delivery (args : Args) : calls (delivery args) = [args].
Proof.
  unfold delivery; rewrite !calls_app; cbn.
  destruct args; cbn; rewrite calls_effects; reflexivity.
Qed.

Lemma listeners_of_app (t1 t2 : list effect) :
  listeners_of (t1 ++ t2) = fold_left replay t2 (listeners_of t1).
Proof. unfold listeners_of; apply fold_left_app. Qed.

Lemma replay_effects (l : list action) (ls : list listener) :
  fold_left replay (List.map effect_of l) ls = ls.
Proof.
  revert ls; induction l as [|a l IH]; intros ls; cbn; [reflexivity|].
  destruct a; cbn; apply IH.
Qed.

Lemma replay_nexts (l : list Error) (ls : list listener) :
  fold_left replay (List.map (fun e => E_next (Some e)) l) ls = ls.
Proof. revert ls; induction l as [|a l IH]; intros ls; cbn; [reflexivity|apply IH]. Qed.

Lemma detached_app (t1 t2 : list effect) (l : list listener) :
  detached l (t1 ++ t2) = detached l t1 && detached (fold_left replay t1 l) t2.
Proof.
  revert l; induction t1 as [|e t1 IH]; intros l; cbn; [reflexivity|].
  destruct e; cbn; try apply IH.
  destruct l; [apply IH|reflexivity].
Qed.

Lemma detached_effects (l : list action) (ls : list listener) :
  detached ls (List.map effect_of l) = true.
Proof.
  revert ls; induction l as [|a l IH]; intros ls; cbn; [reflexivity|].
  destruct a; cbn; apply IH.
Qed.

Lemma detached_nexts (l : list Error) (ls : list listener) :
  detached ls (List.map (fun e => E_next (Some e)) l) = true.
Proof. revert ls; induction l as [|a l IH]; intros ls; cbn; [reflexivity|apply IH]. Qed.

Lemma detached_split (tr pre post : list effect) (a : Args) :
  detached [] tr = true -> tr = pre ++ E_callback a :: post -> listeners_of pre = [].
Proof.
  intros H ->. rewrite detached_app in H. apply andb_true_iff in H as [_ H].
  cbn in H. unfold listeners_of. destruct (fold_left replay pre []); [reflexivity|discriminate].
Qed.

(** *** [cleanup], [invokeCallback] and [done] *)

Lemma cleanup_fields (st : state dstate) :
  complete (cleanup dstate st) = complete st
  /\ sync (cleanup dstate st) = sync st
  /\ received (cleanup dstate st) = received st
  /\ decoder (cleanup dstate st) = decoder st
  /\ nextTick (cleanup dstate st) = nextTick st
  /\ listeners (cleanup dstate st) = remove5 (listeners st)
  /\ trace (cleanup dstate st) = trace st ++ removals.
Proof.
  cbn. repeat rewrite <- app_assoc. repeat split.
Qed.

Lemma invoke_fields (args : Args) (st : state dstate) :
  complete (INVOKE args st) = complete st
  /\ sync (INVOKE args st) = sync st
  /\ received (INVOKE args st) = received st
  /\ nextTick (INVOKE args st) = nextTick st
  /\ listeners (INVOKE args st) = remove5 (listeners st)
  /\ trace (INVOKE args st) = trace st ++ delivery args.
Proof.
  unfold invokeCallback.
  match goal with |- context [perform_all dstate ?l ?s] =>
    destruct (perform_all_fields l s) as (H1 & H2 & H3 & _ & _ & H6 & H7 & H8)
  end.
  rewrite H1, H2, H3, H6, H7, H8.
  unfold RawBody.delivery. destruct args; cbn; repeat rewrite <- app_assoc; repeat split.
Qed.

Lemma done_async (args : Args) (st : state dstate) :
  sync st = false -> DONE args st = INVOKE args (set_complete dstate true st).
Proof. intros H. unfold done. cbn. rewrite H. reflexivity. Qed.

Lemma done_sync (args : Args) (st : state dstate) :
  sync st = true ->
  DONE args st = set_nextTick dstate (nextTick st ++ [args]) (set_complete dstate true st).
Proof. intros H. unfold done. cbn. rewrite H. reflexivity. Qed.

Lemma detached_delivery (args : Args) (l : list listener) :
  remove5 l = [] -> detached l (delivery args) = true.
Proof.
  intros H. unfold RawBody.delivery. rewrite detached_app.
  change (fold_left replay removals l) with (remove5 l). rewrite H.
  replace (detached l removals) with true by reflexivity.
  destruct args; cbn; apply detached_effects.
Qed.

Lemma replay_delivery (args : Args) (l : list listener) :
  fold_left replay (delivery args) l = remove5 l.
Proof.
  unfold RawBody.delivery. rewrite fold_left_app.
  change (fold_left replay removals l) with (remove5 l).
  destruct args; cbn; apply replay_effects.
Qed.

(** A delivery from a state with the five listeners, or none, on the
    stream. *)
Lemma wf_invoke (args : Args) (st : state dstate) :
  remove5 (listeners st) = [] ->
  listeners_of (trace st) = listeners st ->
  detached [] (trace st) = true ->
  calls (trace st) = [] -> nextTick st = [] -> complete st = true ->
  wf (INVOKE args st).
Proof.
  intros Hr Hl Hd Hc Hn Hk.
  destruct (invoke_fields args st) as (H1 & H2 & H3 & H4 & H5 & H6).
  split.
  - apply Delivered with args; try congruence.
    rewrite H6, calls_app, Hc, calls_delivery. reflexivity.
  - rewrite H6, H5, listeners_of_app, replay_delivery, Hl. reflexivity.
  - rewrite H6, detached_app, Hd. cbn.
    change (fold_left replay (trace st) []) with (listeners_of (trace st)).
    rewrite Hl. apply detached_delivery. exact Hr.
Qed.

(** *** The invariant *)

Lemma wf_pending (args : Args) (st : state dstate) :
  clean st -> is_failure args ->
  wf (DONE args (set_sync dstate true (set_complete dstate false st)))
  /\ wf (DONE args (set_received dstate 0
                     (set_sync dstate true (set_complete dstate false st)))).
Proof.
  intros [Hl Hn Hc Hr Hp Hd] Hf. unfold listeners_of in Hp.
  split; rewrite done_sync by reflexivity; split; cbn; unfold listeners_of;
    try congruence;
    (eapply Pending; cbn; try eassumption; try reflexivity;
     rewrite Hn; reflexivity).
Qed.

Lemma wf_readStream (st : state dstate) : clean st -> wf (READ st).
Proof.
  intros Hclean. pose proof Hclean as [Hl Hn Hc Hr Hp Hd].
  unfold listeners_of in Hp. unfold readStream.
  destruct (length_over_limit length limit).
  { apply wf_pending; [exact Hclean|exact I]. }
  cbn [stream set_sync set_complete].
  destruct (encoding_set (stream st)).
  { apply wf_pending; [exact Hclean|exact I]. }
  destruct (getDecoder dstate iconv_getDecoder encoding) as [d|err].
  - split; cbn.
    + apply Reading; cbn; try assumption; try reflexivity.
      * rewrite Hl; reflexivity.
      * rewrite !calls_app, Hc; reflexivity.
      * unfold buffer_ok; cbn. destruct d; exact I.
    + unfold listeners_of. rewrite !fold_left_app, Hp, Hl. reflexivity.
    + rewrite !detached_app, Hd. reflexivity.
  - apply wf_pending; [exact Hclean|exact I].
Qed.

Lemma emit_detached (ev : event) (sig : signal) (st : state dstate) :
  listeners st = [] ->
  emit dstate decoder_write decoder_end callback length limit ev sig st = st.
Proof. intros H. unfold emit. rewrite H. reflexivity. Qed.

(** With no listener on the stream, its signals change nothing. *)
Lemma step_detached (sig : signal) (st : state dstate) :
  listeners st = [] -> from_stream sig = true -> STEP st sig = st.
Proof.
  intros H Hs. destruct sig; try discriminate; cbn; apply emit_detached; exact H.
Qed.

(** *** One signal in the reading phase *)

Local Notation "'ONDATA'" := (onData dstate decoder_write callback limit).
Local Notation "'ONEND'" := (onEnd dstate decoder_end callback length).
Local Notation "'ONABORTED'" := (onAborted dstate callback length).

Lemma step_reading (sig : signal) (st : state dstate) :
  listeners st = five ->
  STEP st sig =
  match sig with
  | Data chunk => ONDATA chunk st
  | EndOfStream => ONEND None st
  | StreamError message => ONEND (Some (PlainError message)) st
  | Aborted => ONABORTED st
  | Close => cleanup dstate st
  | Tick =>
      match nextTick st with
      | [] => st
      | args :: q => INVOKE args (set_nextTick dstate q st)
      end
  | Finished => fire dstate (on_finished st) (set_on_finished dstate [] (set_finished dstate true st))
  | Immediate => fire dstate (deferred st) (set_deferred dstate [] st)
  end.
Proof.
  intros H. destruct sig; cbn [step]; try reflexivity; unfold emit; rewrite H; reflexivity.
Qed.

Lemma wf_cleanup (st : state dstate) :
  wf st -> complete st = false -> sync st = false -> listeners st = five ->
  wf (cleanup dstate st).
Proof.
  intros [Hph Hl Hd] Hc Hs Hf.
  assert (Hn : nextTick st = [] /\ calls (trace st) = []).
  { destruct Hph; try congruence; split; assumption. }
  destruct Hn as [Hn Hcalls].
  destruct (cleanup_fields st) as (H1 & H2 & H3 & H4 & H5 & H6 & H7).
  split.
  - apply Closed; try congruence.
    + rewrite H6, Hf. reflexivity.
    + rewrite H7, calls_app, Hcalls. reflexivity.
  - rewrite H7, H6, listeners_of_app, Hl. reflexivity.
  - rewrite H7, detached_app, Hd. reflexivity.
Qed.

(** [done] after setup: the callback is invoked on the spot. *)
Lemma wf_done (args : Args) (st : state dstate) :
  wf st -> complete st = false -> sync st = false -> listeners st = five ->
  forall st', sync st' = false -> listeners st' = listeners st ->
         nextTick st' = nextTick st -> trace st' = trace st ->
  wf (DONE args st').
Proof.
  intros [Hph Hl Hd] Hc Hs Hf st' Hs' Hl' Hn' Ht'.
  assert (Hn : nextTick st = [] /\ calls (trace st) = []).
  { destruct Hph; try congruence; split; assumption. }
  destruct Hn as [Hn Hcalls].
  rewrite done_async by exact Hs'.
  apply wf_invoke; cbn; try congruence.
  rewrite Hl', Hf. reflexivity.
Qed.

Lemma wf_fire (l : list Error) (st st' : state dstate) :
  wf st ->
  complete st' = complete st -> sync st' = sync st -> received st' = received st ->
  decoder st' = decoder st -> buffer st' = buffer st -> listeners st' = listeners st ->
  nextTick st' = nextTick st -> trace st' = trace st ->
  wf (fire dstate l st').
Proof.
  intros [Hph Hl Hd] E1 E2 E3 E4 E5 E6 E7 E8.
  destruct (fire_fields l st') as (H1 & H2 & H3 & H4 & H5 & H6 & H7 & _ & _ & _ & _ & H12).
  assert (Hcalls : calls (trace (fire dstate l st')) = calls (trace st)).
  { rewrite H12, calls_app, calls_nexts, app_nil_r, E8. reflexivity. }
  split.
  - destruct Hph as [a|?|?|a].
    + apply Pending with a; congruence.
    + apply Reading; try congruence.
      unfold buffer_ok in *. rewrite H4, H5, E4, E5. assumption.
    + apply Closed; congruence.
    + apply Delivered with a; congruence.
  - rewrite H12, listeners_of_app, replay_nexts. congruence.
  - rewrite H12, detached_app, detached_nexts, andb_true_r. congruence.
Qed.

Lemma wf_step (sig : signal) (st : state dstate) : wf st -> wf (STEP st sig).
Proof.
  intros Hwf. pose proof Hwf as [Hph Hl Hd].
  assert (Hfire : forall l st', complete st' = complete st -> sync st' = sync st ->
            received st' = received st -> decoder st' = decoder st ->
            buffer st' = buffer st -> listeners st' = listeners st ->
            nextTick st' = nextTick st -> trace st' = trace st ->
            wf (fire dstate l st')).
  { intros; eapply wf_fire; eassumption. }
  destruct sig as [chunk| |message| | | | |];
    try (cbn [step]; apply Hfire; reflexivity).
  6:{ (* Tick *)
    cbn [step]. destruct Hph as [a Hc Hs Hls Hn Hcalls Hr Hf|Hc Hs Hls Hn|Hc Hs Hls Hn|a Hc Hls Hn];
      rewrite Hn; try exact Hwf.
    apply wf_invoke; cbn; try congruence. rewrite Hls. reflexivity. }
  all: destruct Hph as [a Hc Hs Hls Hn Hcalls Hr Hf|Hc Hs Hls Hn Hcalls Hb|Hc Hs Hls Hn|a Hc Hls Hn];
    try (rewrite step_detached by (assumption || reflexivity); exact Hwf).
  all: rewrite step_reading by exact Hls.
  - (* Data *)
    unfold onData. rewrite Hc.
    cbn [received set_received].
    destruct (over_limit limit (received st + Buffer_length chunk)).
    + eapply wf_done; try eassumption; reflexivity.
    + cbn [decoder buffer set_received]. unfold buffer_ok in Hb.
      destruct (decoder st) as [d|] eqn:Ed; destruct (buffer st) as [t|l|] eqn:Eb;
        try contradiction.
      * destruct (decoder_write d chunk) as [d' out]. split; cbn; try assumption.
        apply Reading; cbn; try assumption; exact I.
      * split; cbn; try assumption.
        apply Reading; cbn; try assumption.
        unfold buffer_ok; cbn; rewrite Ed; exact I.
  - (* EndOfStream *)
    unfold onEnd. rewrite Hc.
    destruct (size_mismatch length (received st));
      eapply wf_done; try eassumption; reflexivity.
  - (* StreamError *)
    unfold onEnd. rewrite Hc. eapply wf_done; try eassumption; reflexivity.
  - (* Aborted *)
    unfold onAborted. rewrite Hc. eapply wf_done; try eassumption; reflexivity.
  - (* Close *)
    apply wf_cleanup; assumption.
Qed.

Lemma wf_run (sigs : list signal) (st : state dstate) : wf st -> wf (RUN st sigs).
Proof.
  revert st; induction sigs as [|sig sigs IH]; intros st H; cbn; [exact H|].
  apply IH, wf_step, H.
Qed.

(** *** Consequences *)

Lemma clean_world (s : Stream) (fin : bool) : clean (world dstate s fin).
Proof. split; reflexivity. Qed.

Lemma wf_reachable (s : Stream) (fin : bool) (sigs : list signal) :
  wf (RUN (READ (world dstate s fin)) sigs).
Proof. apply wf_run, wf_readStream, clean_world. Qed.

(** The reading phase is the one with a listener and no completion. *)
Lemma reading_inv (st : state dstate) :
  wf st -> complete st = false -> listeners st <> [] ->
  sync st = false /\ listeners st = five /\ nextTick st = []
  /\ calls (trace st) = [] /\ buffer_ok st.
Proof.
  intros [Hph _ _] Hc Hl. destruct Hph; try congruence. repeat split; assumption.
Qed.

Lemma done_fields (args : Args) (st : state dstate) :
  sync st = false ->
  complete (DONE args st) = true
  /\ received (DONE args st) = received st
  /\ nextTick (DONE args st) = nextTick st
  /\ listeners (DONE args st) = remove5 (listeners st)
  /\ trace (DONE args st) = trace st ++ delivery args.
Proof.
  intros H. rewrite done_async by exact H.
  destruct (invoke_fields args (set_complete dstate true st)) as (H1 & H2 & H3 & H4 & H5 & H6).
  repeat split; assumption.
Qed.

(** Once nothing listens and nothing is queued, nothing more is
    delivered. *)
Lemma settled_step (sig : signal) (st : state dstate) :
  listeners st = [] -> nextTick st = [] ->
  listeners (STEP st sig) = [] /\ nextTick (STEP st sig) = []
  /\ complete (STEP st sig) = complete st
  /\ calls (trace (STEP st sig)) = calls (trace st).
Proof.
  intros Hl Hn.
  destruct sig; try (rewrite step_detached by (assumption || reflexivity); repeat split; assumption).
  - cbn [step]. rewrite Hn. repeat split; assumption.
  - cbn [step].
    match goal with |- context [fire dstate ?l ?s] =>
      destruct (fire_fields l s) as (H1 & _ & _ & _ & _ & H6 & H7 & _ & _ & _ & _ & H12)
    end.
    rewrite H1, H6, H7, H12, calls_app, calls_nexts, app_nil_r. repeat split; assumption.
  - cbn [step].
    match goal with |- context [fire dstate ?l ?s] =>
      destruct (fire_fields l s) as (H1 & _ & _ & _ & _ & H6 & H7 & _ & _ & _ & _ & H12)
    end.
    rewrite H1, H6, H7, H12, calls_app, calls_nexts, app_nil_r. repeat split; assumption.
Qed.

Lemma settled_run (sigs : list signal) (st : state dstate) :
  listeners st = [] -> nextTick st = [] ->
  calls (trace (RUN st sigs)) = calls (trace st).
Proof.
  revert st; induction sigs as [|sig sigs IH]; intros st Hl Hn; cbn; [reflexivity|].
  destruct (settled_step sig st Hl Hn) as (H1 & H2 & _ & H4).
  unfold run in IH. rewrite IH by assumption. exact H4.
Qed.

Lemma never_attached_app (t1 t2 : list effect) :
  never_attached (t1 ++ t2) = never_attached t1 && never_attached t2.
Proof. apply forallb_app. Qed.

Lemma never_attached_nexts (l : list Error) :
  never_attached (List.map (fun e => E_next (Some e)) l) = true.
Proof. induction l as [|e l IH]; cbn; [reflexivity|exact IH]. Qed.

Lemma never_attached_delivery (args : Args) : never_attached (delivery args) = true.
Proof.
  unfold RawBody.delivery. rewrite !never_attached_app.
  replace (never_attached removals) with true by reflexivity.
  replace (never_attached (halting args)) with true by (destruct args; reflexivity).
  cbn. induction (callback args) as [|a l IH]; cbn; [reflexivity|].
  destruct a; exact IH.
Qed.

(** With no listener on the stream none is attached later and no byte is
    counted. *)
Lemma quiet_step (sig : signal) (st : state dstate) :
  listeners st = [] ->
  listeners (STEP st sig) = [] /\ received (STEP st sig) = received st
  /\ (never_attached (trace st) = true -> never_attached (trace (STEP st sig)) = true).
Proof.
  intros Hl.
  destruct sig; try (rewrite step_detached by (assumption || reflexivity); repeat split; auto).
  - cbn [step]. destruct (nextTick st) as [|args q]; [repeat split; auto|].
    destruct (invoke_fields args (set_nextTick dstate q st)) as (_ & _ & H3 & _ & H5 & H6).
    rewrite H3, H5, H6. cbn [listeners set_nextTick received trace]. rewrite Hl.
    repeat split. intros H.
    rewrite never_attached_app, H, never_attached_delivery. reflexivity.
  - cbn [step].
    match goal with |- context [fire dstate ?l ?s] =>
      destruct (fire_fields l s) as (_ & _ & H3 & _ & _ & H6 & _ & _ & _ & _ & _ & H12)
    end.
    rewrite H3, H6, H12. repeat split; try assumption.
    intros H. rewrite never_attached_app, never_attached_nexts, andb_true_r. exact H.
  - cbn [step].
    match goal with |- context [fire dstate ?l ?s] =>
      destruct (fire_fields l s) as (_ & _ & H3 & _ & _ & H6 & _ & _ & _ & _ & _ & H12)
    end.
    rewrite H3, H6, H12. repeat split; try assumption.
    intros H. rewrite never_attached_app, never_attached_nexts, andb_true_r. exact H.
Qed.

Lemma quiet_run (sigs : list signal) (st : state dstate) :
  listeners st = [] ->
  listeners (RUN st sigs) = [] /\ received (RUN st sigs) = received st
  /\ (never_attached (trace st) = true -> never_attached (trace (RUN st sigs)) = true).
Proof.
  revert st; induction sigs as [|sig sigs IH]; intros st Hl; cbn; [repeat split; auto|].
  destruct (quiet_step sig st Hl) as (H1 & H2 & H3).
  destruct (IH _ H1) as (G1 & G2 & G3). unfold run in *.
  rewrite G1, G2, H2. repeat split. intros H. apply G3, H3, H.
Qed.

(** With no listener on the stream, what is added to the trace leaves the
    stream unread. *)
Lemma quiet_step_suffix (sig : signal) (st : state dstate) :
  listeners st = [] ->
  exists extra, trace (STEP st sig) = trace st ++ extra /\ never_attached extra = true.
Proof.
  intros Hl.
  assert (Hsame : exists extra, trace st = trace st ++ extra /\ never_attached extra = true).
  { exists []. rewrite app_nil_r. split; reflexivity. }
  destruct sig; try (rewrite step_detached by (assumption || reflexivity); exact Hsame).
  - cbn [step]. destruct (nextTick st) as [|args q]; [exact Hsame|].
    destruct (invoke_fields args (set_nextTick dstate q st)) as (_ & _ & _ & _ & _ & H6).
    exists (delivery args). split; [exact H6|apply never_attached_delivery].
  - cbn [step].
    match goal with |- context [fire dstate ?l ?s] =>
      destruct (fire_fields l s) as (_ & _ & _ & _ & _ & _ & _ & _ & _ & _ & _ & H12);
        exists (List.map (fun e => E_next (Some e)) l)
    end.
    split; [exact H12|apply never_attached_nexts].
  - cbn [step].
    match goal with |- context [fire dstate ?l ?s] =>
      destruct (fire_fields l s) as (_ & _ & _ & _ & _ & _ & _ & _ & _ & _ & _ & H12);
        exists (List.map (fun e => E_next (Some e)) l)
    end.
    split; [exact H12|apply never_attached_nexts].
Qed.

Lemma quiet_run_suffix (sigs : list signal) (st : state dstate) :
  listeners st = [] ->
  exists extra, trace (RUN st sigs) = trace st ++ extra /\ never_attached extra = true.
Proof.
  revert st; induction sigs as [|sig sigs IH]; intros st Hl; cbn.
  { exists []. rewrite app_nil_r. split; reflexivity. }
  destruct (quiet_step sig st Hl) as (H1 & _).
  destruct (quiet_step_suffix sig st Hl) as (e1 & E1 & N1).
  destruct (IH _ H1) as (e2 & E2 & N2). unfold run in *.
  exists (e1 ++ e2). rewrite E2, E1, <- app_assoc, never_attached_app, N1, N2.
  split; reflexivity.
Qed.

(** [done] in the reading phase. *)
Lemma reading_done (args : Args) (st st' : state dstate) :
  wf st -> complete st = false -> listeners st <> [] ->
  sync st' = sync st -> listeners st' = listeners st ->
  nextTick st' = nextTick st -> trace st' = trace st ->
  trace (DONE args st') = trace st ++ delivery args
  /\ calls (trace (DONE args st')) = [args]
  /\ complete (DONE args st') = true
  /\ listeners (DONE args st') = []
  /\ nextTick (DONE args st') = []
  /\ received (DONE args st') = received st'.
Proof.
  intros Hwf Hc Hne E1 E2 E3 E4.
  destruct (reading_inv st Hwf Hc Hne) as (Hs & Hf & Hn & Hcalls & Hb).
  destruct (done_fields args st') as (H1 & H2 & H3 & H4 & H5); [congruence|].
  rewrite H5, H1, H2, H3, H4, E2, E3, E4, Hf, Hn, calls_app, Hcalls, calls_delivery.
  repeat split.
Qed.

Lemma detached_run (more : list signal) (st : state dstate) :
  listeners st = [] -> forallb from_stream more = true -> RUN st more = st.
Proof.
  intros Hl. induction more as [|sig more IH]; cbn; [reflexivity|].
  intros H. apply andb_true_iff in H as [H1 H2].
  rewrite step_detached by assumption. apply IH, H2.
Qed.

(** *** Accumulating chunks *)

Lemma from_stream_data (chunks : list Buffer) :
  forallb from_stream (List.map Data chunks) = true.
Proof. induction chunks as [|c r IH]; cbn; [reflexivity|exact IH]. Qed.

Lemma total_nonneg (chunks : list Buffer) : 0 <= total chunks.
Proof.
  unfold total. induction chunks as [|c r IH]; cbn [fold_right]; [lia|].
  unfold Buffer_length at 1. lia.
Qed.

Lemma accumulate (chunks : list Buffer) (st : state dstate) :
  complete st = false -> sync st = false -> listeners st = five -> buffer_ok st ->
  complete (RUN st (List.map Data chunks)) = false ->
  received (RUN st (List.map Data chunks)) = received st + total chunks
  /\ final_body dstate decoder_end (RUN st (List.map Data chunks)) =
     match decoder st, buffer st with
     | Some d, BufString b =>
         BodyString (b ++ decode_chunks dstate decoder_write decoder_end d chunks)%list
     | _, BufChunks l => BodyBuffer (Buffer_concat (l ++ chunks))
     | _, _ => BodyString []
     end.
Proof.
  revert st; induction chunks as [|c chunks IH]; intros st Hc Hs Hl Hb Hend.
  - cbn. split; [lia|].
    unfold final_body, flush. unfold buffer_ok in Hb.
    destruct (decoder st); destruct (buffer st); try contradiction; try reflexivity.
    rewrite app_nil_r. reflexivity.
  - cbn [List.map run fold_left] in *.
    change (fold_left STEP (List.map Data chunks) (STEP st (Data c)))
      with (RUN (STEP st (Data c)) (List.map Data chunks)) in *.
    rewrite step_reading in * by exact Hl.
    unfold onData in *. rewrite Hc in *. cbn [received set_received] in *.
    destruct (over_limit limit (received st + Buffer_length c)) eqn:Hov.
    { exfalso.
      match type of Hend with context [DONE ?a ?s'] =>
        destruct (done_fields a s') as (H1 & _ & _ & H4 & _); [exact Hs|];
          rewrite detached_run in Hend
      end.
      - congruence.
      - rewrite H4. cbn. rewrite Hl. reflexivity.
      - apply from_stream_data. }
    cbn [decoder buffer set_received] in *. unfold buffer_ok in Hb.
    destruct (decoder st) as [d|] eqn:Ed; destruct (buffer st) as [b|l|] eqn:Eb;
      try contradiction.
    + cbn [decode_chunks]. destruct (decoder_write d c) as [d' out].
      match type of Hend with context [RUN ?s' _] =>
        destruct (IH s') as [G1 G2]; try assumption; try exact I
      end.
      rewrite G1, G2. cbn [received decoder buffer set_buffer set_decoder set_received].
      change (total (c :: chunks)) with (Buffer_length c + total chunks).
      rewrite <- app_assoc. split; [lia|reflexivity].
    + match type of Hend with context [RUN ?s' _] =>
        destruct (IH s') as [G1 G2]; try assumption
      end.
      { unfold buffer_ok; cbn. rewrite Ed. exact I. }
      rewrite G1, G2. cbn [received decoder buffer set_buffer set_decoder set_received].
      change (total (c :: chunks)) with (Buffer_length c + total chunks).
      rewrite Ed, <- app_assoc. split; [lia|reflexivity].
Qed.

(** A setup that leaves a listener on the stream went all the way. *)
Lemma readStream_attached (st : state dstate) :
  listeners st = [] -> listeners (READ st) <> [] ->
  exists d,
    getDecoder dstate iconv_getDecoder encoding = inl d
    /\ length_over_limit length limit = false
    /\ encoding_set (stream st) = false
    /\ complete (READ st) = false /\ sync (READ st) = false
    /\ listeners (READ st) = five
    /\ decoder (READ st) = d
    /\ buffer (READ st) = match d with Some _ => BufString [] | None => BufChunks [] end
    /\ received (READ st) = 0.
Proof.
  intros Hl. unfold readStream.
  destruct (length_over_limit length limit).
  { rewrite done_sync by reflexivity. cbn. congruence. }
  cbn [stream set_sync set_complete].
  destruct (encoding_set (stream st)).
  { rewrite done_sync by reflexivity. cbn. congruence. }
  destruct (getDecoder dstate iconv_getDecoder encoding) as [d|err].
  - intros _. exists d. cbn. rewrite Hl. repeat split.
  - rewrite done_sync by reflexivity. cbn. congruence.
Qed.

(** Setup invokes no callback, and a setup that completes the read has
    queued one failure for the next tick. *)
Lemma readStream_calls (st : state dstate) :
  calls (trace (READ st)) = calls (trace st).
Proof.
  unfold readStream.
  destruct (length_over_limit length limit);
    [rewrite done_sync by reflexivity; reflexivity|].
  cbn [stream set_sync set_complete].
  destruct (encoding_set (stream st));
    [rewrite done_sync by reflexivity; reflexivity|].
  destruct (getDecoder dstate iconv_getDecoder encoding) as [d|err];
    [|rewrite done_sync by reflexivity; reflexivity].
  cbn. rewrite !calls_app. cbn. rewrite !app_nil_r. reflexivity.
Qed.

Lemma readStream_pending (st : state dstate) :
  clean st -> complete (READ st) = true ->
  exists err,
    nextTick (READ st) = [Failure err] /\ listeners (READ st) = []
    /\ calls (trace (READ st)) = [] /\ received (READ st) = 0.
Proof.
  intros Hclean Hc. destruct (wf_readStream st Hclean) as [Hph _ _].
  pose proof (readStream_calls st) as E.
  destruct Hclean as [_ _ Hcalls _ _ _]. rewrite Hcalls in E.
  destruct Hph as [a ? ? ? ? ? ? Hf|?|?|a]; try congruence.
  destruct a as [err|]; [|contradiction]. exists err. repeat split; assumption.
Qed.

(** A pending failure is delivered by the first tick and by nothing
    else. *)
Lemma pending_run (args : Args) (sigs : list signal) (st : state dstate) :
  listeners st = [] -> nextTick st = [args] -> calls (trace st) = [] ->
  calls (trace (RUN st sigs)) = if existsb is_tick sigs then [args] else [].
Proof.
  revert st; induction sigs as [|sig sigs IH]; intros st Hl Hn Hc; [exact Hc|].
  cbn [run fold_left existsb].
  change (fold_left STEP sigs (STEP st sig)) with (RUN (STEP st sig) sigs).
  destruct sig; cbn [is_tick orb];
    try (rewrite step_detached by (assumption || reflexivity); apply IH; assumption).
  - cbn [step]. rewrite Hn.
    destruct (invoke_fields args (set_nextTick dstate [] st)) as (_ & _ & _ & H4 & H5 & H6).
    rewrite settled_run.
    + rewrite H6. cbn [trace set_nextTick]. rewrite calls_app, Hc, calls_delivery. reflexivity.
    + rewrite H5. cbn. rewrite Hl. reflexivity.
    + rewrite H4. reflexivity.
  - cbn [step].
    match goal with |- context [fire dstate ?l ?s] =>
      destruct (fire_fields l s) as (_ & _ & _ & _ & _ & H6 & H7 & _ & _ & _ & _ & H12)
    end.
    apply IH; [rewrite H6; exact Hl|rewrite H7; exact Hn|].
    rewrite H12, calls_app, calls_nexts, app_nil_r. exact Hc.
  - cbn [step].
    match goal with |- context [fire dstate ?l ?s] =>
      destruct (fire_fields l s) as (_ & _ & _ & _ & _ & H6 & H7 & _ & _ & _ & _ & H12)
    end.
    apply IH; [rewrite H6; exact Hl|rewrite H7; exact Hn|].
    rewrite H12, calls_app, calls_nexts, app_nil_r. exact Hc.
Qed.

Local Notation "<< s , fin , sigs >>" := (RUN (READ (world dstate s fin)) sigs).

(** *** The claims about the accumulator *)

(** C1 (as amended).  A read delivers at most one outcome, never two:
    the callback is invoked at most once; once the read is complete and
    the tick queue is empty it has been invoked exactly once; every
    invocation happens with no listener left on the stream; a complete
    read ignores every further signal of the stream; a delivered outcome
    is never followed by another; and in the reading phase an end, an
    error or an abort delivers the outcome in that very step.  (A close
    before completion is the case where nothing is delivered.) *)
Theorem at_most_one_outcome (s : Stream) (fin : bool) (sigs : list signal) :
  (List.length (calls (trace (RUN (READ (world dstate s fin)) sigs))) <= 1)%nat
  /\ (complete (RUN (READ (world dstate s fin)) sigs) = true ->
      nextTick (RUN (READ (world dstate s fin)) sigs) = [] ->
      exists args, calls (trace (RUN (READ (world dstate s fin)) sigs)) = [args])
  /\ (forall pre args post,
        trace (RUN (READ (world dstate s fin)) sigs) = pre ++ E_callback args :: post ->
        listeners_of pre = [])
  /\ (complete (RUN (READ (world dstate s fin)) sigs) = true ->
      forall sig, from_stream sig = true ->
        STEP (RUN (READ (world dstate s fin)) sigs) sig = RUN (READ (world dstate s fin)) sigs)
  /\ (forall args more,
        calls (trace (RUN (READ (world dstate s fin)) sigs)) = [args] ->
        calls (trace (RUN (RUN (READ (world dstate s fin)) sigs) more)) = [args])
  /\ (complete (RUN (READ (world dstate s fin)) sigs) = false ->
      listeners (RUN (READ (world dstate s fin)) sigs) <> [] ->
      forall sig, sig = EndOfStream \/ sig = Aborted \/ (exists message, sig = StreamError message) ->
        exists args, calls (trace (STEP (RUN (READ (world dstate s fin)) sigs) sig)) = [args]).
Proof.
  pose proof (wf_reachable s fin sigs) as Hwf.
  set (st := RUN (READ (world dstate s fin)) sigs) in *.
  pose proof Hwf as [Hph Hl Hd].
  repeat split.
  - destruct Hph as [a ? ? ? ? Hc|? ? ? ? Hc|? ? ? ? Hc|a ? ? ? Hc]; rewrite Hc; cbn; lia.
  - intros Hc Hn. destruct Hph as [a ? ? ? Hn'|?|?|a]; try congruence.
    exists a; assumption.
  - intros pre args post E. eapply detached_split; eassumption.
  - intros Hc sig Hsig. apply step_detached; [|exact Hsig].
    destruct Hph; congruence.
  - intros args more E. rewrite <- E. apply settled_run.
    + destruct Hph; congruence.
    + destruct Hph; congruence.
  - intros Hc Hne sig Hsig.
    destruct (reading_inv st Hwf Hc Hne) as (Hs & Hf & Hn & Hcalls & Hb).
    rewrite step_reading by exact Hf.
    assert (G : forall args st', sync st' = false -> trace st' = trace st ->
                  exists a, calls (trace (DONE args st')) = [a]).
    { intros args st' Hs' Ht'. exists args.
      destruct (done_fields args st' Hs') as (_ & _ & _ & _ & H5).
      rewrite H5, Ht', calls_app, Hcalls, calls_delivery. reflexivity. }
    destruct Hsig as [->|[->|[message ->]]].
    + unfold onEnd. rewrite Hc. destruct (size_mismatch length (received st)); apply G; auto.
    + unfold onAborted. rewrite Hc. apply G; auto.
    + unfold onEnd. rewrite Hc. apply G; auto.
Qed.

(** C2.  A chunk that takes the received bytes over the limit fails the
    read with the 413 error "entity.too.large" carrying the limit and the
    bytes received so far; the listeners are removed, the stream is
    unpiped and paused, then the callback is invoked; after that no signal
    of the stream changes anything, so no further chunk is processed. *)
Theorem over_limit_fails (s : Stream) (fin : bool) (sigs : list signal)
    (chunk : Buffer) (lim : Z) :
  limit = Some lim ->
  complete << s, fin, sigs >> = false ->
  listeners << s, fin, sigs >> <> [] ->
  lim < received << s, fin, sigs >> + Buffer_length chunk ->
  trace (STEP << s, fin, sigs >> (Data chunk)) =
    trace << s, fin, sigs >> ++ removals
    ++ [E_unpipe; E_pause;
        E_callback
          (Failure (HttpError 413 "request entity too large"
             (mkProps (Some "entity.too.large"%string) None None None (Some lim)
                (Some (received << s, fin, sigs >> + Buffer_length chunk)) None None None)))]
    ++ List.map effect_of
         (callback
            (Failure (HttpError 413 "request entity too large"
               (mkProps (Some "entity.too.large"%string) None None None (Some lim)
                  (Some (received << s, fin, sigs >> + Buffer_length chunk)) None None None))))
  /\ calls (trace (STEP << s, fin, sigs >> (Data chunk))) =
     [Failure (HttpError 413 "request entity too large"
        (mkProps (Some "entity.too.large"%string) None None None (Some lim)
           (Some (received << s, fin, sigs >> + Buffer_length chunk)) None None None))]
  /\ (forall more, forallb from_stream more = true ->
        RUN (STEP << s, fin, sigs >> (Data chunk)) more = STEP << s, fin, sigs >> (Data chunk)).
Proof.
  intros Hlim Hc Hne Hover.
  pose proof (wf_reachable s fin sigs) as Hwf.
  set (st := << s, fin, sigs >>) in *.
  destruct (reading_inv st Hwf Hc Hne) as (Hs & Hf & Hn & Hcalls & Hb).
  assert (Hov : over_limit limit (received st + Buffer_length chunk) = true).
  { unfold over_limit. rewrite Hlim. apply Z.gtb_lt. exact Hover. }
  assert (Herr : HttpError 413 "request entity too large"
                   (mkProps (Some "entity.too.large"%string) None None None (Some lim)
                      (Some (received st + Buffer_length chunk)) None None None)
                 = entity_too_large limit (received st + Buffer_length chunk)).
  { unfold entity_too_large, createHttpError. rewrite Hlim. reflexivity. }
  rewrite Herr.
  rewrite step_reading by exact Hf.
  unfold onData. rewrite Hc. cbn [received set_received]. rewrite Hov.
  match goal with |- context [DONE ?a ?s'] =>
    destruct (reading_done a st s' Hwf Hc Hne) as (H1 & H2 & H3 & H4 & H5 & H6);
      try reflexivity
  end.
  repeat split.
  - rewrite H1. reflexivity.
  - exact H2.
  - intros more Hmore. apply detached_run; assumption.
Qed.

(** C7 (as amended).  In the reading phase (the read is not complete and
    its listeners are on the stream) an abort fails the read with the 400
    error "request.aborted" carrying the expected length and the bytes
    received so far, whatever has been accumulated; nothing delivered later
    replaces it.  On a read that is not complete but has lost its listeners
    to a close, an abort changes nothing and nothing is delivered. *)
Theorem abort_fails (s : Stream) (fin : bool) (sigs : list signal) :
  (complete << s, fin, sigs >> = false ->
   listeners << s, fin, sigs >> <> [] ->
   calls (trace (STEP << s, fin, sigs >> Aborted)) =
     [Failure (HttpError 400 "request aborted"
        (mkProps (Some "request.aborted"%string) (Some "ECONNABORTED"%string)
           length length None (Some (received << s, fin, sigs >>)) None None None))]
   /\ complete (STEP << s, fin, sigs >> Aborted) = true
   /\ (forall more,
         calls (trace (RUN (STEP << s, fin, sigs >> Aborted) more)) =
           [Failure (HttpError 400 "request aborted"
              (mkProps (Some "request.aborted"%string) (Some "ECONNABORTED"%string)
                 length length None (Some (received << s, fin, sigs >>)) None None None))]))
  /\ (complete << s, fin, sigs >> = false ->
      listeners << s, fin, sigs >> = [] ->
      STEP << s, fin, sigs >> Aborted = << s, fin, sigs >>
      /\ calls (trace (STEP << s, fin, sigs >> Aborted)) = []
      /\ forall more, calls (trace (RUN (STEP << s, fin, sigs >> Aborted) more)) = []).
Proof.
  pose proof (wf_reachable s fin sigs) as Hwf.
  set (st := << s, fin, sigs >>) in *.
  split.
  - intros Hc Hne.
    destruct (reading_inv st Hwf Hc Hne) as (Hs & Hf & Hn & Hcalls & Hb).
    rewrite step_reading by exact Hf.
    unfold onAborted. rewrite Hc.
    match goal with |- context [DONE ?a ?s'] =>
      destruct (reading_done a st s' Hwf Hc Hne) as (H1 & H2 & H3 & H4 & H5 & H6);
        try reflexivity
    end.
    unfold request_aborted, createHttpError in *.
    repeat split; try assumption.
    intros more. rewrite settled_run by assumption. exact H2.
  - intros Hc Hl.
    assert (Hclosed : nextTick st = [] /\ calls (trace st) = []).
    { destruct Hwf as [[a| | |a] _ _]; try congruence; split; assumption. }
    destruct Hclosed as [Hn Hcalls].
    rewrite step_detached by (assumption || reflexivity).
    repeat split; [exact Hcalls|].
    intros more. rewrite settled_run by assumption. exact Hcalls.
Qed.

(** C4 (as amended).  At the end of the stream, in the reading phase (the
    read is not complete and its listeners are on the stream): with an
    expected length the bytes received differ from, the read fails with
    the 400 error "request.size.invalid" carrying both (a length that is
    NaN differs from every count); otherwise it succeeds with the decoded
    text followed by what the decoder flushes, or with the concatenation
    of the chunks when there is no decoder.  On a read that is not
    complete but has lost its listeners to a close, the end of the stream
    changes nothing and nothing is delivered. *)
Theorem end_of_stream (s : Stream) (fin : bool) (sigs : list signal) :
  (complete << s, fin, sigs >> = false ->
   listeners << s, fin, sigs >> <> [] ->
   (forall len : Num,
      length = Some len -> differs (received << s, fin, sigs >>) len = true ->
      calls (trace (STEP << s, fin, sigs >> EndOfStream)) =
        [Failure (HttpError 400 "request size did not match content length"
           (mkProps (Some "request.size.invalid"%string) None (Some len) (Some len) None
              (Some (received << s, fin, sigs >>)) None None None))])
   /\ (forall len : Z,
         length = Some len -> received << s, fin, sigs >> <> len ->
         calls (trace (STEP << s, fin, sigs >> EndOfStream)) =
           [Failure (HttpError 400 "request size did not match content length"
              (mkProps (Some "request.size.invalid"%string) None (Some len) (Some len) None
                 (Some (received << s, fin, sigs >>)) None None None))])
   /\ (length = Some (Float S754_nan) ->
       calls (trace (STEP << s, fin, sigs >> EndOfStream)) =
         [Failure (HttpError 400 "request size did not match content length"
            (mkProps (Some "request.size.invalid"%string) None (Some (Float S754_nan))
               (Some (Float S754_nan)) None
               (Some (received << s, fin, sigs >>)) None None None))])
   /\ (length = None \/ length = Some (received << s, fin, sigs >>) ->
       calls (trace (STEP << s, fin, sigs >> EndOfStream)) =
         [Success (final_body dstate decoder_end << s, fin, sigs >>)])
   /\ (forall chunks, sigs = List.map Data chunks ->
       received << s, fin, sigs >> = total chunks
       /\ (forall d0,
             getDecoder dstate iconv_getDecoder encoding = inl (Some d0) ->
             final_body dstate decoder_end << s, fin, sigs >> =
               BodyString (decode_chunks dstate decoder_write decoder_end d0 chunks))
       /\ (getDecoder dstate iconv_getDecoder encoding = inl None ->
           final_body dstate decoder_end << s, fin, sigs >> =
             BodyBuffer (List.concat chunks))))
  /\ (complete << s, fin, sigs >> = false ->
      listeners << s, fin, sigs >> = [] ->
      STEP << s, fin, sigs >> EndOfStream = << s, fin, sigs >>
      /\ calls (trace (STEP << s, fin, sigs >> EndOfStream)) = []
      /\ forall more, calls (trace (RUN (STEP << s, fin, sigs >> EndOfStream) more)) = []).
Proof.
  pose proof (wf_reachable s fin sigs) as Hwf.
  split.
  - intros Hc Hne.
    destruct (reading_inv _ Hwf Hc Hne) as (Hs & Hf & Hn & Hcalls & Hb).
    assert (Hchunks : forall chunks, sigs = List.map Data chunks ->
              received << s, fin, sigs >> = total chunks
              /\ exists d,
                   getDecoder dstate iconv_getDecoder encoding = inl d
                   /\ final_body dstate decoder_end << s, fin, sigs >> =
                      body_of dstate decoder_write decoder_end d chunks).
    { intros chunks ->.
      destruct (readStream_attached (world dstate s fin))
        as (d & G0 & _ & _ & G1 & G2 & G3 & G4 & G5 & G6); [reflexivity| |].
      { intros E. destruct (quiet_run (List.map Data chunks) _ E) as (Q & _). congruence. }
      destruct (accumulate chunks (READ (world dstate s fin))) as [A1 A2]; try assumption.
      { unfold buffer_ok. rewrite G4, G5. destruct d; exact I. }
      split; [rewrite A1, G6; reflexivity|].
      exists d. split; [exact G0|]. rewrite A2, G4, G5.
      destruct d; reflexivity. }
    set (st := << s, fin, sigs >>) in *.
    assert (Hfail : forall len : Num,
              length = Some len -> differs (received st) len = true ->
              calls (trace (STEP st EndOfStream)) =
                [Failure (HttpError 400 "request size did not match content length"
                   (mkProps (Some "request.size.invalid"%string) None (Some len) (Some len)
                      None (Some (received st)) None None None))]).
    { intros len Hlen Hdiff.
      assert (Hmis : size_mismatch length (received st) = true).
      { unfold size_mismatch. rewrite Hlen. exact Hdiff. }
      assert (Herr : HttpError 400 "request size did not match content length"
                (mkProps (Some "request.size.invalid"%string) None (Some len) (Some len) None
                   (Some (received st)) None None None)
              = request_size_invalid length (received st)).
      { unfold request_size_invalid, createHttpError. rewrite Hlen. reflexivity. }
      rewrite Herr.
      rewrite step_reading by exact Hf. unfold onEnd. rewrite Hc, Hmis.
      match goal with |- context [DONE ?a ?s'] =>
        destruct (reading_done a _ s' Hwf Hc Hne) as (_ & H2 & _); try reflexivity
      end.
      exact H2. }
    split; [exact Hfail|]. split; [|split; [|split; [|]]].
    + intros len Hlen Hdiff. apply Hfail; [exact Hlen|].
      cbn. apply negb_true_iff, Z.eqb_neq. exact Hdiff.
    + intros Hlen. apply Hfail; [exact Hlen|reflexivity].
    + intros Hlen.
      assert (Hmis : size_mismatch length (received st) = false).
      { unfold size_mismatch. destruct Hlen as [E|E]; rewrite E at 1; [reflexivity|].
        cbn. rewrite Z.eqb_refl. reflexivity. }
      rewrite step_reading by exact Hf. unfold onEnd. rewrite Hc, Hmis.
      match goal with |- context [DONE ?a ?s'] =>
        destruct (reading_done a _ s' Hwf Hc Hne) as (_ & H2 & _); try reflexivity
      end.
      exact H2.
    + intros chunks Hsigs.
      destruct (Hchunks chunks Hsigs) as (Hr & d & Hd & Hbody).
      split; [exact Hr|]. rewrite Hbody. split.
      * intros d0 E. rewrite Hd in E. injection E as ->. reflexivity.
      * intros E. rewrite Hd in E. injection E as ->. reflexivity.
  - intros Hc Hl.
    set (st := << s, fin, sigs >>) in *.
    assert (Hclosed : nextTick st = [] /\ calls (trace st) = []).
    { destruct Hwf as [[a| | |a] _ _]; try congruence; split; assumption. }
    destruct Hclosed as [Hn Hcalls].
    rewrite step_detached by (assumption || reflexivity).
    repeat split; [exact Hcalls|].
    intros more. rewrite settled_run by assumption. exact Hcalls.
Qed.

(** C3.  With an expected length over the limit, setup fails the read on
    the spot with the 413 error "entity.too.large" carrying the expected
    length and the limit: it touches the stream in no way (the trace is
    empty, no listener is attached), and whatever the stream signals
    afterwards no listener is ever attached and no byte is counted; the
    failure is what the first tick delivers. *)
Theorem length_over_limit_fails (s : Stream) (fin : bool) (len lim : Z) :
  length = Some len -> limit = Some lim -> lim < len ->
  trace (READ (world dstate s fin)) = []
  /\ listeners (READ (world dstate s fin)) = []
  /\ complete (READ (world dstate s fin)) = true
  /\ nextTick (READ (world dstate s fin)) =
     [Failure (HttpError 413 "request entity too large"
        (mkProps (Some "entity.too.large"%string) None (Some len) (Some len) (Some lim)
           None None None None))]
  /\ (forall sigs,
        received << s, fin, sigs >> = 0
        /\ listeners << s, fin, sigs >> = []
        /\ never_attached (trace << s, fin, sigs >>) = true
        /\ calls (trace << s, fin, sigs >>) =
           if existsb is_tick sigs
           then [Failure (HttpError 413 "request entity too large"
                   (mkProps (Some "entity.too.large"%string) None (Some len) (Some len)
                      (Some lim) None None None None))]
           else []).
Proof.
  intros Hlen Hlim Hover.
  assert (Hfast : length_over_limit length limit = true).
  { unfold length_over_limit. rewrite Hlen, Hlim. apply Z.gtb_lt. exact Hover. }
  assert (Herr : HttpError 413 "request entity too large"
            (mkProps (Some "entity.too.large"%string) None (Some len) (Some len) (Some lim)
               None None None None)
          = entity_too_large_expected length limit).
  { unfold entity_too_large_expected, createHttpError. rewrite Hlen, Hlim. reflexivity. }
  rewrite Herr.
  assert (E : READ (world dstate s fin)
              = DONE (Failure (entity_too_large_expected length limit))
                     (set_sync dstate true (set_complete dstate false (world dstate s fin)))).
  { unfold readStream. rewrite Hfast. reflexivity. }
  rewrite done_sync in E by reflexivity.
  repeat split; try (rewrite E; reflexivity).
  - destruct (quiet_run sigs (READ (world dstate s fin))) as (_ & Q & _);
      [rewrite E; reflexivity|].
    rewrite Q, E. reflexivity.
  - apply quiet_run. rewrite E; reflexivity.
  - apply quiet_run; rewrite E; reflexivity.
  - apply pending_run; rewrite E; reflexivity.
Qed.

(** C6.  Setup never invokes the callback: whatever it finds, the
    initiating call returns with nothing delivered.  A failure setup
    detects (an expected length over the limit, an encoding set on the
    stream, a decoder that cannot be had) is queued for the next tick;
    until a tick runs nothing is delivered, and from the first tick on
    exactly that failure has been delivered, once. *)
Theorem always_asynchronous (s : Stream) (fin : bool) :
  calls (trace (READ (world dstate s fin))) = []
  /\ (complete (READ (world dstate s fin)) = true ->
      exists err,
        nextTick (READ (world dstate s fin)) = [Failure err]
        /\ forall sigs,
             calls (trace << s, fin, sigs >>) =
               if existsb is_tick sigs then [Failure err] else [])
  /\ (length_over_limit length limit = true ->
      nextTick (READ (world dstate s fin)) = [Failure (entity_too_large_expected length limit)])
  /\ (length_over_limit length limit = false -> encoding_set s = true ->
      nextTick (READ (world dstate s fin)) = [Failure stream_encoding_set])
  /\ (forall err,
        length_over_limit length limit = false -> encoding_set s = false ->
        getDecoder dstate iconv_getDecoder encoding = inr err ->
        nextTick (READ (world dstate s fin)) = [Failure err])
  /\ (nextTick (READ (world dstate s fin)) <> [] ->
      complete (READ (world dstate s fin)) = true).
Proof.
  repeat split.
  - rewrite readStream_calls. reflexivity.
  - intros Hc.
    destruct (readStream_pending _ (clean_world s fin) Hc) as (err & Hn & Hl & Hcalls & _).
    exists err. split; [exact Hn|]. intros sigs. apply pending_run; assumption.
  - intros H. unfold readStream. rewrite H. rewrite done_sync by reflexivity. reflexivity.
  - intros H1 H2. unfold readStream. rewrite H1. cbn [stream set_sync set_complete world].
    rewrite H2. rewrite done_sync by reflexivity. reflexivity.
  - intros err H1 H2 H3. unfold readStream. rewrite H1. cbn [stream set_sync set_complete world].
    rewrite H2, H3. rewrite done_sync by reflexivity. reflexivity.
  - unfold readStream.
    destruct (length_over_limit length limit);
      [rewrite done_sync by reflexivity; reflexivity|].
    cbn [stream set_sync set_complete world].
    destruct (encoding_set s); [rewrite done_sync by reflexivity; reflexivity|].
    destruct (getDecoder dstate iconv_getDecoder encoding);
      [|rewrite done_sync by reflexivity; reflexivity].
    cbn. congruence.
Qed.


(** *** Further facts about the accumulator *)

Lemma invoke_buffer (args : Args) (st : state dstate) :
  buffer (INVOKE args st) = BufNull.
Proof.
  unfold invokeCallback.
  match goal with |- context [perform_all dstate ?l ?s] =>
    destruct (perform_all_fields l s) as (_ & _ & _ & _ & H5 & _)
  end.
  rewrite H5. destruct args; reflexivity.
Qed.

Lemma settled_complete (sigs : list signal) (st : state dstate) :
  listeners st = [] -> nextTick st = [] ->
  complete (RUN st sigs) = complete st /\ listeners (RUN st sigs) = [].
Proof.
  revert st; induction sigs as [|sig sigs IH]; intros st Hl Hn; cbn; [split; [reflexivity|exact Hl]|].
  destruct (settled_step sig st Hl Hn) as (H1 & H2 & H3 & _).
  unfold run in IH. destruct (IH _ H1 H2) as [G1 G2]. rewrite G1, G2, H3. split; reflexivity.
Qed.

(** X1.  A stream that closes while the read is in progress ends it
    silently: the five listeners are removed, the buffer is dropped, and
    whatever happens afterwards the read is never completed and the
    callback never invoked. *)
Theorem close_abandons_read (s : Stream) (fin : bool) (sigs more : list signal) :
  complete << s, fin, sigs >> = false ->
  listeners << s, fin, sigs >> <> [] ->
  trace (STEP << s, fin, sigs >> Close) = trace << s, fin, sigs >> ++ removals
  /\ listeners (STEP << s, fin, sigs >> Close) = []
  /\ buffer (STEP << s, fin, sigs >> Close) = BufNull
  /\ complete (RUN (STEP << s, fin, sigs >> Close) more) = false
  /\ listeners (RUN (STEP << s, fin, sigs >> Close) more) = []
  /\ calls (trace (RUN (STEP << s, fin, sigs >> Close) more)) = [].
Proof.
  intros Hc Hne.
  pose proof (wf_reachable s fin sigs) as Hwf.
  set (st := << s, fin, sigs >>) in *.
  destruct (reading_inv st Hwf Hc Hne) as (Hs & Hf & Hn & Hcalls & Hb).
  rewrite step_reading by exact Hf.
  destruct (cleanup_fields st) as (H1 & H2 & H3 & H4 & H5 & H6 & H7).
  assert (Hl : listeners (cleanup dstate st) = []) by (rewrite H6, Hf; reflexivity).
  assert (Hq : nextTick (cleanup dstate st) = []) by congruence.
  destruct (settled_complete more _ Hl Hq) as [G1 G2].
  repeat split; try assumption.
  - congruence.
  - rewrite settled_run by assumption. rewrite H7, calls_app, Hcalls. reflexivity.
Qed.

(** X2.  An error of the stream while the read is in progress is handed to
    the callback as it is, with no status and no property added, after
    the listeners have been removed and the stream unpiped and paused;
    nothing that follows replaces it. *)
Theorem stream_error_forwarded (s : Stream) (fin : bool) (sigs more : list signal)
    (message : string) :
  complete << s, fin, sigs >> = false ->
  listeners << s, fin, sigs >> <> [] ->
  trace (STEP << s, fin, sigs >> (StreamError message)) =
    trace << s, fin, sigs >> ++ removals
    ++ [E_unpipe; E_pause; E_callback (Failure (PlainError message))]
    ++ List.map effect_of (callback (Failure (PlainError message)))
  /\ listeners (STEP << s, fin, sigs >> (StreamError message)) = []
  /\ calls (trace (RUN (STEP << s, fin, sigs >> (StreamError message)) more))
     = [Failure (PlainError message)].
Proof.
  intros Hc Hne.
  pose proof (wf_reachable s fin sigs) as Hwf.
  set (st := << s, fin, sigs >>) in *.
  destruct (reading_inv st Hwf Hc Hne) as (Hs & Hf & Hn & Hcalls & Hb).
  rewrite step_reading by exact Hf.
  unfold onEnd. rewrite Hc.
  destruct (reading_done (Failure (PlainError message)) st st Hwf Hc Hne)
    as (H1 & H2 & H3 & H4 & H5 & H6); try reflexivity.
  repeat split; try assumption.
  rewrite settled_run by assumption. exact H2.
Qed.

(** Chunks that stay within the limit leave the read in progress and the
    stream alone. *)
Lemma data_within_limit (chunks : list Buffer) (st : state dstate) :
  complete st = false -> sync st = false -> listeners st = five -> buffer_ok st ->
  (forall n, n <= received st + total chunks -> over_limit limit n = false) ->
  complete (RUN st (List.map Data chunks)) = false
  /\ sync (RUN st (List.map Data chunks)) = false
  /\ listeners (RUN st (List.map Data chunks)) = five
  /\ nextTick (RUN st (List.map Data chunks)) = nextTick st
  /\ trace (RUN st (List.map Data chunks)) = trace st.
Proof.
  revert st; induction chunks as [|c chunks IH]; intros st Hc Hs Hl Hb Hlim.
  { cbn. repeat split; assumption. }
  cbn [List.map run fold_left].
  change (fold_left STEP (List.map Data chunks) (STEP st (Data c)))
    with (RUN (STEP st (Data c)) (List.map Data chunks)).
  change (total (c :: chunks)) with (Buffer_length c + total chunks) in Hlim.
  pose proof (total_nonneg chunks) as Ht.
  assert (Hov : over_limit limit (received st + Buffer_length c) = false).
  { apply Hlim. lia. }
  rewrite step_reading by exact Hl.
  unfold onData. rewrite Hc. cbn [received set_received]. rewrite Hov.
  cbn [decoder buffer set_received]. unfold buffer_ok in Hb.
  destruct (decoder st) as [d|] eqn:Ed; destruct (buffer st) as [b|l|] eqn:Eb;
    try contradiction.
  - destruct (decoder_write d c) as [d' out].
    match goal with |- context [RUN ?s' _] =>
      destruct (IH s') as (G1 & G2 & G3 & G4 & G5); try assumption; try exact I
    end.
    + intros n Hn. cbn in Hn. apply Hlim. lia.
    + rewrite G1, G2, G3, G4, G5. repeat split.
  - match goal with |- context [RUN ?s' _] =>
      destruct (IH s') as (G1 & G2 & G3 & G4 & G5); try assumption
    end.
    + unfold buffer_ok; cbn. rewrite Ed. exact I.
    + intros n Hn. cbn in Hn. apply Hlim. lia.
    + rewrite G1, G2, G3, G4, G5. repeat split.
Qed.

(** A limit and an expected length that are integers, or absent: what
    the comparisons of the accumulator give on them. *)
Lemma integer_bounds (n : Z) :
  (limit = None \/ exists lim : Z, limit = Some lim /\ n <= lim) ->
  (length = None \/ length = Some n) ->
  (forall k, k <= n -> over_limit limit k = false)
  /\ length_over_limit length limit = false
  /\ size_mismatch length n = false.
Proof.
  intros Hlim Hlen. unfold over_limit, length_over_limit, size_mismatch.
  destruct Hlim as [-> |(lim & -> & Hle)]; destruct Hlen as [-> | ->]; cbn;
    repeat split; try reflexivity; try (intros k Hk); lia.
Qed.

(** A read that starts from a clean state, on chunks within the limit
    followed by the end of the stream. *)
Lemma succeeds_from (st : state dstate) (chunks : list Buffer) (d : option dstate) :
  clean st ->
  encoding_set (stream st) = false ->
  getDecoder dstate iconv_getDecoder encoding = inl d ->
  (forall n, n <= total chunks -> over_limit limit n = false) ->
  length_over_limit length limit = false ->
  size_mismatch length (total chunks) = false ->
  trace (RUN (READ st) (List.map Data chunks ++ [EndOfStream])) =
    trace st ++ List.map (fun l => E_on (fst l) (snd l)) five
    ++ delivery (Success (body_of dstate decoder_write decoder_end d chunks))
  /\ calls (trace (RUN (READ st) (List.map Data chunks ++ [EndOfStream]))) =
     [Success (body_of dstate decoder_write decoder_end d chunks)]
  /\ received (RUN (READ st) (List.map Data chunks ++ [EndOfStream])) = total chunks.
Proof.
  intros [Cl Cn Cc Cr Cp Cd] Henc Hdec Hlim Hlol Hmis.
  set (st0 := READ st).
  assert (Hst0 : complete st0 = false /\ sync st0 = false /\ listeners st0 = five
                 /\ nextTick st0 = [] /\ received st0 = 0 /\ decoder st0 = d
                 /\ buffer st0 = match d with
                                 | Some _ => BufString []
                                 | None => BufChunks []
                                 end
                 /\ trace st0
                    = trace st ++ List.map (fun l => E_on (fst l) (snd l)) five).
  { unfold st0, readStream. rewrite Hlol. cbn [stream set_sync set_complete].
    rewrite Henc, Hdec. cbn. rewrite Cl, Cn, <- !app_assoc. repeat split. }
  destruct Hst0 as (Hc & Hs & Hl & Hn & Hr & Hd & Hb & Htr).
  assert (Hok : buffer_ok st0).
  { unfold buffer_ok. rewrite Hd, Hb. destruct d; exact I. }
  destruct (data_within_limit chunks st0 Hc Hs Hl Hok) as (G1 & G2 & G3 & G4 & G5).
  { intros n Hle. rewrite Hr in Hle. apply Hlim. lia. }
  destruct (accumulate chunks st0 Hc Hs Hl Hok G1) as [A1 A2].
  rewrite Hr, Z.add_0_l in A1.
  assert (Hbody : final_body dstate decoder_end (RUN st0 (List.map Data chunks))
                  = body_of dstate decoder_write decoder_end d chunks).
  { rewrite A2, Hd, Hb. destruct d; reflexivity. }
  unfold run. rewrite fold_left_app. cbn [fold_left].
  change (fold_left STEP (List.map Data chunks) st0) with (RUN st0 (List.map Data chunks)).
  set (st1 := RUN st0 (List.map Data chunks)) in *.
  rewrite step_reading by exact G3.
  unfold onEnd. rewrite G1, A1, Hmis, Hbody.
  match goal with |- context [DONE ?a _] =>
    destruct (done_fields a st1 G2) as (D1 & D2 & D3 & D4 & D5)
  end.
  rewrite D5, D2, G5, Htr, !calls_app, Cc, calls_delivery, <- app_assoc.
  repeat split. exact A1.
Qed.

Lemma total_app (l1 l2 : list Buffer) : total (l1 ++ l2) = total l1 + total l2.
Proof.
  unfold total. induction l1 as [|c l1 IH]; cbn [app fold_right]; [reflexivity|].
  rewrite IH. lia.
Qed.

Local Notation "'BOUNDED' st" :=
  (0 <= received st
   /\ (received st = 0 \/ over_limit limit (received st) = false)
   /\ (forall l, buffer st = BufChunks l -> total l = received st))
  (at level 10, st at level 9).

Lemma bounded_step (sig : signal) (st : state dstate) :
  wf st ->
  (complete st = false -> listeners st <> [] -> BOUNDED st) ->
  complete (STEP st sig) = false -> listeners (STEP st sig) <> [] ->
  BOUNDED (STEP st sig).
Proof.
  intros Hwf HP Hc' Hne'.
  assert (Hne : listeners st <> []).
  { intros Hl. destruct (quiet_step sig st Hl) as (H1 & _). contradiction. }
  assert (Hc : complete st = false).
  { destruct Hwf as [[a| | |a] _ _]; congruence. }
  specialize (HP Hc Hne). destruct HP as (P1 & P2 & P3).
  destruct (reading_inv st Hwf Hc Hne) as (Hs & Hf & Hn & Hcalls & Hb).
  assert (Hdone : forall args st', sync st' = false -> listeners st' = five ->
                    listeners (DONE args st') = []).
  { intros args st' E1 E2. destruct (done_fields args st' E1) as (_ & _ & _ & H4 & _).
    rewrite H4, E2. reflexivity. }
  rewrite step_reading in * by exact Hf.
  destruct sig as [chunk| |message| | | | |].
  - unfold onData in *. rewrite Hc in *. cbn [received set_received] in *.
    assert (Hlen : 0 <= Buffer_length chunk) by (unfold Buffer_length; lia).
    destruct (over_limit limit (received st + Buffer_length chunk)) eqn:Hov.
    { exfalso. apply Hne'. apply Hdone; [exact Hs|exact Hf]. }
    cbn [decoder buffer set_received] in *. unfold buffer_ok in Hb.
    destruct (decoder st) as [d|] eqn:Ed; destruct (buffer st) as [b|l|] eqn:Eb;
      try contradiction.
    + destruct (decoder_write d chunk) as [d' out]. cbn.
      split; [lia|]. split; [right; exact Hov|]. intros l E. discriminate E.
    + cbn. split; [lia|]. split; [right; exact Hov|].
      intros l0 E. injection E as <-. rewrite total_app, (P3 l eq_refl).
      unfold total; cbn [fold_right]. lia.
  - exfalso. apply Hne'. unfold onEnd. rewrite Hc.
    destruct (size_mismatch length (received st)); apply Hdone; assumption.
  - exfalso. apply Hne'. unfold onEnd. rewrite Hc. apply Hdone; assumption.
  - exfalso. apply Hne'. unfold onAborted. rewrite Hc. apply Hdone; assumption.
  - exfalso. apply Hne'. destruct (cleanup_fields st) as (_ & _ & _ & _ & _ & H6 & _).
    rewrite H6, Hf. reflexivity.
  - rewrite Hn. repeat split; assumption.
  - match goal with |- context [fire dstate ?l ?s] =>
      destruct (fire_fields l s) as (_ & _ & H3 & _ & H5 & _)
    end.
    rewrite H3, H5. cbn. repeat split; assumption.
  - match goal with |- context [fire dstate ?l ?s] =>
      destruct (fire_fields l s) as (_ & _ & H3 & _ & H5 & _)
    end.
    rewrite H3, H5. cbn. repeat split; assumption.
Qed.

Lemma bounded_run (sigs : list signal) (st : state dstate) :
  wf st ->
  (complete st = false -> listeners st <> [] -> BOUNDED st) ->
  complete (RUN st sigs) = false -> listeners (RUN st sigs) <> [] ->
  BOUNDED (RUN st sigs).
Proof.
  revert st; induction sigs as [|sig sigs IH]; intros st Hwf HP; [exact HP|].
  cbn [run fold_left].
  change (fold_left STEP sigs (STEP st sig)) with (RUN (STEP st sig) sigs).
  apply IH; [apply wf_step, Hwf|]. apply bounded_step; assumption.
Qed.

(** While the read is in progress the last count was not over the
    limit, and without a decoder the buffer holds exactly the bytes
    counted. *)
Lemma bounded_reachable (s : Stream) (fin : bool) (sigs : list signal) :
  complete << s, fin, sigs >> = false ->
  listeners << s, fin, sigs >> <> [] ->
  0 <= received << s, fin, sigs >>
  /\ (received << s, fin, sigs >> = 0
      \/ over_limit limit (received << s, fin, sigs >>) = false)
  /\ (forall l, buffer << s, fin, sigs >> = BufChunks l ->
        total l = received << s, fin, sigs >>).
Proof.
  apply bounded_run.
  - apply wf_readStream, clean_world.
  - intros Hc Hne.
    destruct (readStream_attached (world dstate s fin) eq_refl Hne)
      as (d & _ & _ & _ & _ & _ & _ & _ & Hb & Hr).
    rewrite Hr, Hb. split; [lia|]. split; [left; reflexivity|].
    intros l E. destruct d; [discriminate E|]. injection E as <-. reflexivity.
Qed.

(** A step that delivers an outcome appends exactly one delivery to the
    trace. *)
Lemma step_delivery (sig : signal) (st : state dstate) (args : Args) :
  wf st -> calls (trace st) = [] -> calls (trace (STEP st sig)) = [args] ->
  trace (STEP st sig) = trace st ++ delivery args.
Proof.
  intros Hwf Hcalls Hafter. pose proof Hwf as [Hph Hl Hd].
  assert (Hsame : forall st' : state dstate, trace st' = trace st -> calls (trace st') = [args] -> False).
  { intros st' E H. rewrite E, Hcalls in H. discriminate H. }
  assert (Hdone : forall a (st' : state dstate), sync st' = false -> trace st' = trace st ->
                    calls (trace (DONE a st')) = [args] ->
                    trace (DONE a st') = trace st ++ delivery a /\ a = args).
  { intros a st' E1 E2 H. destruct (done_fields a st' E1) as (_ & _ & _ & _ & H5).
    rewrite H5, E2 in *. rewrite calls_app, Hcalls, calls_delivery in H.
    injection H as ->. split; reflexivity. }
  assert (Hfire : forall l (st' : state dstate), trace st' = trace st ->
                    calls (trace (fire dstate l st')) = [args] -> False).
  { intros l st' E H.
    destruct (fire_fields l st') as (_ & _ & _ & _ & _ & _ & _ & _ & _ & _ & _ & H12).
    rewrite H12, calls_app, calls_nexts, app_nil_r, E, Hcalls in H. discriminate H. }
  destruct Hph as [a Hk Hs Hls Hn _ Hr Hf|Hk Hs Hls Hn _ Hb|Hk Hs Hls Hn _|a Hk Hls Hn Hc];
    [| | |congruence].
  - (* pending *)
    destruct sig; try (rewrite step_detached in Hafter by (assumption || reflexivity);
                       congruence);
      cbn [step] in *; try (exfalso; eapply Hfire; [|exact Hafter]; reflexivity).
    rewrite Hn in *.
    destruct (invoke_fields a (set_nextTick dstate [] st)) as (_ & _ & _ & _ & _ & H6).
    rewrite H6 in *. cbn [trace set_nextTick] in *.
    rewrite calls_app, Hcalls, calls_delivery in Hafter. injection Hafter as ->. reflexivity.
  - (* reading *)
    rewrite step_reading in * by exact Hls.
    destruct sig as [chunk| |message| | | | |];
      try (exfalso; eapply Hfire; [|exact Hafter]; reflexivity).
    + unfold onData in *. rewrite Hk in *. cbn [received set_received] in *.
      destruct (over_limit limit (received st + Buffer_length chunk)).
      * match type of Hafter with context [DONE ?a ?s'] =>
          destruct (Hdone a s' Hs eq_refl Hafter) as [E <-]; exact E
        end.
      * exfalso. cbn [decoder buffer set_received] in Hafter.
        destruct (decoder st) as [d|]; destruct (buffer st) as [t|l|];
          try (eapply Hsame; [|exact Hafter]; reflexivity).
        destruct (decoder_write d chunk) as [d' out].
        eapply Hsame; [|exact Hafter]; reflexivity.
    + unfold onEnd in *. rewrite Hk in *.
      destruct (size_mismatch length (received st));
        match type of Hafter with context [DONE ?a ?s'] =>
          destruct (Hdone a s' Hs eq_refl Hafter) as [E <-]; exact E
        end.
    + unfold onEnd in *. rewrite Hk in *.
      match type of Hafter with context [DONE ?a ?s'] =>
        destruct (Hdone a s' Hs eq_refl Hafter) as [E <-]; exact E
      end.
    + unfold onAborted in *. rewrite Hk in *.
      match type of Hafter with context [DONE ?a ?s'] =>
        destruct (Hdone a s' Hs eq_refl Hafter) as [E <-]; exact E
      end.
    + exfalso. destruct (cleanup_fields st) as (_ & _ & _ & _ & _ & _ & H7).
      rewrite H7, calls_app, Hcalls in Hafter. discriminate Hafter.
    + rewrite Hn in Hafter. congruence.
  - (* closed *)
    destruct (settled_step sig st Hls Hn) as (_ & _ & _ & H4). congruence.
Qed.


(** The state setup leaves when it finds nothing wrong. *)
Lemma readStream_reading (st : state dstate) (d : option dstate) :
  clean st ->
  length_over_limit length limit = false ->
  encoding_set (stream st) = false ->
  getDecoder dstate iconv_getDecoder encoding = inl d ->
  complete (READ st) = false /\ sync (READ st) = false /\ listeners (READ st) = five
  /\ received (READ st) = 0 /\ buffer_ok (READ st).
Proof.
  intros [Cl Cn Cc Cr Cp Cd] Hlol Henc Hdec.
  unfold readStream. rewrite Hlol. cbn [stream set_sync set_complete].
  rewrite Henc, Hdec. cbn. rewrite Cl. repeat split.
  unfold buffer_ok. cbn. destruct d; exact I.
Qed.

(** Chunks within the limit, on a sound stream: the read is in progress
    and has counted them. *)
Lemma reads_chunks (s : Stream) (fin : bool) (d : option dstate) (chunks : list Buffer) :
  encoding_set s = false ->
  getDecoder dstate iconv_getDecoder encoding = inl d ->
  length_over_limit length limit = false ->
  (forall n, n <= total chunks -> over_limit limit n = false) ->
  complete << s, fin, List.map Data chunks >> = false
  /\ listeners << s, fin, List.map Data chunks >> = five
  /\ received << s, fin, List.map Data chunks >> = total chunks.
Proof.
  intros Henc Hdec Hlol Hlim.
  destruct (readStream_reading (world dstate s fin) d (clean_world s fin) Hlol Henc Hdec)
    as (Hc & Hs & Hl & Hr & Hok).
  destruct (data_within_limit chunks _ Hc Hs Hl Hok) as (G1 & G2 & G3 & G4 & G5).
  { intros n Hle. rewrite Hr in Hle. apply Hlim. lia. }
  destruct (accumulate chunks _ Hc Hs Hl Hok G1) as [A1 _].
  rewrite Hr, Z.add_0_l in A1. repeat split; assumption.
Qed.

(** The first chunk that takes the count over the limit fails the read,
    whatever follows. *)
Lemma fails_over_limit (s : Stream) (fin : bool) (d : option dstate)
    (pre : list Buffer) (chunk : Buffer) (post : list signal) :
  encoding_set s = false ->
  getDecoder dstate iconv_getDecoder encoding = inl d ->
  length_over_limit length limit = false ->
  (forall n, n <= total pre -> over_limit limit n = false) ->
  over_limit limit (total pre + Buffer_length chunk) = true ->
  calls (trace << s, fin, List.map Data pre ++ Data chunk :: post >>) =
    [Failure (entity_too_large limit (total pre + Buffer_length chunk))].
Proof.
  intros Henc Hdec Hlol Hpre Hover.
  destruct (reads_chunks s fin d pre Henc Hdec Hlol Hpre) as (Hc & Hl & Hr).
  unfold run. rewrite fold_left_app. cbn [fold_left].
  change (fold_left STEP (List.map Data pre) ?x) with (RUN x (List.map Data pre)).
  change (fold_left STEP post ?x) with (RUN x post).
  pose proof (wf_reachable s fin (List.map Data pre)) as Hwf.
  set (st := << s, fin, List.map Data pre >>) in *.
  assert (Hne : listeners st <> []) by (rewrite Hl; discriminate).
  rewrite step_reading by exact Hl.
  unfold onData. rewrite Hc. cbn [received set_received]. rewrite Hr, Hover.
  match goal with |- context [DONE ?a ?s'] =>
    destruct (reading_done a st s' Hwf Hc Hne) as (H1 & H2 & H3 & H4 & H5 & H6);
      try reflexivity
  end.
  rewrite settled_run by assumption. exact H2.
Qed.

(** A stream that ends within the limit with a count the expected length
    differs from fails the read, whatever follows. *)
Lemma fails_size_mismatch (s : Stream) (fin : bool) (d : option dstate)
    (chunks : list Buffer) (post : list signal) :
  encoding_set s = false ->
  getDecoder dstate iconv_getDecoder encoding = inl d ->
  length_over_limit length limit = false ->
  (forall n, n <= total chunks -> over_limit limit n = false) ->
  size_mismatch length (total chunks) = true ->
  calls (trace << s, fin, List.map Data chunks ++ EndOfStream :: post >>) =
    [Failure (request_size_invalid length (total chunks))].
Proof.
  intros Henc Hdec Hlol Hlim Hmis.
  destruct (reads_chunks s fin d chunks Henc Hdec Hlol Hlim) as (Hc & Hl & Hr).
  unfold run. rewrite fold_left_app. cbn [fold_left].
  change (fold_left STEP (List.map Data chunks) ?x) with (RUN x (List.map Data chunks)).
  change (fold_left STEP post ?x) with (RUN x post).
  pose proof (wf_reachable s fin (List.map Data chunks)) as Hwf.
  set (st := << s, fin, List.map Data chunks >>) in *.
  assert (Hne : listeners st <> []) by (rewrite Hl; discriminate).
  rewrite step_reading by exact Hl.
  unfold onEnd. rewrite Hc, Hr, Hmis.
  match goal with |- context [DONE ?a ?s'] =>
    destruct (reading_done a st s' Hwf Hc Hne) as (H1 & H2 & H3 & H4 & H5 & H6);
      try reflexivity
  end.
  rewrite settled_run by assumption. exact H2.
Qed.

(** X18.  The accumulator never leaks a listener.  At every moment the
    stream carries either the five listeners of a read in progress or
    none of them, as the calls to [on] and [removeListener] in the trace
    say; they are there only while the read is incomplete, with nothing
    delivered and nothing queued, and a complete read has none. *)
Theorem listeners_five_or_none (s : Stream) (fin : bool) (sigs : list signal) :
  (listeners << s, fin, sigs >> = five \/ listeners << s, fin, sigs >> = [])
  /\ listeners_of (trace << s, fin, sigs >>) = listeners << s, fin, sigs >>
  /\ (complete << s, fin, sigs >> = true -> listeners << s, fin, sigs >> = [])
  /\ (listeners << s, fin, sigs >> = five ->
      complete << s, fin, sigs >> = false
      /\ calls (trace << s, fin, sigs >>) = []
      /\ nextTick << s, fin, sigs >> = []).
Proof.
  destruct (wf_reachable s fin sigs) as [Hph Hl _].
  set (st := << s, fin, sigs >>) in *.
  split; [|split; [exact Hl|split]].
  - destruct Hph as [a| | |a]; tauto.
  - intros Hc. destruct Hph as [a| | |a]; congruence.
  - intros H5.
    destruct Hph as [a ? ? Hls|? ? Hls|? ? Hls|a ? Hls]; try (rewrite Hls in H5; discriminate H5).
    repeat split; assumption.
Qed.

End AccumulatorFacts.

(** * The accumulator on integer counts

    The facts of this section are about an expected length and a limit
    that are integers, or absent. *)

Section IntegerCounts.

Import RawBody.

Variable dstate : Type.
Variable iconv_getDecoder : string -> dstate + string.
Variable decoder_write : dstate -> Buffer -> dstate * Text.
Variable decoder_end : dstate -> option Text.
Variable callback : Args -> list action.
Variable encoding : option string.
Variables length limit : option Z.

Local Notation "<< s , fin , sigs >>" :=
  (run dstate decoder_write decoder_end callback
       (option_map Int length) (option_map Int limit)
       (readStream dstate iconv_getDecoder callback encoding
                   (option_map Int length) (option_map Int limit) (world dstate s fin))
       sigs).

Lemma integers_within (n : Z) :
  (forall lim, limit = Some lim -> n <= lim) ->
  (forall len, length = Some len -> n = len) ->
  (forall k, k <= n -> over_limit (option_map Int limit) k = false)
  /\ length_over_limit (option_map Int length) (option_map Int limit) = false
  /\ size_mismatch (option_map Int length) n = false.
Proof.
  intros Hlim Hlen. apply integer_bounds.
  - case_eq limit; [|left; reflexivity].
    intros lim E. right. exists lim. split; [reflexivity|exact (Hlim lim E)].
  - case_eq length; [|left; reflexivity].
    intros len E. right. rewrite (Hlen len E). reflexivity.
Qed.

(** X3.  A stream that delivers chunks within the limit and then ends,
    with the expected length (when there is one) equal to the bytes
    delivered: the read attaches its five listeners, touches the stream in
    no other way while the chunks arrive, and at the end removes the
    listeners and invokes the callback once, with the concatenation of the
    chunks or, with a decoder, their decoded text.  The limit is
    inclusive, and the stream is neither unpiped nor paused. *)
Theorem read_succeeds (s : Stream) (fin : bool) (chunks : list Buffer)
    (d : option dstate) :
  encoding_set s = false ->
  getDecoder dstate iconv_getDecoder encoding = inl d ->
  (forall lim, limit = Some lim -> total chunks <= lim) ->
  (forall len, length = Some len -> total chunks = len) ->
  trace << s, fin, List.map Data chunks ++ [EndOfStream] >> =
    List.map (fun l => E_on (fst l) (snd l)) five ++ removals
    ++ E_callback (Success (body_of dstate decoder_write decoder_end d chunks))
       :: List.map effect_of
            (callback (Success (body_of dstate decoder_write decoder_end d chunks)))
  /\ calls (trace << s, fin, List.map Data chunks ++ [EndOfStream] >>) =
     [Success (body_of dstate decoder_write decoder_end d chunks)]
  /\ received << s, fin, List.map Data chunks ++ [EndOfStream] >> = total chunks
  /\ (d = None ->
      calls (trace << s, fin, List.map Data chunks ++ [EndOfStream] >>) =
        [Success (BodyBuffer (List.concat chunks))]).
Proof.
  intros Henc Hdec Hlim Hlen.
  destruct (integers_within (total chunks) Hlim Hlen) as (B1 & B2 & B3).
  destruct (succeeds_from dstate iconv_getDecoder decoder_write decoder_end callback
              encoding (option_map Int length) (option_map Int limit)
              (world dstate s fin) chunks d (clean_world dstate s fin)
              Henc Hdec B1 B2 B3) as (H1 & H2 & H3).
  repeat split; try assumption.
  intros ->. exact H2.
Qed.

(** X4.  While the read is in progress the bytes counted stay within the
    limit (a chunk that takes them over it ends the read), and without a
    decoder the buffer holds exactly the bytes counted. *)
Theorem buffer_bounded (s : Stream) (fin : bool) (sigs : list signal) :
  complete << s, fin, sigs >> = false ->
  listeners << s, fin, sigs >> <> [] ->
  0 <= received << s, fin, sigs >>
  /\ (forall lim, limit = Some lim ->
        received << s, fin, sigs >> = 0 \/ received << s, fin, sigs >> <= lim)
  /\ (forall l, buffer << s, fin, sigs >> = BufChunks l ->
        total l = received << s, fin, sigs >>).
Proof.
  intros Hc Hne.
  destruct (bounded_reachable dstate iconv_getDecoder decoder_write decoder_end callback
              encoding (option_map Int length) (option_map Int limit) s fin sigs Hc Hne)
    as (B1 & B2 & B3).
  set (st := << s, fin, sigs >>) in *.
  split; [exact B1|]. split; [|exact B3].
  intros lim E. destruct B2 as [B2|B2]; [left; exact B2|right].
  assert (H : over_limit (Some (Int lim)) (received st) = false).
  { rewrite <- B2. f_equal. rewrite E. reflexivity. }
  cbn in H. lia.
Qed.

(** X15.  The two ways a body that arrives on a sound stream fails.  The
    first chunk that takes the bytes received over the limit fails the
    read with the 413 error "entity.too.large", which carries the limit
    and the bytes received up to and including that chunk.  A stream
    that ends within the limit with a number of bytes other than the
    expected length fails it with the 400 error "request.size.invalid",
    which carries both numbers.  Whatever follows changes neither. *)
Theorem read_fails (s : Stream) (fin : bool) (d : option dstate) :
  encoding_set s = false ->
  getDecoder dstate iconv_getDecoder encoding = inl d ->
  (forall pre chunk post lim,
     limit = Some lim -> (forall len, length = Some len -> len <= lim) ->
     total pre <= lim -> lim < total pre + Buffer_length chunk ->
     calls (trace << s, fin, List.map Data pre ++ Data chunk :: post >>) =
       [Failure (HttpError 413 "request entity too large"
          (mkProps (Some "entity.too.large"%string) None None None (Some lim)
             (Some (total pre + Buffer_length chunk)) None None None))])
  /\ (forall chunks post len,
        length = Some len ->
        (forall lim, limit = Some lim -> total chunks <= lim /\ len <= lim) ->
        total chunks <> len ->
        calls (trace << s, fin, List.map Data chunks ++ EndOfStream :: post >>) =
          [Failure (HttpError 400 "request size did not match content length"
             (mkProps (Some "request.size.invalid"%string) None (Some len) (Some len) None
                (Some (total chunks)) None None None))]).
Proof.
  intros Henc Hdec.
  assert (Hlol : (forall lim len, limit = Some lim -> length = Some len -> len <= lim) ->
                 length_over_limit (option_map Int length) (option_map Int limit) = false).
  { intros H. unfold length_over_limit.
    case_eq limit; [|reflexivity]. intros lim El.
    case_eq length; [|reflexivity]. intros len En. cbn.
    specialize (H lim len El En). lia. }
  assert (Hwithin : forall n, (forall lim, limit = Some lim -> n <= lim) ->
                      forall k, k <= n -> over_limit (option_map Int limit) k = false).
  { intros n H k Hk. unfold over_limit.
    case_eq limit; [|reflexivity]. intros lim El. cbn. specialize (H lim El). lia. }
  split.
  - intros pre chunk post lim Hlimit Hlen Hpre Hover.
    assert (E : entity_too_large (option_map Int limit) (total pre + Buffer_length chunk)
                = HttpError 413 "request entity too large"
                    (mkProps (Some "entity.too.large"%string) None None None (Some lim)
                       (Some (total pre + Buffer_length chunk)) None None None)).
    { rewrite Hlimit. reflexivity. }
    rewrite <- E.
    apply (fails_over_limit dstate iconv_getDecoder decoder_write decoder_end callback
             encoding (option_map Int length) (option_map Int limit) s fin d pre chunk post
             Henc Hdec).
    + apply Hlol. intros lim' len El En. rewrite Hlimit in El. injection El as <-.
      exact (Hlen len En).
    + apply Hwithin. intros lim' El. rewrite Hlimit in El. injection El as <-. exact Hpre.
    + rewrite Hlimit. cbn. lia.
  - intros chunks post len Hlength Hlim Hdiff.
    assert (E : request_size_invalid (option_map Int length) (total chunks)
                = HttpError 400 "request size did not match content length"
                    (mkProps (Some "request.size.invalid"%string) None (Some len)
                       (Some len) None (Some (total chunks)) None None None)).
    { rewrite Hlength. reflexivity. }
    rewrite <- E.
    apply (fails_size_mismatch dstate iconv_getDecoder decoder_write decoder_end callback
             encoding (option_map Int length) (option_map Int limit) s fin d chunks post
             Henc Hdec).
    + apply Hlol. intros lim len' El En. rewrite Hlength in En. injection En as <-.
      exact (proj2 (Hlim lim El)).
    + apply Hwithin. intros lim El. exact (proj1 (Hlim lim El)).
    + rewrite Hlength. cbn. apply negb_true_iff, Z.eqb_neq. exact Hdiff.
Qed.

End IntegerCounts.

(** * Facts about the orchestrator *)

Section ReadFacts.

Import RawBody Read.

Variable dstate : Type.
Variable iconv_getDecoder : string -> dstate + string.
Variable decoder_write : dstate -> Buffer -> dstate * Text.
Variable decoder_end : dstate -> option Text.
Variable iconv_encodingExists : string -> bool.
Variable iconv_decode : Buffer -> string -> Text + Error.
Variable createError : Z -> Error -> Props -> Error.
Variable toUpperCase : string -> string.
Variable verify : option (Body -> option Error).
Variable parse : Body -> option Error.

Local Notation "'CB' enc" := (on_body iconv_decode createError toUpperCase verify parse enc)
  (at level 10, enc at level 9).
Local Notation "'CLASSIFY' enc" := (classify createError toUpperCase enc)
  (at level 10, enc at level 9).

(** *** What the callback does to the world *)

Lemma on_body_success (enc : option string) (body : Body) :
  exists e, CB enc (Success body) = [a_next e].
Proof.
  assert (H : exists e, parse_body iconv_decode createError parse enc body = [a_next e]).
  { unfold parse_body.
    destruct body as [t|b]; [|destruct enc as [c|]; [destruct (iconv_decode b c)|]];
      try (destruct (parse _); eexists; reflexivity); eexists; reflexivity. }
  cbn. destruct verify as [check|]; [destruct (check body)|]; try exact H.
  eexists; reflexivity.
Qed.

Lemma on_body_failure (enc : option string) (error _error : Error) :
  CLASSIFY enc error = Some _error ->
  CB enc (Failure error) = [a_resume; a_onFinished (createError 400 _error no_props)].
Proof. intros H. cbn. rewrite H. reflexivity. Qed.

(** An error that is not the accumulator's "encoding.unsupported" is
    always classified. *)
Lemma classify_other (enc : option string) (error : Error) :
  error_type error <> Some "encoding.unsupported"%string ->
  CLASSIFY enc error = Some (createError 400 error no_props).
Proof.
  intros H. unfold classify. destruct (error_type error) as [t|]; [|reflexivity].
  destruct (String.eqb_spec t "encoding.unsupported"); [congruence|reflexivity].
Qed.

Lemma classify_unsupported (enc c : string) :
  CLASSIFY (Some enc) (encoding_unsupported c)
  = Some (charset_unsupported toUpperCase enc).
Proof. reflexivity. Qed.

(** The delivery of a failure: the stream is halted, the callback resumes
    it and leaves the error with [onFinished]. *)
Lemma invoke_failure (enc : option string) (error _error : Error) (st : state dstate) :
  CLASSIFY enc error = Some _error ->
  trace (invokeCallback dstate (CB enc) (Failure error) st)
    = trace st ++ removals
      ++ [E_unpipe; E_pause; E_callback (Failure error); E_resume;
          E_onFinished (createError 400 _error no_props)]
  /\ paused (stream (invokeCallback dstate (CB enc) (Failure error) st)) = false
  /\ finished (invokeCallback dstate (CB enc) (Failure error) st) = finished st
  /\ on_finished (invokeCallback dstate (CB enc) (Failure error) st)
     = on_finished st ++ (if finished st then [] else [createError 400 _error no_props])
  /\ deferred (invokeCallback dstate (CB enc) (Failure error) st)
     = deferred st ++ (if finished st then [createError 400 _error no_props] else []).
Proof.
  intros H. unfold invokeCallback. rewrite (on_body_failure enc error _error H).
  cbn. unfold onFinished. cbn. destruct (finished st) eqn:E; cbn;
    rewrite <- ?app_assoc, ?app_nil_r, ?E; repeat split.
Qed.

Lemma invoke_success (enc : option string) (body : Body) (st : state dstate) :
  finished (invokeCallback dstate (CB enc) (Success body) st) = finished st
  /\ on_finished (invokeCallback dstate (CB enc) (Success body) st) = on_finished st
  /\ deferred (invokeCallback dstate (CB enc) (Success body) st) = deferred st.
Proof.
  unfold invokeCallback. destruct (on_body_success enc body) as [e ->].
  cbn. repeat split.
Qed.

(** *** The invariant of the orchestrator *)

Section Run.

Variable enc : option string.
Variables len lim : option Num.

Local Notation "'STEP'" := (step dstate decoder_write decoder_end (CB enc) len lim).
Local Notation "'INVOKE'" := (invokeCallback dstate (CB enc)).
Local Notation "'DONE'" := (done dstate (CB enc)).
Local Notation "'OK'" := (orchestrated dstate createError toUpperCase enc).

Lemma deliver_failure (error : Error) (st : state dstate) :
  CLASSIFY enc error <> None ->
  nextTick st = [] -> calls (trace st) = [] ->
  on_finished st = [] -> deferred st = [] -> nexts (trace st) = [] ->
  OK (INVOKE (Failure error) st).
Proof.
  intros Hcl Hn Hc Ho Hd Hx.
  destruct (CLASSIFY enc error) as [_error|] eqn:E; [|congruence].
  destruct (invoke_failure enc error _error st E) as (H1 & H2 & H3 & H4 & H5).
  destruct (invoke_fields dstate (CB enc) (Failure error) st) as (_ & _ & _ & G4 & _ & G6).
  split.
  - rewrite G4, Hn. intros e [].
  - rewrite G6, calls_app, Hc, calls_delivery. cbn [app].
    exists _error, (trace st ++ removals ++ [E_unpipe; E_pause]), [].
    repeat split.
    + exact E.
    + rewrite H1, <- !app_assoc. reflexivity.
    + rewrite !nexts_app, Hx. reflexivity.
    + exact H2.
    + rewrite H3, H4, H5, Ho, Hd. destruct (finished st); cbn; tauto.
Qed.

Lemma deliver_success (body : Body) (st : state dstate) :
  nextTick st = [] -> calls (trace st) = [] ->
  on_finished st = [] -> deferred st = [] ->
  OK (INVOKE (Success body) st).
Proof.
  intros Hn Hc Ho Hd.
  destruct (invoke_success enc body st) as (H1 & H2 & H3).
  destruct (invoke_fields dstate (CB enc) (Success body) st) as (_ & _ & _ & G4 & _ & G6).
  split.
  - rewrite G4, Hn. intros e [].
  - rewrite G6, calls_app, Hc, calls_delivery. cbn [app].
    rewrite H2, H3. split; assumption.
Qed.

(** A step that touches neither the queues nor the callbacks of the
    trace. *)
Lemma orchestrated_more (extra : list effect) (st st' : state dstate) :
  OK st ->
  nextTick st' = nextTick st -> trace st' = trace st ++ extra ->
  calls extra = [] -> nexts extra = [] ->
  on_finished st' = on_finished st -> deferred st' = deferred st ->
  finished st' = finished st -> stream st' = stream st ->
  OK st'.
Proof.
  intros [Hq Hc] E1 E2 X1 X2 E3 E4 E5 E6. split.
  - rewrite E1. exact Hq.
  - rewrite E2, calls_app, X1, app_nil_r.
    destruct (calls (trace st)) as [|[e|b] [|? ?]]; try contradiction.
    + rewrite nexts_app, X2, app_nil_r, E3, E4. exact Hc.
    + destruct Hc as (_error & pre & post & C1 & C2 & C3 & C4 & C5).
      exists _error, pre, (post ++ extra).
      rewrite E2, E3, E4, E5, E6, nexts_app, X2, app_nil_r, C2, <- app_assoc.
      repeat split; assumption.
    + rewrite E3, E4. exact Hc.
Qed.

Lemma orchestrated_same (st st' : state dstate) :
  OK st ->
  nextTick st' = nextTick st -> trace st' = trace st ->
  on_finished st' = on_finished st -> deferred st' = deferred st ->
  finished st' = finished st -> stream st' = stream st ->
  OK st'.
Proof.
  intros H E1 E2. apply (orchestrated_more [] st st' H E1); try reflexivity.
  rewrite app_nil_r. exact E2.
Qed.

Lemma nexts_fired (l : list Error) :
  nexts (List.map (fun e => E_next (Some e)) l) = List.map Some l.
Proof. induction l as [|e l IH]; cbn; [reflexivity|]. rewrite IH. reflexivity. Qed.

Lemma orchestrated_finished (st : state dstate) : OK st -> OK (STEP st Finished).
Proof.
  intros [Hq Hc]. cbn [step].
  match goal with |- context [fire dstate ?l ?s] =>
    destruct (fire_fields dstate l s)
      as (_ & _ & _ & _ & _ & _ & H7 & H8 & H9 & H10 & H11 & H12)
  end.
  cbn in H7, H8, H9, H10, H11, H12.
  split; [rewrite H7; exact Hq|].
  rewrite H12, calls_app, calls_nexts, app_nil_r.
  destruct (calls (trace st)) as [|[e|b] [|? ?]]; try contradiction.
  - destruct Hc as (Ho & Hd & Hx). rewrite H10, H11, nexts_app, nexts_fired, ?Ho, ?Hd, Hx. cbn. tauto.
  - destruct Hc as (_error & pre & post & C1 & C2 & C3 & C4 & C5).
    exists _error, pre, (post ++ List.map (fun e => E_next (Some e)) (on_finished st)).
    rewrite H8, H9, H10, H11, H12, C2, nexts_app, nexts_fired.
    repeat split; try assumption.
    + rewrite <- app_assoc. reflexivity.
    + destruct C5 as [(A & B & C & D)|[(A & B & C & D)|(A & B & C & D)]];
        rewrite A, B, D; cbn; tauto.
  - destruct Hc as (Ho & Hd). rewrite H10, H11. tauto.
Qed.

Lemma orchestrated_immediate (st : state dstate) : OK st -> OK (STEP st Immediate).
Proof.
  intros [Hq Hc]. cbn [step].
  match goal with |- context [fire dstate ?l ?s] =>
    destruct (fire_fields dstate l s)
      as (_ & _ & _ & _ & _ & _ & H7 & H8 & H9 & H10 & H11 & H12)
  end.
  cbn in H7, H8, H9, H10, H11, H12.
  split; [rewrite H7; exact Hq|].
  rewrite H12, calls_app, calls_nexts, app_nil_r.
  destruct (calls (trace st)) as [|[e|b] [|? ?]]; try contradiction.
  - destruct Hc as (Ho & Hd & Hx). rewrite H10, H11, nexts_app, nexts_fired, ?Ho, ?Hd, Hx. cbn. tauto.
  - destruct Hc as (_error & pre & post & C1 & C2 & C3 & C4 & C5).
    exists _error, pre, (post ++ List.map (fun e => E_next (Some e)) (deferred st)).
    rewrite H8, H9, H10, H11, H12, C2, nexts_app, nexts_fired.
    repeat split; try assumption.
    + rewrite <- app_assoc. reflexivity.
    + destruct C5 as [(A & B & C & D)|[(A & B & C & D)|(A & B & C & D)]];
        rewrite A, B, C, D; cbn; tauto.
  - destruct Hc as (Ho & Hd). rewrite H10, H11. tauto.
Qed.

(** [done] in the reading phase hands the outcome to the callback. *)
Lemma orchestrated_done (args : Args) (st st' : state dstate) :
  OK st -> sync st' = false ->
  nextTick st = [] -> calls (trace st) = [] ->
  nextTick st' = nextTick st -> trace st' = trace st ->
  on_finished st' = on_finished st -> deferred st' = deferred st ->
  (forall error, args = Failure error -> CLASSIFY enc error <> None) ->
  OK (DONE args st').
Proof.
  intros [Hq Hc] Hs Hn Hcalls E1 E2 E3 E4 Hcl.
  rewrite Hcalls in Hc. destruct Hc as (Ho & Hd & Hx).
  rewrite done_async by exact Hs.
  destruct args as [error|body].
  - apply deliver_failure; cbn; try congruence. apply Hcl. reflexivity.
  - apply deliver_success; cbn; congruence.
Qed.

Lemma orchestrated_step (sig : signal) (st : state dstate) :
  wf st -> OK st -> OK (STEP st sig).
Proof.
  intros Hwf Hok. pose proof Hwf as [Hph Hl Hd]. pose proof Hok as [Hq Hc].
  destruct sig as [chunk| |message| | | | |];
    try (apply orchestrated_finished; exact Hok);
    try (apply orchestrated_immediate; exact Hok).
  6:{ (* Tick *)
    cbn [step].
    destruct Hph as [a Hk Hs Hls Hn Hcalls Hr Hf|Hk Hs Hls Hn|Hk Hs Hls Hn|a Hk Hls Hn];
      rewrite Hn; try exact Hok.
    destruct a as [error|]; [|contradiction].
    rewrite Hcalls in Hc. destruct Hc as (Ho & Hdf & Hx).
    apply deliver_failure; cbn; try assumption; try reflexivity.
    apply Hq. rewrite Hn. left. reflexivity. }
  all: destruct Hph as [a Hk Hs Hls Hn Hcalls Hr Hf|Hk Hs Hls Hn Hcalls Hb|Hk Hs Hls Hn|a Hk Hls Hn];
    try (rewrite step_detached by (assumption || reflexivity); exact Hok).
  all: rewrite step_reading by exact Hls.
  - (* Data *)
    unfold onData. rewrite Hk. cbn [received set_received].
    destruct (over_limit lim (received st + Buffer_length chunk)).
    + eapply orchestrated_done; try eassumption; try reflexivity.
      intros error [= <-]. rewrite classify_other; [discriminate|].
      unfold entity_too_large, createHttpError. cbn. discriminate.
    + cbn [decoder buffer set_received].
      destruct (decoder st) as [d|]; destruct (buffer st) as [t|l|];
        try (eapply orchestrated_same; [exact Hok|..]; reflexivity).
      destruct (decoder_write d chunk) as [d' out].
      eapply orchestrated_same; [exact Hok|..]; reflexivity.
  - (* EndOfStream *)
    unfold onEnd. rewrite Hk.
    destruct (size_mismatch len (received st)).
    + eapply orchestrated_done; try eassumption; try reflexivity.
      intros error [= <-]. rewrite classify_other; [discriminate|].
      unfold request_size_invalid, createHttpError. cbn. discriminate.
    + eapply orchestrated_done; try eassumption; try reflexivity.
      intros error [=].
  - (* StreamError *)
    unfold onEnd. rewrite Hk.
    eapply orchestrated_done; try eassumption; try reflexivity.
    intros error [= <-]. rewrite classify_other; [discriminate|]. cbn. discriminate.
  - (* Aborted *)
    unfold onAborted. rewrite Hk.
    eapply orchestrated_done; try eassumption; try reflexivity.
    intros error [= <-]. rewrite classify_other; [discriminate|].
    unfold request_aborted, createHttpError. cbn. discriminate.
  - (* Close *)
    apply (orchestrated_more removals st); try reflexivity; try exact Hok.
    cbn. rewrite <- !app_assoc. reflexivity.
Qed.

Lemma orchestrated_run (sigs : list signal) (st : state dstate) :
  wf st -> OK st ->
  wf (run dstate decoder_write decoder_end (CB enc) len lim st sigs)
  /\ OK (run dstate decoder_write decoder_end (CB enc) len lim st sigs).
Proof.
  revert st; induction sigs as [|sig sigs IH]; intros st Hwf Hok; [split; assumption|].
  cbn. apply IH; [apply wf_step; exact Hwf|apply orchestrated_step; assumption].
Qed.

(** Setup leaves the orchestrator in its invariant, provided the
    accumulator is given no charset or the one [read] was given. *)
Lemma orchestrated_readStream (enc' : option string) (st : state dstate) :
  clean st -> on_finished st = [] -> deferred st = [] -> nexts (trace st) = [] ->
  enc' = None \/ enc' = enc ->
  OK (readStream dstate iconv_getDecoder (CB enc) enc' len lim st).
Proof.
  intros [Hl Hn Hc Hr Hp Hd] Ho Hdf Hx Henc.
  assert (Hpending : forall error st',
             CLASSIFY enc error <> None ->
             nextTick st' = [] -> trace st' = trace st ->
             on_finished st' = [] -> deferred st' = [] -> sync st' = true ->
             OK (DONE (Failure error) st')).
  { intros error st' Hcl E1 E2 E3 E4 E5. rewrite done_sync by exact E5. split; cbn.
    - rewrite E1. intros e [[= <-]|[]]. exact Hcl.
    - rewrite E2, Hc, E3, E4, Hx. tauto. }
  unfold readStream.
  destruct (length_over_limit len lim).
  { apply Hpending; try assumption; try reflexivity.
    rewrite classify_other; [discriminate|]. cbn. discriminate. }
  cbn [stream set_sync set_complete].
  destruct (encoding_set (stream st)).
  { apply Hpending; try assumption; try reflexivity.
    rewrite classify_other; [discriminate|]. cbn. discriminate. }
  destruct (getDecoder dstate iconv_getDecoder enc') as [d|err] eqn:Eg.
  - split; cbn.
    + rewrite Hn. intros e [].
    + rewrite !calls_app, Hc. cbn. rewrite !nexts_app, Hx. tauto.
  - apply Hpending; try assumption; try reflexivity.
    unfold getDecoder in Eg. destruct enc' as [[|c0 c]|]; try discriminate.
    destruct (iconv_getDecoder (String c0 c)); try discriminate.
    destruct (ICONV_ENCODING_MESSAGE_REGEXP_test s) in Eg; injection Eg as <-.
    + destruct Henc as [|<-]; [discriminate|]. rewrite classify_unsupported. discriminate.
    + rewrite classify_other; [discriminate|]. cbn. discriminate.
Qed.

End Run.

(** *** [read] *)

Local Notation "'READ'" :=
  (read dstate iconv_getDecoder iconv_encodingExists iconv_decode createError toUpperCase
        verify parse).
Local Notation "'SERVE'" :=
  (serve dstate iconv_getDecoder decoder_write decoder_end iconv_encodingExists iconv_decode
         createError toUpperCase verify parse).
Local Notation "'REACT'" :=
  (react dstate decoder_write decoder_end iconv_decode createError toUpperCase verify parse).
Local Notation "'OK' enc" := (orchestrated dstate createError toUpperCase enc)
  (at level 10, enc at level 9).

Lemma clean_req_pipe (s : Stream) (fin : bool) : clean (req_pipe dstate (world dstate s fin)).
Proof. split; reflexivity. Qed.

(** The state [contentstream] leaves is the world, with or without the
    pipe. *)
Lemma contentstream_state (req : Request) (inflate : option bool) (st : state dstate) :
  snd (contentstream dstate req inflate st) = st
  \/ snd (contentstream dstate req inflate st) = req_pipe dstate st.
Proof.
  unfold contentstream.
  destruct (_ && _); [left; reflexivity|].
  destruct (String.eqb _ "deflate"); [right; reflexivity|].
  destruct (String.eqb _ "gzip"); [right; reflexivity|].
  destruct (String.eqb _ "identity"); left; reflexivity.
Qed.

(** With nothing listening and nothing queued, no signal leaves a
    mark. *)
Lemma idle_run (cb : Args -> list action) (len lim : option Num) (sigs : list signal)
    (st : state dstate) :
  listeners st = [] -> nextTick st = [] -> on_finished st = [] -> deferred st = [] ->
  trace (run dstate decoder_write decoder_end cb len lim st sigs) = trace st
  /\ received (run dstate decoder_write decoder_end cb len lim st sigs) = received st.
Proof.
  revert st; induction sigs as [|sig sigs IH]; intros st Hl Hn Ho Hd; [split; reflexivity|].
  cbn [run fold_left].
  change (fold_left (step dstate decoder_write decoder_end cb len lim) sigs ?x)
    with (run dstate decoder_write decoder_end cb len lim x sigs).
  destruct sig;
    try (rewrite step_detached by (assumption || reflexivity); apply IH; assumption).
  - cbn [step]. rewrite Hn. apply IH; assumption.
  - cbn [step]. rewrite Ho. cbn [fire fold_left].
    destruct (IH (set_on_finished dstate [] (set_finished dstate true st))) as [H1 H2];
      try assumption; try reflexivity.
    split; assumption.
  - cbn [step]. rewrite Hd. cbn [fire fold_left].
    destruct (IH (set_deferred dstate [] st)) as [H1 H2]; try assumption; try reflexivity.
    split; assumption.
Qed.

(** [read] either hands an error to [next] on the spot, or calls
    [getBody] on the content stream. *)
Lemma read_shape (req : Request) (options : Options) :
  (exists err st0,
      (st0 = world dstate (req_stream req) (req_finished req)
       \/ st0 = req_pipe dstate (world dstate (req_stream req) (req_finished req)))
      /\ READ req options = log dstate (E_next (Some err)) st0)
  \/ (exists cs st0 enc',
        (st0 = world dstate (req_stream req) (req_finished req)
         \/ st0 = req_pipe dstate (world dstate (req_stream req) (req_finished req)))
        /\ contentstream dstate req (opt_inflate options)
             (world dstate (req_stream req) (req_finished req)) = (inl cs, st0)
        /\ (enc' = None \/ enc' = opt_encoding options)
        /\ enc' = match verify with Some _ => None | None => opt_encoding options end
        /\ READ req options =
           readStream dstate iconv_getDecoder (CB (opt_encoding options)) enc'
                      (expected_length (cs_length cs)) (limit_of (opt_limit options)) st0).
Proof.
  unfold read.
  pose proof (contentstream_state req (opt_inflate options)
                (world dstate (req_stream req) (req_finished req))) as Hst.
  destruct (contentstream dstate req (opt_inflate options) _) as [[cs|err] st0].
  2:{ left. exists err, st0. split; [exact Hst|reflexivity]. }
  cbn [snd] in Hst. cbn [o_encoding cs_length].
  assert (Hright : forall enc',
             enc' = match verify with Some _ => None | None => opt_encoding options end ->
             exists cs0 st1 e,
               (st1 = world dstate (req_stream req) (req_finished req)
                \/ st1 = req_pipe dstate (world dstate (req_stream req) (req_finished req)))
               /\ (inl cs, st0) = (@inl ContentStream Error cs0, st1)
               /\ (e = None \/ e = opt_encoding options)
               /\ e = match verify with Some _ => None | None => opt_encoding options end
               /\ getRawBody dstate iconv_getDecoder
                    (mkIOptions (cs_length cs) (opt_limit options) enc')
                    (CB (opt_encoding options)) st0
                  = readStream dstate iconv_getDecoder (CB (opt_encoding options)) e
                      (expected_length (cs_length cs0)) (limit_of (opt_limit options)) st1).
  { intros enc' E. exists cs, st0, enc'. repeat split; try assumption.
    rewrite E. destruct verify; [left|right]; reflexivity. }
  destruct verify as [check|].
  - destruct (opt_encoding options) as [enc|] eqn:Eenc.
    + destruct (iconv_encodingExists enc); cbn [negb].
      * right. apply Hright. reflexivity.
      * left. exists (charset_unsupported toUpperCase enc), st0.
        split; [exact Hst|reflexivity].
    + right. apply Hright. reflexivity.
  - destruct (opt_encoding options) as [enc|] eqn:Eenc; right; apply Hright; reflexivity.
Qed.

Lemma serve_run (req : Request) (options : Options) (sigs : list signal) :
  SERVE req options sigs =
  run dstate decoder_write decoder_end (CB (opt_encoding options))
      (expected_length
         (match fst (contentstream dstate req (opt_inflate options)
                       (world dstate (req_stream req) (req_finished req))) with
          | inl cs => cs_length cs
          | inr _ => None
          end))
      (limit_of (opt_limit options)) (READ req options) sigs.
Proof. reflexivity. Qed.

(** Once [getBody] is called the orchestrator stays in its invariant. *)
Lemma serve_orchestrated (req : Request) (options : Options) (sigs : list signal) :
  calls (trace (SERVE req options sigs)) <> [] ->
  wf (SERVE req options sigs) /\ OK (opt_encoding options) (SERVE req options sigs).
Proof.
  intros Hcalls. rewrite serve_run in *.
  destruct (read_shape req options) as [(err & st0 & Hst & E)|(cs & st0 & enc' & Hst & Ecs & Henc & _ & E)].
  - exfalso. apply Hcalls. rewrite E.
    rewrite settled_run; destruct Hst as [-> | ->]; reflexivity.
  - rewrite Ecs in *. cbn [fst] in *. rewrite E.
    assert (Hclean : clean st0) by (destruct Hst as [-> | ->]; split; reflexivity).
    apply orchestrated_run.
    + apply wf_readStream. exact Hclean.
    + apply orchestrated_readStream; try assumption;
        destruct Hst as [-> | ->]; reflexivity.
Qed.

(** What the end of the request and the next turn of the event loop hand
    to [next]. *)
Lemma nexts_finish (cb : Args -> list action) (len lim : option Num) (st : state dstate) :
  nexts (trace (step dstate decoder_write decoder_end cb len lim
                  (step dstate decoder_write decoder_end cb len lim st Finished)
                  Immediate))
  = nexts (trace st) ++ List.map Some (on_finished st) ++ List.map Some (deferred st).
Proof.
  cbn [step].
  destruct (fire_fields dstate (on_finished st)
              (set_on_finished dstate [] (set_finished dstate true st)))
    as (_ & _ & _ & _ & _ & _ & _ & _ & _ & _ & H11 & H12).
  cbn in H11, H12.
  generalize dependent (fire dstate (on_finished st)
                          (set_on_finished dstate [] (set_finished dstate true st))).
  intros s1 H11 H12.
  destruct (fire_fields dstate (deferred s1) (set_deferred dstate [] s1))
    as (_ & _ & _ & _ & _ & _ & _ & _ & _ & _ & _ & G12).
  cbn in G12.
  rewrite G12, H12, H11, !nexts_app, !nexts_fired, <- app_assoc. reflexivity.
Qed.

(** A failure the accumulator reported waits for the request to finish. *)
Lemma failure_waits_for_request_aux (req : Request) (options : Options)
    (sigs : list signal) (error : Error) :
  calls (trace (SERVE req options sigs)) = [Failure error] ->
  exists _error pre post,
    CLASSIFY (opt_encoding options) error = Some _error
    /\ trace (SERVE req options sigs)
       = pre ++ E_callback (Failure error) :: E_resume
             :: E_onFinished (createError 400 _error no_props) :: post
    /\ nexts pre = []
    /\ paused (stream (SERVE req options sigs)) = false
    /\ (nexts post = []
        \/ (nexts post = [Some (createError 400 _error no_props)]
            /\ finished (SERVE req options sigs) = true))
    /\ nexts (trace (REACT req options (REACT req options (SERVE req options sigs) Finished)
                           Immediate))
       = [Some (createError 400 _error no_props)].
Proof.
  intros Hcalls.
  destruct (serve_orchestrated req options sigs) as [Hwf Hok]; [congruence|].
  pose proof Hok as [_ Hc]. rewrite Hcalls in Hc.
  destruct Hc as (_error & pre & post & C1 & C2 & C3 & C4 & C5).
  exists _error, pre, post. repeat split; try assumption.
  { destruct C5 as [(A & B & C & D)|[(A & B & C & D)|(A & B & C & D)]]; tauto. }
  (* the two signals that hand the error over *)
  unfold react. rewrite nexts_finish, C2, nexts_app, C3. cbn [nexts app].
  destruct C5 as [(A & B & C & D)|[(A & B & C & D)|(A & B & C & D)]];
    rewrite A, B, D; reflexivity.
Qed.

(** C10 (as amended).  When the accumulator has reported a failure, the
    callback of [read] has resumed the stream right after being called and
    left the classified error with [onFinished]: nothing was handed to
    [next] before, the error has been handed to [next] only if the request
    has finished, and it is handed to [next] as soon as the request has.
    The error is [createError(400, _error)], where [_error] is the 415
    error "charset.unsupported" when the accumulator found no decoder and
    [createError(400, error)] for any other error: with a [createError]
    that keeps the status an error carries, and gives its own to an error
    that carries none, its status is the one of the accumulator's error
    (413, 400 or 500), 415 for the charset and 400 for an error of the
    stream. *)
Theorem failure_waits_for_request (req : Request) (options : Options)
    (sigs : list signal) (error : Error) :
  calls (trace (SERVE req options sigs)) = [Failure error] ->
  exists _error pre post,
    CLASSIFY (opt_encoding options) error = Some _error
    /\ trace (SERVE req options sigs)
       = pre ++ E_callback (Failure error) :: E_resume
             :: E_onFinished (createError 400 _error no_props) :: post
    /\ nexts pre = []
    /\ paused (stream (SERVE req options sigs)) = false
    /\ (nexts post = []
        \/ (nexts post = [Some (createError 400 _error no_props)]
            /\ finished (SERVE req options sigs) = true))
    /\ nexts (trace (REACT req options (REACT req options (SERVE req options sigs) Finished)
                           Immediate))
       = [Some (createError 400 _error no_props)]
    /\ (error_type error <> Some "encoding.unsupported"%string ->
        _error = createError 400 error no_props)
    /\ (error_type error = Some "encoding.unsupported"%string ->
        exists enc, opt_encoding options = Some enc
                    /\ _error = charset_unsupported toUpperCase enc)
    /\ ((forall status e props,
           error_status (createError status e props)
           = Some (match error_status e with Some kept => kept | None => status end)) ->
        error_status (createError 400 _error no_props)
        = Some (if match error_type error with
                   | Some t => String.eqb t "encoding.unsupported"
                   | None => false
                   end
                then 415
                else match error_status error with Some kept => kept | None => 400 end)).
Proof.
  intros Hcalls.
  destruct (failure_waits_for_request_aux req options sigs error Hcalls)
    as (_error & pre & post & C1 & C2 & C3 & C4 & C5 & C6).
  exists _error, pre, post. repeat split; try assumption.
  - intros Ht. rewrite classify_other in C1 by exact Ht. congruence.
  - intros Ht. unfold classify in C1. rewrite Ht in C1. cbn in C1.
    destruct (opt_encoding options) as [enc|]; [|discriminate C1].
    exists enc. split; [reflexivity|]. cbn in C1. congruence.
  - intros Hkeep. rewrite Hkeep. f_equal. unfold classify in C1.
    destruct (match error_type error with
              | Some t => String.eqb t "encoding.unsupported"
              | None => false
              end).
    + destruct (opt_encoding options) as [enc|]; [|discriminate C1].
      cbn in C1. injection C1 as <-. reflexivity.
    + injection C1 as <-. rewrite Hkeep. reflexivity.
Qed.

(** What [contentstream] returns and what it has done when it returns a
    stream. *)
Lemma contentstream_kind (req : Request) (inflate : option bool) (st st0 : state dstate)
    (cs : ContentStream) :
  contentstream dstate req inflate st = (inl cs, st0) ->
  (cs_kind cs = the_request /\ st0 = st /\ encoding_token req = "identity"%string)
  \/ (cs_kind cs <> the_request /\ st0 = req_pipe dstate st
      /\ encoding_token req <> "identity"%string).
Proof.
  unfold contentstream.
  destruct (_ && _); [discriminate|].
  destruct (String.eqb_spec (encoding_token req) "deflate") as [E1|N1].
  { intros [= <- <-]. right. rewrite E1. repeat split; discriminate. }
  destruct (String.eqb_spec (encoding_token req) "gzip") as [E2|N2].
  { intros [= <- <-]. right. rewrite E2. repeat split; discriminate. }
  destruct (String.eqb_spec (encoding_token req) "identity") as [E3|N3]; [|discriminate].
  intros [= <- <-]. left. repeat split. exact E3.
Qed.

(** C9 (as amended).  A charset the registry does not have, on a request
    whose content encoding is accepted.  With a [verify] function [read]
    hands the 415 error "charset.unsupported" to [next] on the spot.
    Without one the accumulator first checks the expected length against
    the limit and the encoding of the stream; when both pass it fails in
    setup with "encoding.unsupported", which the first tick delivers and
    [read] turns into "charset.unsupported", handed to [next] once the
    request has finished.  Either way the accumulator reads nothing: no
    listener is ever attached and no byte is counted.  On an identity
    request nothing is done to the stream before the failure is found,
    and it is never piped; on a gzip or deflate request [contentstream]
    has piped the request into the decompressor before the charset is
    looked at, and no other pipe and no listener follows. *)
Theorem unsupported_charset (req : Request) (options : Options) (enc message : string)
    (cs : ContentStream) (sigs : list signal) :
  opt_encoding options = Some enc -> enc <> EmptyString ->
  iconv_encodingExists enc = false ->
  iconv_getDecoder enc = inr message ->
  ICONV_ENCODING_MESSAGE_REGEXP_test message = true ->
  fst (contentstream dstate req (opt_inflate options)
         (world dstate (req_stream req) (req_finished req))) = inl cs ->
  (verify = None ->
   length_over_limit (expected_length (cs_length cs)) (limit_of (opt_limit options)) = false) ->
  (verify = None ->
   encoding_set (stream (snd (contentstream dstate req (opt_inflate options)
                                (world dstate (req_stream req) (req_finished req)))))
   = false) ->
  received (SERVE req options sigs) = 0
  /\ trace (READ req options) =
     (match cs_kind cs with the_request => [] | _ => [E_pipe] end)
     ++ (match verify with
         | Some _ => [E_next (Some (charset_unsupported toUpperCase enc))]
         | None => []
         end)
  /\ (cs_kind cs = the_request <-> encoding_token req = "identity"%string)
  /\ (cs_kind cs = the_request ->
      never_attached (trace (SERVE req options sigs)) = true)
  /\ (cs_kind cs <> the_request ->
      exists rest,
        trace (SERVE req options sigs) = E_pipe :: rest /\ never_attached rest = true)
  /\ (verify <> None ->
      nexts (trace (SERVE req options sigs))
      = [Some (charset_unsupported toUpperCase enc)])
  /\ (verify = None ->
      nextTick (READ req options) = [Failure (encoding_unsupported enc)]
      /\ calls (trace (SERVE req options sigs))
         = (if existsb is_tick sigs then [Failure (encoding_unsupported enc)] else [])
      /\ (nexts (trace (SERVE req options sigs)) = []
          \/ (nexts (trace (SERVE req options sigs))
              = [Some (createError 400 (charset_unsupported toUpperCase enc) no_props)]
              /\ finished (SERVE req options sigs) = true))
      /\ nexts (trace (SERVE req options (Tick :: sigs ++ [Finished; Immediate])))
         = [Some (createError 400 (charset_unsupported toUpperCase enc) no_props)]).
Proof.
  intros Henc Hne Hex Hdec Hmsg Hcs Hfast Hset.
  destruct (contentstream dstate req (opt_inflate options)
              (world dstate (req_stream req) (req_finished req))) as [res st0] eqn:Ecs.
  cbn [fst snd] in *. subst res.
  pose proof (contentstream_kind _ _ _ _ _ Ecs) as Hkind.
  assert (Hst : st0 = world dstate (req_stream req) (req_finished req)
                \/ st0 = req_pipe dstate (world dstate (req_stream req) (req_finished req))).
  { destruct Hkind as [(_ & -> & _)|(_ & -> & _)]; [left|right]; reflexivity. }
  assert (Hpipe : trace st0 = match cs_kind cs with the_request => [] | _ => [E_pipe] end).
  { destruct Hkind as [(K & -> & _)|(K & -> & _)].
    - rewrite K. reflexivity.
    - destruct (cs_kind cs); [contradiction|reflexivity..]. }
  assert (Hclean : clean st0 /\ on_finished st0 = [] /\ deferred st0 = []
                   /\ nexts (trace st0) = []).
  { destruct Hst as [-> | ->]; repeat split. }
  destruct Hclean as ([Hl Hn Hc Hr Hp Hd] & Ho & Hdf & Hx).
  assert (Hread : listeners (READ req options) = []
                  /\ received (READ req options) = 0
                  /\ trace (READ req options)
                     = trace st0
                       ++ match verify with
                          | Some _ => [E_next (Some (charset_unsupported toUpperCase enc))]
                          | None => []
                          end
                  /\ (verify = None ->
                      READ req options
                      = set_nextTick dstate [Failure (encoding_unsupported enc)]
                          (set_complete dstate true
                             (set_received dstate 0
                                (set_sync dstate true (set_complete dstate false st0)))))
                  /\ (verify <> None ->
                      READ req options
                      = log dstate (E_next (Some (charset_unsupported toUpperCase enc))) st0)).
  { unfold read. rewrite Ecs. cbn [o_encoding]. rewrite Henc.
    destruct verify as [check|] eqn:Ev.
    - rewrite Hex. cbn [negb]. cbn. repeat split; try assumption; intros; congruence.
    - specialize (Hfast eq_refl). specialize (Hset eq_refl).
      assert (Hg : getDecoder dstate iconv_getDecoder (Some enc)
                   = inr (encoding_unsupported enc)).
      { unfold getDecoder. destruct enc as [|c0 c]; [congruence|].
        rewrite Hdec, Hmsg. reflexivity. }
      unfold getRawBody, readStream. cbn [o_encoding o_limit o_length].
      rewrite Hfast. cbn [stream set_sync set_complete].
      rewrite Hset, Hg. rewrite done_sync by reflexivity.
      cbn. rewrite Hn, app_nil_r. repeat split; try assumption; intros; congruence. }
  destruct Hread as (Rl & Rr & Rt & Rnone & Rsome).
  assert (Hsuffix : exists extra,
             trace (SERVE req options sigs) = trace (READ req options) ++ extra
             /\ never_attached extra = true).
  { rewrite serve_run. apply quiet_run_suffix. exact Rl. }
  assert (Hnever : never_attached
                     match verify with
                     | Some _ => [E_next (Some (charset_unsupported toUpperCase enc))]
                     | None => []
                     end = true) by (destruct verify; reflexivity).
  split.
  { rewrite serve_run.
    match goal with |- context [run dstate ?w ?f ?cb ?l ?m ?st sigs] =>
      destruct (quiet_run dstate w f cb l m sigs st Rl) as (_ & R & _)
    end.
    rewrite R. exact Rr. }
  split; [rewrite Rt, Hpipe; reflexivity|].
  split.
  { destruct Hkind as [(K & _ & T)|(K & _ & T)]; split; intros H; try assumption;
      contradiction. }
  split.
  { intros K. destruct Hsuffix as (extra & -> & N).
    rewrite Rt, Hpipe, K. cbn [app]. rewrite never_attached_app, Hnever, N. reflexivity. }
  split.
  { intros K. destruct Hsuffix as (extra & -> & N).
    rewrite Rt, Hpipe.
    destruct (cs_kind cs); [contradiction| |]; cbn [app]; eexists; (split; [reflexivity|]);
      rewrite never_attached_app, Hnever, N; reflexivity. }
  assert (Hv : verify <> None \/ verify = None)
    by (destruct verify; [left; discriminate|right; reflexivity]).
  destruct Hv as [Ev|Ev].
  - (* with a verify function *)
    pose proof (Rsome Ev) as E.
    split; [|intros; congruence]. intros _.
    rewrite serve_run. rewrite E.
    match goal with |- context [run dstate ?w ?f ?cb ?l ?m ?st sigs] =>
      destruct (idle_run cb l m sigs st) as [T R]; try assumption
    end.
    rewrite T. cbn [trace log]. rewrite nexts_app, Hx. reflexivity.
  - (* without one *)
    pose proof (Rnone Ev) as E.
    split; [intros; congruence|]. intros _.
    assert (Hserve : forall l, calls (trace (SERVE req options l))
              = if existsb is_tick l then [Failure (encoding_unsupported enc)] else []).
    { intros l. rewrite serve_run, E. apply pending_run; cbn; try assumption; reflexivity. }
    assert (Hnexts : forall l error, calls (trace (SERVE req options l)) = [Failure error] ->
               exists _error pre post,
                 CLASSIFY (opt_encoding options) error = Some _error
                 /\ trace (SERVE req options l)
                    = pre ++ E_callback (Failure error) :: E_resume
                          :: E_onFinished (createError 400 _error no_props) :: post
                 /\ nexts pre = []
                 /\ paused (stream (SERVE req options l)) = false
                 /\ (nexts post = []
                     \/ (nexts post = [Some (createError 400 _error no_props)]
                         /\ finished (SERVE req options l) = true))
                 /\ nexts (trace (REACT req options
                                    (REACT req options (SERVE req options l) Finished)
                                    Immediate))
                    = [Some (createError 400 _error no_props)]).
    { intros l error. apply failure_waits_for_request_aux. }
    repeat split.
    + rewrite E. reflexivity.
    + apply Hserve.
    + pose proof (Hserve sigs) as Hcalls.
      destruct (existsb is_tick sigs).
      * destruct (Hnexts sigs _ Hcalls) as (_error & pre & post & C1 & C2 & C3 & _ & C5 & _).
        rewrite Henc, classify_unsupported in C1. injection C1 as <-.
        rewrite C2, nexts_app, C3. cbn [nexts app]. exact C5.
      * left.
        assert (Hok : OK (opt_encoding options) (SERVE req options sigs)).
        { rewrite serve_run, Ecs. cbn [fst].
          replace (READ req options)
            with (readStream dstate iconv_getDecoder (CB (opt_encoding options))
                    (opt_encoding options) (expected_length (cs_length cs))
                    (limit_of (opt_limit options)) st0)
            by (unfold read; rewrite Ecs, Ev; cbn [o_encoding]; rewrite Henc; reflexivity).
          apply orchestrated_run.
          - apply wf_readStream. split; assumption.
          - apply orchestrated_readStream; try assumption; [split; assumption|].
            right; reflexivity. }
        destruct Hok as [_ Hok]. rewrite Hcalls in Hok. tauto.
    + pose proof (Hserve (Tick :: sigs)) as Hcalls. cbn [existsb is_tick orb] in Hcalls.
      destruct (Hnexts _ _ Hcalls) as (_error & _ & _ & C1 & _ & _ & _ & _ & C6).
      rewrite Henc, classify_unsupported in C1. injection C1 as <-.
      rewrite <- C6. unfold serve. rewrite app_comm_cons, fold_left_app. reflexivity.
Qed.

(** C5.  [contentstream] routes on the lower-cased token (identity when
    the header is absent) and the [inflate] flag alone: with
    [inflate === false] any token but identity fails with the 415 error
    "encoding.unsupported"; identity returns the request itself with the
    declared length; gzip and deflate return a transform the request is
    piped into, without a length, so that no length check follows; any
    other token fails with the 415 error naming it.  Piping the request is
    the one thing [contentstream] ever does to the world, and it does it
    for gzip and deflate alone. *)
Theorem contentstream_routes (req : Request) (inflate : option bool) (st : state dstate) :
  (content_encoding req = None -> encoding_token req = "identity"%string)
  /\ (inflate = Some false -> encoding_token req <> "identity"%string ->
      contentstream dstate req inflate st =
        (inr (HttpError 415 "content encoding unsupported"
                (mkProps (Some "encoding.unsupported"%string) None None None None None
                   (Some (encoding_token req)) None None)), st))
  /\ (encoding_token req = "identity"%string ->
      contentstream dstate req inflate st =
        (inl (mkContentStream the_request (content_length req)), st))
  /\ (inflate <> Some false -> encoding_token req = "gzip"%string ->
      contentstream dstate req inflate st =
        (inl (mkContentStream zlib_gunzip None), req_pipe dstate st))
  /\ (inflate <> Some false -> encoding_token req = "deflate"%string ->
      contentstream dstate req inflate st =
        (inl (mkContentStream zlib_inflate None), req_pipe dstate st))
  /\ (inflate <> Some false ->
      encoding_token req <> "identity"%string -> encoding_token req <> "gzip"%string ->
      encoding_token req <> "deflate"%string ->
      contentstream dstate req inflate st =
        (inr (HttpError 415 ("unsupported content encoding " ++ quoted (encoding_token req))
                (mkProps (Some "encoding.unsupported"%string) None None None None None
                   (Some (encoding_token req)) None None)), st))
  /\ (forall received, size_mismatch (expected_length None) received = false)
  /\ (trace (req_pipe dstate st) = trace st ++ [E_pipe]
      /\ stream (req_pipe dstate st) = mkStream true false false
      /\ listeners (req_pipe dstate st) = listeners st
      /\ received (req_pipe dstate st) = received st
      /\ nextTick (req_pipe dstate st) = nextTick st)
  /\ (inflate <> Some false ->
      encoding_token req = "gzip"%string \/ encoding_token req = "deflate"%string ->
      trace (snd (contentstream dstate req inflate st)) = trace st ++ [E_pipe]
      /\ exists kind, fst (contentstream dstate req inflate st)
                      = inl (mkContentStream kind None)
                      /\ kind <> the_request).
Proof.
  assert (Hinf : inflate <> Some false ->
                 match inflate with Some false => true | _ => false end = false).
  { intros H. destruct inflate as [[|]|]; try reflexivity. congruence. }
  unfold contentstream.
  split; [intros H; unfold encoding_token; rewrite H; reflexivity|].
  split; [intros -> Hne; apply String.eqb_neq in Hne; rewrite Hne; reflexivity|].
  split; [intros ->; cbn; rewrite andb_false_r; reflexivity|].
  split; [intros Hi ->; rewrite (Hinf Hi); reflexivity|].
  split; [intros Hi ->; rewrite (Hinf Hi); reflexivity|].
  split.
  { intros Hi H1 H2 H3. rewrite (Hinf Hi).
    apply String.eqb_neq in H1, H2, H3. rewrite H1, H2, H3. reflexivity. }
  split; [intros received; reflexivity|].
  split; [repeat split|].
  intros Hi Ht. rewrite (Hinf Hi).
  destruct Ht as [-> | ->];
    (split; [reflexivity|eexists; split; [reflexivity|discriminate]]).
Qed.

(** *** [next] is called at most once *)

Local Notation "'ONCE' enc st" :=
  (forall body, calls (trace st) = [Success body] ->
     exists e, nexts (trace st) = [e] /\ CB enc (Success body) = [a_next e])
  (at level 10, enc at level 9, st at level 9).

Lemma nexts_delivery_success (enc : option string) (body : Body) (e : option Error) :
  CB enc (Success body) = [a_next e] ->
  nexts (delivery (CB enc) (Success body)) = [e].
Proof. intros H. unfold delivery. rewrite H. reflexivity. Qed.

(** A successful delivery hands one value to [next], and nothing is handed
    to it afterwards. *)
Lemma once_step (enc : option string) (len lim : option Num) (sig : signal)
    (st : state dstate) :
  wf st -> OK enc st -> ONCE enc st ->
  ONCE enc (step dstate decoder_write decoder_end (CB enc) len lim st sig).
Proof.
  intros Hwf [Hq Hc] Hone body Hafter.
  assert (Hcases : calls (trace st) = [] \/ exists a, calls (trace st) = [a]
                                                     /\ listeners st = [] /\ nextTick st = []).
  { destruct Hwf as [[a| | |a] _ _];
      [left; assumption|left; assumption|left; assumption|
       right; exists a; repeat split; assumption]. }
  destruct Hcases as [Hcalls|(a & Hcalls & Hl & Hn)].
  - rewrite Hcalls in Hc. destruct Hc as (_ & _ & Hx).
    rewrite (step_delivery dstate decoder_write decoder_end (CB enc) len lim sig st
               (Success body) Hwf Hcalls Hafter).
    destruct (on_body_success enc body) as [e He]. exists e.
    rewrite nexts_app, Hx, (nexts_delivery_success enc body e He). split; [reflexivity|exact He].
  - destruct (settled_step dstate decoder_write decoder_end (CB enc) len lim sig st Hl Hn)
      as (_ & _ & _ & H4).
    rewrite H4, Hcalls in Hafter. injection Hafter as ->.
    rewrite Hcalls in Hc. destruct Hc as [Ho Hd].
    destruct (idle_run (CB enc) len lim [sig] st Hl Hn Ho Hd) as [E _].
    cbn in E. rewrite E. apply Hone. exact Hcalls.
Qed.

Lemma once_run (enc : option string) (len lim : option Num) (sigs : list signal)
    (st : state dstate) :
  wf st -> OK enc st -> ONCE enc st ->
  wf (run dstate decoder_write decoder_end (CB enc) len lim st sigs)
  /\ OK enc (run dstate decoder_write decoder_end (CB enc) len lim st sigs)
  /\ ONCE enc (run dstate decoder_write decoder_end (CB enc) len lim st sigs).
Proof.
  revert st; induction sigs as [|sig sigs IH]; intros st Hwf Hok Hone;
    [split; [assumption|split; assumption]|].
  cbn [run fold_left]. apply IH.
  - apply wf_step; exact Hwf.
  - apply orchestrated_step; assumption.
  - apply once_step; assumption.
Qed.

(** [read] either handed an error to [next] itself, and then nothing else
    ever happens, or it called [getBody], and then the read and the
    callback stay in their invariants. *)
Lemma serve_cases (req : Request) (options : Options) (sigs : list signal) :
  (exists err st0,
      (st0 = world dstate (req_stream req) (req_finished req)
       \/ st0 = req_pipe dstate (world dstate (req_stream req) (req_finished req)))
      /\ READ req options = log dstate (E_next (Some err)) st0
      /\ trace (SERVE req options sigs) = trace (READ req options)
      /\ received (SERVE req options sigs) = 0)
  \/ (nexts (trace (READ req options)) = []
      /\ wf (SERVE req options sigs)
      /\ OK (opt_encoding options) (SERVE req options sigs)
      /\ ONCE (opt_encoding options) (SERVE req options sigs)).
Proof.
  rewrite serve_run.
  destruct (read_shape req options)
    as [(err & st0 & Hst & E)|(cs & st0 & enc' & Hst & Ecs & Henc & _ & E)].
  - left. exists err, st0. split; [exact Hst|]. split; [exact E|].
    rewrite E.
    match goal with |- context [run dstate _ _ ?cb ?len ?lim ?s sigs] =>
      destruct (idle_run cb len lim sigs s) as [H1 H2]
    end; try (destruct Hst as [-> | ->]; reflexivity).
    rewrite H1, H2. split; [reflexivity|]. destruct Hst as [-> | ->]; reflexivity.
  - right. rewrite Ecs. cbn [fst]. rewrite E.
    assert (Hclean : clean st0) by (destruct Hst as [-> | ->]; split; reflexivity).
    assert (Hx : nexts (trace st0) = []) by (destruct Hst as [-> | ->]; reflexivity).
    assert (Hok : OK (opt_encoding options)
                     (readStream dstate iconv_getDecoder (CB (opt_encoding options)) enc'
                        (expected_length (cs_length cs)) (limit_of (opt_limit options)) st0)).
    { apply orchestrated_readStream; try assumption; destruct Hst as [-> | ->]; reflexivity. }
    split.
    { destruct Hok as [_ Hc]. rewrite readStream_calls in Hc.
      destruct Hclean as [_ _ Hc0 _ _ _]. rewrite Hc0 in Hc. tauto. }
    apply once_run; [apply wf_readStream; exact Hclean|exact Hok|].
    intros body H. rewrite readStream_calls in H.
    destruct Hclean as [_ _ Hc0 _ _ _]. congruence.
Qed.

Lemma idle_queue (cb : Args -> list action) (len lim : option Num) (sigs : list signal)
    (st : state dstate) :
  listeners st = [] -> nextTick st = [] ->
  nextTick (run dstate decoder_write decoder_end cb len lim st sigs) = [].
Proof.
  revert st; induction sigs as [|sig sigs IH]; intros st Hl Hn; [exact Hn|].
  cbn [run fold_left].
  destruct (settled_step dstate decoder_write decoder_end cb len lim sig st Hl Hn)
    as (H1 & H2 & _).
  apply IH; assumption.
Qed.

Lemma next_at_most_once_aux (req : Request) (options : Options) (sigs : list signal) :
  (List.length (nexts (trace (SERVE req options sigs))) <= 1)%nat
  /\ (forall body, calls (trace (SERVE req options sigs)) = [Success body] ->
        exists e, nexts (trace (SERVE req options sigs)) = [e]
                  /\ CB (opt_encoding options) (Success body) = [a_next e])
  /\ (forall error,
        In (Failure error) (nextTick (SERVE req options sigs))
        \/ calls (trace (SERVE req options sigs)) = [Failure error] ->
        CLASSIFY (opt_encoding options) error <> None)
  /\ (nexts (trace (READ req options)) <> [] ->
      trace (SERVE req options sigs) = trace (READ req options)
      /\ received (SERVE req options sigs) = 0).
Proof.
  destruct (serve_cases req options sigs)
    as [(err & st0 & Hst & E & Htr & Hr)|(Hx & Hwf & Hok & Hone)].
  - assert (Hn : nexts (trace (SERVE req options sigs)) = [Some err]).
    { rewrite Htr, E. destruct Hst as [-> | ->]; reflexivity. }
    assert (Hc : calls (trace (SERVE req options sigs)) = []).
    { rewrite Htr, E. destruct Hst as [-> | ->]; reflexivity. }
    split; [rewrite Hn; cbn; lia|]. split; [intros body H; congruence|].
    split; [|intros _; split; assumption].
    intros error [H|H]; [|congruence].
    exfalso. rewrite serve_run, E, idle_queue in H;
      [exact H|destruct Hst as [-> | ->]; reflexivity..].
  - pose proof Hok as [Hq Hc].
    split; [|split; [exact Hone|split; [|intros H; contradiction]]].
    + destruct (calls (trace (SERVE req options sigs))) as [|[e|b] [|? ?]] eqn:Ecalls;
        try contradiction.
      * destruct Hc as (_ & _ & Hn). rewrite Hn. cbn. lia.
      * destruct Hc as (_error & pre & post & C1 & C2 & C3 & C4 & C5).
        rewrite C2, nexts_app, C3. cbn [nexts app].
        destruct C5 as [(_ & _ & _ & D)|[(_ & _ & _ & D)|(_ & _ & _ & D)]];
          rewrite D; cbn; lia.
      * destruct (Hone b eq_refl) as (e & He & _). rewrite He. cbn. lia.
    + intros error [H|H]; [apply Hq, H|].
      rewrite H in Hc. destruct Hc as (_error & _ & _ & C1 & _). congruence.
Qed.

(** X5.  Whatever the request and whatever its stream signals, [read]
    calls [next] at most once.  When the body has been read, [next] is
    called right away, once, with what the callback decides; an error
    the accumulator reports is always one the callback can classify, so
    the callback never fails on it; and when [read] itself hands an
    error to [next], nothing else ever happens: no byte is counted and
    the trace stays as [read] left it. *)
Theorem next_at_most_once (req : Request) (options : Options) (sigs : list signal) :
  (List.length (nexts (trace (SERVE req options sigs))) <= 1)%nat
  /\ (forall body, calls (trace (SERVE req options sigs)) = [Success body] ->
        exists e, nexts (trace (SERVE req options sigs)) = [e]
                  /\ CB (opt_encoding options) (Success body) = [a_next e])
  /\ (forall error,
        In (Failure error) (nextTick (SERVE req options sigs))
        \/ calls (trace (SERVE req options sigs)) = [Failure error] ->
        CLASSIFY (opt_encoding options) error <> None)
  /\ (nexts (trace (READ req options)) <> [] ->
      trace (SERVE req options sigs) = trace (READ req options)
      /\ received (SERVE req options sigs) = 0).
Proof. exact (next_at_most_once_aux req options sigs). Qed.

(** *** A body that arrives whole *)

(** The request body arrives in chunks within the limit and the stream
    ends: the accumulator hands the body to the callback of [read]. *)
Lemma serve_succeeds (req : Request) (options : Options) (cs : ContentStream)
    (chunks : list Buffer) (d : option dstate) :
  fst (contentstream dstate req (opt_inflate options)
         (world dstate (req_stream req) (req_finished req))) = inl cs ->
  encoding_set (req_stream req) = false ->
  (verify <> None -> forall enc, opt_encoding options = Some enc ->
     iconv_encodingExists enc = true) ->
  getDecoder dstate iconv_getDecoder
    (match verify with Some _ => None | None => opt_encoding options end) = inl d ->
  (limit_of (opt_limit options) = None
   \/ exists lim : Z, limit_of (opt_limit options) = Some lim /\ total chunks <= lim) ->
  (expected_length (cs_length cs) = None
   \/ expected_length (cs_length cs) = Some (total chunks)) ->
  trace (SERVE req options (List.map Data chunks ++ [EndOfStream])) =
    trace (snd (contentstream dstate req (opt_inflate options)
                  (world dstate (req_stream req) (req_finished req))))
    ++ List.map (fun l => E_on (fst l) (snd l)) five
    ++ delivery (CB (opt_encoding options))
         (Success (body_of dstate decoder_write decoder_end d chunks))
  /\ calls (trace (SERVE req options (List.map Data chunks ++ [EndOfStream]))) =
     [Success (body_of dstate decoder_write decoder_end d chunks)]
  /\ nexts (trace (SERVE req options (List.map Data chunks ++ [EndOfStream]))) =
     nexts (List.map effect_of
              (CB (opt_encoding options)
                  (Success (body_of dstate decoder_write decoder_end d chunks)))).
Proof.
  intros Hcs Henc Hex Hdec Hlim Hlen.
  destruct (integer_bounds _ _ (total chunks) Hlim Hlen) as (B1 & B2 & B3).
  rewrite serve_run, Hcs.
  pose proof (contentstream_state req (opt_inflate options)
                (world dstate (req_stream req) (req_finished req))) as Hst.
  assert (Hread : READ req options =
                  readStream dstate iconv_getDecoder (CB (opt_encoding options))
                    (match verify with Some _ => None | None => opt_encoding options end)
                    (expected_length (cs_length cs)) (limit_of (opt_limit options))
                    (snd (contentstream dstate req (opt_inflate options)
                            (world dstate (req_stream req) (req_finished req))))).
  { unfold read.
    destruct (contentstream dstate req (opt_inflate options) _) as [[cs'|err] st0];
      cbn [fst snd] in *; [|discriminate Hcs].
    injection Hcs as ->. cbn [o_encoding].
    destruct verify as [check|] eqn:Ev.
    - destruct (opt_encoding options) as [enc|] eqn:Ee; [|reflexivity].
      rewrite (Hex ltac:(discriminate) enc eq_refl). reflexivity.
    - destruct (opt_encoding options) as [enc|]; reflexivity. }
  rewrite Hread.
  set (st0 := snd (contentstream dstate req (opt_inflate options)
                     (world dstate (req_stream req) (req_finished req)))) in *.
  assert (Hclean : clean st0) by (destruct Hst as [-> | ->]; split; reflexivity).
  assert (Hes : encoding_set (stream st0) = false)
    by (destruct Hst as [-> | ->]; [exact Henc|reflexivity]).
  assert (Hx : nexts (trace st0) = []) by (destruct Hst as [-> | ->]; reflexivity).
  destruct (succeeds_from dstate iconv_getDecoder decoder_write decoder_end
              (CB (opt_encoding options)) _ _ _ st0 chunks d Hclean Hes Hdec B1 B2 B3)
    as (H1 & H2 & H3).
  split; [exact H1|]. split; [exact H2|].
  rewrite H1, !nexts_app, Hx. unfold delivery. rewrite !nexts_app. reflexivity.
Qed.

(** X6.  Without a [verify] function and with a charset the registry
    has, a body that arrives whole within the limit (an integer, or none)
    and with as many bytes as the [content-length] header says, when it
    says so, is decoded chunk by chunk by the accumulator and handed to
    [parse] as text; [next] is called once, as soon as the stream ends:
    with nothing when [parse] returns, with the 400 error
    "entity.parse.failed" (or the type the thrown error carries) and the
    text as its body when [parse] throws. *)
Theorem body_is_parsed (req : Request) (options : Options) (cs : ContentStream)
    (chunks : list Buffer) (enc : string) (d0 : dstate) :
  verify = None ->
  fst (contentstream dstate req (opt_inflate options)
         (world dstate (req_stream req) (req_finished req))) = inl cs ->
  encoding_set (req_stream req) = false ->
  opt_encoding options = Some enc -> enc <> EmptyString ->
  iconv_getDecoder enc = inl d0 ->
  (limit_of (opt_limit options) = None
   \/ exists lim : Z, limit_of (opt_limit options) = Some lim /\ total chunks <= lim) ->
  (expected_length (cs_length cs) = None
   \/ expected_length (cs_length cs) = Some (total chunks)) ->
  calls (trace (SERVE req options (List.map Data chunks ++ [EndOfStream]))) =
    [Success (BodyString (decode_chunks dstate decoder_write decoder_end d0 chunks))]
  /\ (parse (BodyString (decode_chunks dstate decoder_write decoder_end d0 chunks)) = None ->
      nexts (trace (SERVE req options (List.map Data chunks ++ [EndOfStream]))) = [None])
  /\ (forall err,
        parse (BodyString (decode_chunks dstate decoder_write decoder_end d0 chunks))
        = Some err ->
        nexts (trace (SERVE req options (List.map Data chunks ++ [EndOfStream]))) =
          [Some (createError 400 err
                   (mkProps (Some (type_or err "entity.parse.failed")) None None None None
                      None None None
                      (Some (BodyString
                               (decode_chunks dstate decoder_write decoder_end d0 chunks)))))]).
Proof.
  intros Hv Hcs Henc He Hne Hd0 Hlim Hlen.
  destruct (serve_succeeds req options cs chunks (Some d0) Hcs Henc) as (_ & H2 & H3);
    try assumption.
  { intros H. contradiction. }
  { case_eq verify; [intros check E; congruence|]. intros _. rewrite He.
    unfold getDecoder. destruct enc as [|c0 c]; [congruence|]. rewrite Hd0. reflexivity. }
  set (S := SERVE req options (List.map Data chunks ++ [EndOfStream])) in *.
  cbn [body_of] in *.
  set (text := decode_chunks dstate decoder_write decoder_end d0 chunks) in *.
  split; [exact H2|].
  cbn [on_body] in H3. rewrite Hv in H3. unfold parse_body in H3.
  split.
  - intros Hp. rewrite Hp in H3. exact H3.
  - intros err Hp. rewrite Hp in H3. exact H3.
Qed.

(** X7.  With a [verify] function the accumulator is given no charset, so
    [verify] sees the raw bytes of the body, for a body that arrives whole
    within the limit (an integer, or none) and with as many bytes as the
    [content-length] header says, when it says so.  When [verify] throws,
    [next] gets the 403 error "entity.verify.failed" (or the type the
    thrown error carries) with the bytes as its body, and [parse] plays no
    part.  When it returns, the whole buffer is decoded with the charset
    and handed to [parse]; a decoding that throws gives the 400 error
    with the undecoded bytes as its body. *)
Theorem body_is_verified (req : Request) (options : Options) (cs : ContentStream)
    (chunks : list Buffer) (check : Body -> option Error) :
  verify = Some check ->
  fst (contentstream dstate req (opt_inflate options)
         (world dstate (req_stream req) (req_finished req))) = inl cs ->
  encoding_set (req_stream req) = false ->
  (forall enc, opt_encoding options = Some enc -> iconv_encodingExists enc = true) ->
  (limit_of (opt_limit options) = None
   \/ exists lim : Z, limit_of (opt_limit options) = Some lim /\ total chunks <= lim) ->
  (expected_length (cs_length cs) = None
   \/ expected_length (cs_length cs) = Some (total chunks)) ->
  calls (trace (SERVE req options (List.map Data chunks ++ [EndOfStream]))) =
    [Success (BodyBuffer (List.concat chunks))]
  /\ (forall err, check (BodyBuffer (List.concat chunks)) = Some err ->
        nexts (trace (SERVE req options (List.map Data chunks ++ [EndOfStream]))) =
          [Some (createError 403 err
                   (mkProps (Some (type_or err "entity.verify.failed")) None None None None
                      None None None (Some (BodyBuffer (List.concat chunks)))))])
  /\ (check (BodyBuffer (List.concat chunks)) = None ->
      forall enc, opt_encoding options = Some enc ->
        (forall text, iconv_decode (List.concat chunks) enc = inl text ->
           nexts (trace (SERVE req options (List.map Data chunks ++ [EndOfStream]))) =
             match parse (BodyString text) with
             | None => [None]
             | Some err =>
                 [Some (createError 400 err
                          (mkProps (Some (type_or err "entity.parse.failed")) None None None
                             None None None None (Some (BodyString text))))]
             end)
        /\ (forall err, iconv_decode (List.concat chunks) enc = inr err ->
             nexts (trace (SERVE req options (List.map Data chunks ++ [EndOfStream]))) =
               [Some (createError 400 err
                        (mkProps (Some (type_or err "entity.parse.failed")) None None None
                           None None None None
                           (Some (BodyBuffer (List.concat chunks)))))])).
Proof.
  intros Hv Hcs Henc Hex Hlim Hlen.
  destruct (serve_succeeds req options cs chunks None Hcs Henc) as (_ & H2 & H3);
    try assumption.
  { intros _. exact Hex. }
  { case_eq verify; [reflexivity|]. intros E. congruence. }
  set (S := SERVE req options (List.map Data chunks ++ [EndOfStream])) in *.
  cbn [body_of] in *. unfold Buffer_concat in *.
  split; [exact H2|].
  cbn [on_body] in H3. rewrite Hv in H3.
  split.
  - intros err Hc. rewrite Hc in H3. exact H3.
  - intros Hc enc He. rewrite Hc in H3. unfold parse_body in H3. rewrite He in H3.
    split.
    + intros text Hd. rewrite Hd in H3. destruct (parse (BodyString text)); exact H3.
    + intros err Hd. rewrite Hd in H3. exact H3.
Qed.

End ReadFacts.

(** * Facts about the JSON middleware *)

Section TextOnly.

Import RawBody Read.

Variable dstate : Type.
Variable iconv_getDecoder : string -> dstate + string.
Variable decoder_write : dstate -> Buffer -> dstate * Text.
Variable decoder_end : dstate -> option Text.
Variable iconv_encodingExists : string -> bool.
Variable iconv_decode : Buffer -> string -> Text + Error.
Variable createError : Z -> Error -> Props -> Error.
Variable toUpperCase : string -> string.
Variable verify : option (Body -> option Error).

(** *** The run depends on the callback through its values alone *)

Lemma fold_left_ext {A B : Type} (f g : A -> B -> A) (l : list B) (a : A) :
  (forall x y, f x y = g x y) -> fold_left f l a = fold_left g l a.
Proof.
  intros H. revert a; induction l as [|b l IH]; intros a; cbn; [reflexivity|].
  rewrite H. apply IH.
Qed.

Section Callbacks.

Variables cb1 cb2 : Args -> list action.
Hypothesis same : forall args, cb1 args = cb2 args.
Variables len lim : option Num.

Lemma invokeCallback_ext (args : Args) (st : state dstate) :
  invokeCallback dstate cb1 args st = invokeCallback dstate cb2 args st.
Proof. unfold invokeCallback. rewrite same. reflexivity. Qed.

Lemma done_ext (args : Args) (st : state dstate) :
  done dstate cb1 args st = done dstate cb2 args st.
Proof. unfold done. rewrite invokeCallback_ext. reflexivity. Qed.

Lemma step_ext (st : state dstate) (sig : signal) :
  step dstate decoder_write decoder_end cb1 len lim st sig
  = step dstate decoder_write decoder_end cb2 len lim st sig.
Proof.
  assert (Hh : forall h sg s,
             run_handler dstate decoder_write decoder_end cb1 len lim h sg s
             = run_handler dstate decoder_write decoder_end cb2 len lim h sg s).
  { intros h sg s. destruct h; cbn [run_handler].
    - unfold onAborted. rewrite done_ext. reflexivity.
    - reflexivity.
    - destruct sg; try reflexivity. unfold onData. rewrite done_ext. reflexivity.
    - destruct sg; unfold onEnd; rewrite !done_ext; reflexivity. }
  assert (He : forall ev sg s,
             emit dstate decoder_write decoder_end cb1 len lim ev sg s
             = emit dstate decoder_write decoder_end cb2 len lim ev sg s).
  { intros ev sg s. unfold emit. apply fold_left_ext.
    intros x y. rewrite Hh. reflexivity. }
  destruct sig; cbn [step]; try apply He; try reflexivity.
  destruct (nextTick st); [reflexivity|apply invokeCallback_ext].
Qed.

Lemma run_ext (st : state dstate) (sigs : list signal) :
  run dstate decoder_write decoder_end cb1 len lim st sigs
  = run dstate decoder_write decoder_end cb2 len lim st sigs.
Proof. unfold run. apply fold_left_ext. apply step_ext. Qed.

Lemma readStream_ext (enc : option string) (st : state dstate) :
  readStream dstate iconv_getDecoder cb1 enc len lim st
  = readStream dstate iconv_getDecoder cb2 enc len lim st.
Proof. unfold readStream. rewrite !done_ext. reflexivity. Qed.

End Callbacks.

(** X10.  When [read] is given a charset, [parse] only ever receives
    text: the bytes of the body are decoded before, by the accumulator or
    by [iconv.decode].  Two [parse] functions that agree on text give the
    same callback and the same run, whatever they do with a buffer. *)
Theorem parse_receives_text (parse1 parse2 : Body -> option Error) (req : Request)
    (options : Options) (enc : string) (sigs : list signal) :
  opt_encoding options = Some enc ->
  (forall text, parse1 (BodyString text) = parse2 (BodyString text)) ->
  (forall args,
     on_body iconv_decode createError toUpperCase verify parse1 (Some enc) args
     = on_body iconv_decode createError toUpperCase verify parse2 (Some enc) args)
  /\ serve dstate iconv_getDecoder decoder_write decoder_end iconv_encodingExists iconv_decode
           createError toUpperCase verify parse1 req options sigs
     = serve dstate iconv_getDecoder decoder_write decoder_end iconv_encodingExists
             iconv_decode createError toUpperCase verify parse2 req options sigs.
Proof.
  intros He Hp.
  assert (Hcb : forall args,
             on_body iconv_decode createError toUpperCase verify parse1 (Some enc) args
             = on_body iconv_decode createError toUpperCase verify parse2 (Some enc) args).
  { assert (Hb : forall body,
               parse_body iconv_decode createError parse1 (Some enc) body
               = parse_body iconv_decode createError parse2 (Some enc) body).
    { intros [text|b]; unfold parse_body.
      - rewrite Hp. reflexivity.
      - destruct (iconv_decode b enc) as [text|err]; [rewrite Hp|]; reflexivity. }
    intros [error|body]; cbn [on_body]; [reflexivity|].
    rewrite Hb. reflexivity. }
  split; [exact Hcb|].
  unfold serve.
  assert (Hread : read dstate iconv_getDecoder iconv_encodingExists iconv_decode createError
                       toUpperCase verify parse1 req options
                  = read dstate iconv_getDecoder iconv_encodingExists iconv_decode createError
                         toUpperCase verify parse2 req options).
  { unfold read, getRawBody. rewrite He.
    destruct (contentstream dstate req (opt_inflate options) _) as [[cs|err] st0];
      [|reflexivity].
    cbn [o_encoding o_limit o_length].
    destruct verify; [destruct (negb (iconv_encodingExists enc)); [reflexivity|]|];
      apply readStream_ext; exact Hcb. }
  rewrite Hread. unfold react. rewrite He.
  apply fold_left_ext. intros st sig. apply step_ext. exact Hcb.
Qed.


End TextOnly.

Section JsonFacts.

Import RawBody Read Json.
Local Open Scope string_scope.

Variable dstate : Type.
Variable iconv_getDecoder : string -> dstate + string.
Variable decoder_write : dstate -> Buffer -> dstate * Text.
Variable decoder_end : dstate -> option Text.
Variable iconv_encodingExists : string -> bool.
Variable iconv_decode : Buffer -> string -> Text + Error.
Variable createError : Z -> Error -> Props -> Error.
Variable toUpperCase : string -> string.
Variable JSON_parse : Text -> option Text.
Variable JSON_parse_reviver : Text -> option thrown.
Variable null_index_error : Error.
Variable delete_own : Error -> Error.
Variable typeis_hasBody : ServerRequest -> bool.
Variable shouldParse : ServerRequest -> bool.
Variable contentType_parse : ServerRequest -> option (option string).
Variable parse_buffer : Buffer -> option Error.
Variable strict : bool.
Variable inflate : bool.
Variable verify : option (Body -> option Error).
Variable limit : Bytes.value.

Local Notation "'PARSE'" :=
  (parse JSON_parse JSON_parse_reviver null_index_error delete_own).

(** White space of the pattern; the line feeds and carriage returns, which
    are white space of the pattern and line terminators; and a string on
    which the pattern can capture nothing at once: it is empty, or starts
    with a line terminator that is no white space (U+2028 or U+2029). *)
Local Notation "'all_space' s" := (forallb is_space s) (at level 10, s at level 9).
Local Notation "'all_newlines' s" :=
  (forallb (fun c => is_space c && is_line_terminator c) s) (at level 10, s at level 9).
Local Notation "'stops' s" :=
  (match s with
   | [] => true
   | c :: _ => negb (is_space c) && is_line_terminator c
   end) (at level 10, s at level 9).

(** *** [firstchar] *)

Lemma exec_first (ws : Text) (c : N) (rest : Text) :
  all_space ws = true -> is_space c = false -> is_line_terminator c = false ->
  FIRST_CHAR_REGEXP_exec (ws ++ c :: rest)%list = Some c.
Proof.
  intros Hws Hc Ht. induction ws as [|w ws IH]; cbn [app FIRST_CHAR_REGEXP_exec].
  - rewrite Hc, Ht. reflexivity.
  - cbn in Hws. apply andb_true_iff in Hws as [Hw Hws].
    rewrite Hw, (IH Hws). reflexivity.
Qed.

Lemma exec_newlines (nl rest : Text) :
  all_newlines nl = true -> stops rest = true ->
  FIRST_CHAR_REGEXP_exec (nl ++ rest)%list = None.
Proof.
  intros Hnl Hrest. induction nl as [|c nl IH]; cbn [app FIRST_CHAR_REGEXP_exec].
  - destruct rest as [|c r]; [reflexivity|]. cbn [FIRST_CHAR_REGEXP_exec].
    apply andb_true_iff in Hrest as [Hs Ht]. apply negb_true_iff in Hs.
    rewrite Hs, Ht. reflexivity.
  - cbn in Hnl. apply andb_true_iff in Hnl as [Hc Hnl].
    apply andb_true_iff in Hc as [Hs Ht].
    rewrite Hs, Ht, (IH Hnl). reflexivity.
Qed.

Lemma exec_blank (ws : Text) (c : N) (nl rest : Text) :
  all_space ws = true -> is_space c = true -> is_line_terminator c = false ->
  all_newlines nl = true -> stops rest = true ->
  FIRST_CHAR_REGEXP_exec (ws ++ c :: nl ++ rest)%list = Some c.
Proof.
  intros Hws Hc Ht Hnl Hrest. induction ws as [|w ws IH]; cbn [app FIRST_CHAR_REGEXP_exec].
  - rewrite Hc, Ht, (exec_newlines nl rest Hnl Hrest). reflexivity.
  - cbn in Hws. apply andb_true_iff in Hws as [Hw Hws].
    rewrite Hw, (IH Hws). reflexivity.
Qed.

Lemma exec_none (str : Text) :
  FIRST_CHAR_REGEXP_exec str = None ->
  exists nl rest, str = (nl ++ rest)%list /\ all_newlines nl = true /\ stops rest = true.
Proof.
  induction str as [|c r IH]; intros H.
  - exists [], []. repeat split.
  - cbn [FIRST_CHAR_REGEXP_exec] in H.
    destruct (is_space c) eqn:Hs.
    + destruct (FIRST_CHAR_REGEXP_exec r) as [x|]; [discriminate H|].
      destruct (is_line_terminator c) eqn:Ht; [|discriminate H].
      destruct (IH eq_refl) as (nl & rest & -> & Hnl & Hrest).
      exists (c :: nl), rest. cbn. rewrite Hs, Ht, Hnl. repeat split. exact Hrest.
    + destruct (is_line_terminator c) eqn:Ht; [|discriminate H].
      exists [], (c :: r). cbn. rewrite Hs, Ht. repeat split.
Qed.

Lemma exec_some (str : Text) (c : N) :
  FIRST_CHAR_REGEXP_exec str = Some c -> is_line_terminator c = false.
Proof.
  induction str as [|x r IH]; [discriminate|]. cbn [FIRST_CHAR_REGEXP_exec].
  destruct (is_space x).
  - destruct (FIRST_CHAR_REGEXP_exec r) as [y|].
    + intros [= ->]. apply IH. reflexivity.
    + destruct (is_line_terminator x) eqn:Ht; [discriminate|]. intros [= <-]. exact Ht.
  - destruct (is_line_terminator x) eqn:Ht; [discriminate|]. intros [= <-]. exact Ht.
Qed.

(** X11.  [firstchar] returns the first character after the leading white
    space (space, tab, line feed, carriage return), provided it is no
    line terminator.  When nothing can be captured after the white space
    (the string ends there, or goes on with U+2028 or U+2029) the white
    space gives back its last character that is no line terminator, a
    space or a tab; and when there is none, on line feeds and carriage
    returns followed by nothing or by U+2028 or U+2029, the empty string
    among them, the pattern does not match and [firstchar] throws.  These
    are the only strings on which it throws, and it never returns a line
    terminator. *)
Theorem firstchar_spec :
  (forall ws c rest,
     all_space ws = true -> is_space c = false -> is_line_terminator c = false ->
     firstchar (ws ++ c :: rest)%list = Some c)
  /\ (forall ws c nl rest,
        all_space ws = true -> is_space c = true -> is_line_terminator c = false ->
        all_newlines nl = true -> stops rest = true ->
        firstchar (ws ++ c :: nl ++ rest)%list = Some c)
  /\ (forall nl rest,
        all_newlines nl = true -> stops rest = true ->
        firstchar (nl ++ rest)%list = None)
  /\ (forall str,
        firstchar str = None ->
        exists nl rest,
          str = (nl ++ rest)%list /\ all_newlines nl = true /\ stops rest = true)
  /\ (forall str c, firstchar str = Some c -> is_line_terminator c = false)
  /\ (forall c,
        is_line_terminator c = true <->
        c = 10%N \/ c = 13%N \/ c = 8232%N \/ c = 8233%N)
  /\ (forall c,
        is_space c = true <-> c = 32%N \/ c = 9%N \/ c = 10%N \/ c = 13%N).
Proof.
  split; [exact exec_first|]. split; [exact exec_blank|]. split; [exact exec_newlines|].
  split; [exact exec_none|]. split; [exact exec_some|].
  split; intros c; unfold is_line_terminator, is_space; rewrite !orb_true_iff, !N.eqb_eq;
    tauto.
Qed.

(** *** [parse] *)

Lemma indexOf_first (ws : Text) (c : N) (rest : Text) :
  all_space ws = true -> is_space c = false ->
  substring0 (ws ++ c :: rest)%list (indexOf (ws ++ c :: rest)%list c) = ws.
Proof.
  intros Hws Hc.
  assert (H : indexOf (ws ++ c :: rest)%list c = Z.of_nat (List.length ws)).
  { induction ws as [|w ws IH]; cbn [app indexOf List.length].
    - rewrite N.eqb_refl. reflexivity.
    - cbn in Hws. apply andb_true_iff in Hws as [Hw Hws].
      destruct (N.eqb_spec w c) as [->|N]; [congruence|].
      rewrite (IH Hws).
      destruct (Z.of_nat (List.length ws) <? 0)%Z eqn:E; lia. }
  rewrite H. unfold substring0. rewrite Nat2Z.id.
  clear H Hws. induction ws as [|w ws IH]; cbn; [reflexivity|].
  rewrite IH. reflexivity.
Qed.

(** In strict mode a body that starts, after its white space, with
    something else than a brace or a bracket is rejected on the white space
    and that character alone. *)
Lemma strict_rejects (ws : Text) (c : N) (rest : Text) :
  all_space ws = true -> is_space c = false -> is_line_terminator c = false ->
  c <> 123%N -> c <> 91%N ->
  PARSE true (ws ++ c :: rest)%list =
    Some (PlainError
            (replace_hash c
               (match JSON_parse (ws ++ [35%N])%list with
                | Some message => message
                | None => code_units "strict violation"
                end))).
Proof.
  intros Hws Hc Ht N1 N2. unfold parse.
  destruct (ws ++ c :: rest)%list as [|x l] eqn:E; [destruct ws; discriminate E|].
  rewrite <- E. clear E x l.
  unfold firstchar. rewrite (exec_first ws c rest Hws Hc Ht).
  destruct (N.eqb_spec c 123); [congruence|].
  destruct (N.eqb_spec c 91); [congruence|]. cbn [negb andb].
  unfold createStrictSyntaxError. cbv zeta.
  rewrite (indexOf_first ws c rest Hws Hc).
  destruct (JSON_parse (ws ++ [35%N])%list); reflexivity.
Qed.

(** X12.  [parse] takes an empty body for the empty object, in either
    mode.  In strict mode a body whose first character after the leading
    white space is neither an opening brace nor an opening bracket (nor a
    line terminator) is rejected before [JSON.parse] sees it: the error is
    a syntax error with the message [JSON.parse] gives for the white space
    followed by [#], the [#] of the message replaced by that character, so
    that it depends on nothing of the body beyond it; a body that does
    start with a brace or a bracket is parsed as without the strict mode;
    and a body of line feeds and carriage returns alone, or one that goes
    on with U+2028 or U+2029 after them, makes [firstchar] throw its
    [TypeError]. *)
Theorem strict_gate :
  (forall mode, PARSE mode [] = None)
  /\ (forall ws c rest,
        all_space ws = true -> is_space c = false -> is_line_terminator c = false ->
        c <> 123%N -> c <> 91%N ->
        PARSE true (ws ++ c :: rest)%list =
          Some (PlainError
                  (replace_hash c
                     (match JSON_parse (ws ++ [35%N])%list with
                      | Some message => message
                      | None => code_units "strict violation"
                      end))))
  /\ (forall ws c rest,
        all_space ws = true -> c = 123%N \/ c = 91%N ->
        PARSE true (ws ++ c :: rest)%list = PARSE false (ws ++ c :: rest)%list)
  /\ (forall nl rest,
        (nl ++ rest)%list <> [] -> all_newlines nl = true -> stops rest = true ->
        PARSE true (nl ++ rest)%list = Some null_index_error)
  /\ (forall c message,
        replace_hash c (35%N :: message) = c :: message
        /\ forall x, x <> 35%N ->
             replace_hash c (x :: message) = x :: replace_hash c message).
Proof.
  split; [intros mode; reflexivity|].
  split; [exact strict_rejects|].
  split; [|split].
  - intros ws c rest Hws Hc. unfold parse.
    destruct (ws ++ c :: rest)%list as [|x l] eqn:E; [destruct ws; discriminate E|].
    rewrite <- E. clear E x l.
    unfold firstchar. rewrite (exec_first ws c rest Hws).
    + destruct Hc as [-> | ->]; reflexivity.
    + destruct Hc as [-> | ->]; reflexivity.
    + destruct Hc as [-> | ->]; reflexivity.
  - intros nl rest Hne Hnl Hrest. unfold parse.
    destruct (nl ++ rest)%list as [|x l] eqn:E; [congruence|].
    rewrite <- E. clear x l E Hne.
    unfold firstchar. rewrite (exec_newlines nl rest Hnl Hrest). reflexivity.
  - intros c message. split; [reflexivity|].
    intros x Hx. cbn [replace_hash]. destruct (N.eqb_spec x 35); [contradiction|reflexivity].
Qed.

(** *** [jsonParser] *)

Local Notation "'JP'" :=
  (jsonParser dstate iconv_getDecoder iconv_encodingExists iconv_decode createError
              toUpperCase JSON_parse JSON_parse_reviver null_index_error
              delete_own typeis_hasBody shouldParse contentType_parse parse_buffer strict
              inflate verify limit).
Local Notation "'HANDLE'" :=
  (handle dstate iconv_getDecoder iconv_encodingExists iconv_decode createError
          toUpperCase JSON_parse JSON_parse_reviver null_index_error
          delete_own typeis_hasBody shouldParse contentType_parse parse_buffer strict
          inflate verify limit decoder_write decoder_end).
Local Notation "'CHARSET'" := (charset_of contentType_parse).
Local Notation "'OPTIONS'" := (read_options contentType_parse inflate limit).
Local Notation "'PARSE_ANY'" :=
  (parse_any JSON_parse JSON_parse_reviver null_index_error delete_own
             parse_buffer strict).



(** *** [json] *)

(** X14.  [json] called with no options reads up to 102400 bytes (100kb),
    inflates, is strict and verifies nothing; a [verify] option that is
    neither falsy nor a function makes it throw.  A limit that is a
    number is kept as it is; a missing or falsy limit is 100kb; any
    other limit goes through [bytes.parse].  [getRawBody] applies
    [bytes.parse] to the limit once more and hands the result to the
    accumulator: 102400 for the default, and [null] for a limit that is
    no size (a string with no number at its start, [true], NaN), so
    that no count is ever over the limit. *)
Theorem json_options :
  json None
  = inl (mkClosure (Bytes.Number (Bytes.of_int false 102400)) true true None)
  /\ (forall o, o_verify o = verify_other ->
        json (Some o) = inr (PlainError "option verify must be function"))
  /\ (forall o, o_verify o <> verify_other ->
        exists c, json (Some o) = inl c
                  /\ c_limit c = json_limit (o_limit o)
                  /\ (c_inflate c = false <-> o_inflate o = Some false)
                  /\ (c_strict c = false <-> o_strict o = Some false)
                  /\ (c_verify c = None <-> o_verify o = verify_falsy))
  /\ (forall x, json_limit (Bytes.Number x) = Bytes.Number x)
  /\ (forall v,
        v = Bytes.Undefined \/ v = Bytes.Null \/ v = Bytes.Str EmptyString
        \/ v = Bytes.Boolean false ->
        json_limit v = Bytes.Number (Bytes.of_int false 102400))
  /\ (forall s, s <> EmptyString -> json_limit (Bytes.Str s) = Bytes.parse (Bytes.Str s))
  /\ (forall s,
        s <> EmptyString ->
        Bytes.starts_with_digit (snd (Bytes.take_sign (Bytes.trim_start s))) = false ->
        Bytes.parse (json_limit (Bytes.Str s)) = Bytes.Null
        /\ limit_of (json_limit (Bytes.Str s)) = None)
  /\ (Bytes.parse (json_limit (Bytes.Boolean true)) = Bytes.Null
      /\ limit_of (json_limit (Bytes.Boolean true)) = None)
  /\ (Bytes.parse (json_limit (Bytes.Number Bytes.NaN)) = Bytes.Null
      /\ limit_of (json_limit (Bytes.Number Bytes.NaN)) = None)
  /\ limit_of (json_limit Bytes.Undefined) = Some (Int 102400)
  /\ (forall (opts : IOptions) (callback : Args -> list action) (st : state dstate),
        getRawBody dstate iconv_getDecoder opts callback st
        = readStream dstate iconv_getDecoder callback (o_encoding opts)
            (expected_length (o_length opts)) (limit_of (RawBody.o_limit opts)) st)
  /\ (forall req, opt_limit (OPTIONS req) = limit)
  /\ (forall n, over_limit None n = false).
Proof.
  assert (Hstr : forall s, s <> EmptyString ->
                   json_limit (Bytes.Str s) = Bytes.parse (Bytes.Str s)).
  { intros s Hne. unfold json_limit, truthy.
    destruct (String.eqb_spec s EmptyString); [contradiction|reflexivity]. }
  split; [vm_compute; reflexivity|].
  split; [intros o H; unfold json; rewrite H; reflexivity|].
  split.
  { intros o H. unfold json.
    destruct (o_verify o) as [|f|]; [| |contradiction]; eexists; (split; [reflexivity|]);
      cbn [c_limit c_inflate c_strict c_verify];
      (split; [reflexivity|]);
      (split; [destruct (o_inflate o) as [[]|]; split; congruence|]);
      (split; [destruct (o_strict o) as [[]|]; split; congruence|]);
      split; congruence. }
  split; [reflexivity|].
  split; [intros v [-> |[-> |[-> | ->]]]; vm_compute; reflexivity|].
  split; [exact Hstr|].
  split.
  { intros s Hne H. rewrite (Hstr s Hne).
    destruct (no_number_no_match s H) as [H1 H2].
    assert (E : Bytes.parse (Bytes.Str s) = Bytes.Number Bytes.NaN).
    { unfold Bytes.parse. rewrite H1, H2. vm_compute. reflexivity. }
    unfold limit_of. rewrite E. split; reflexivity. }
  split; [split; reflexivity|].
  split; [split; reflexivity|].
  split; [vm_compute; reflexivity|].
  repeat split.
Qed.

(** *** A body through the middleware *)

(** X16.  A request the middleware takes on (not yet parsed, with a body,
    of its type, in a utf- charset the registry has), without a [verify]
    function, whose body arrives whole within the limit (an integer, or
    none) and with as many bytes as the [content-length] header says,
    when it says so: once the stream ends [next] is called once, with
    nothing when [parse] accepts the decoded text, with the 400 error
    "entity.parse.failed" (or the type the error carries) and the text as
    its body when [parse] throws.  So an empty body is accepted, as the
    empty object; and in strict mode a text that starts with something
    else than a brace or a bracket is refused with a syntax error whose
    message is the one [JSON.parse] gives for the white space followed by
    [#]. *)
Theorem json_body (req : ServerRequest) (cs : ContentStream) (chunks : list Buffer)
    (d0 : dstate) :
  _body req = false -> typeis_hasBody req = true -> shouldParse req = true ->
  String.substring 0 4 (CHARSET req) = "utf-" ->
  verify = None ->
  fst (contentstream dstate (incoming req) (Some inflate)
         (world dstate (req_stream (incoming req)) (req_finished (incoming req)))) = inl cs ->
  encoding_set (req_stream (incoming req)) = false ->
  iconv_getDecoder (CHARSET req) = inl d0 ->
  (limit_of limit = None
   \/ exists lim : Z, limit_of limit = Some lim /\ (total chunks <= lim)%Z) ->
  (expected_length (cs_length cs) = None
   \/ expected_length (cs_length cs) = Some (total chunks)) ->
  nexts (trace (HANDLE req (List.map Data chunks ++ [EndOfStream]))) =
    match PARSE strict (decode_chunks dstate decoder_write decoder_end d0 chunks) with
    | None => [None]
    | Some err =>
        [Some (createError 400 err
                 (mkProps (Some (type_or err "entity.parse.failed")) None None None None
                    None None None
                    (Some (BodyString
                             (decode_chunks dstate decoder_write decoder_end d0 chunks)))))]
    end
  /\ (decode_chunks dstate decoder_write decoder_end d0 chunks = [] ->
      nexts (trace (HANDLE req (List.map Data chunks ++ [EndOfStream]))) = [None])
  /\ (strict = true ->
      forall ws c rest,
        decode_chunks dstate decoder_write decoder_end d0 chunks = (ws ++ c :: rest)%list ->
        all_space ws = true -> is_space c = false -> is_line_terminator c = false ->
        c <> 123%N -> c <> 91%N ->
        nexts (trace (HANDLE req (List.map Data chunks ++ [EndOfStream]))) =
          [Some (createError 400
                   (PlainError
                      (replace_hash c
                         (match JSON_parse (ws ++ [35%N])%list with
                          | Some message => message
                          | None => code_units "strict violation"
                          end)))
                   (mkProps (Some "entity.parse.failed") None None None None None None None
                      (Some (BodyString (ws ++ c :: rest)%list))))]).
Proof.
  intros A B C D Hv Hcs Henc Hd0 Hlim Hlen.
  assert (Hne : CHARSET req <> EmptyString).
  { intros E. rewrite E in D. discriminate D. }
  assert (Hjp : snd (JP req)
                = read dstate iconv_getDecoder iconv_encodingExists iconv_decode createError
                       toUpperCase verify PARSE_ANY (incoming req) (OPTIONS req)).
  { unfold jsonParser. rewrite A, B, C. cbn [negb]. rewrite D. reflexivity. }
  destruct (serve_succeeds dstate iconv_getDecoder decoder_write decoder_end
              iconv_encodingExists iconv_decode createError toUpperCase verify PARSE_ANY
              (incoming req) (OPTIONS req) cs chunks (Some d0) Hcs Henc)
    as (_ & _ & H3); try assumption.
  { intros H. contradiction. }
  { case_eq verify; [intros check E; congruence|]. intros _.
    cbn [opt_encoding read_options]. unfold getDecoder.
    destruct (CHARSET req) as [|c0 c]; [congruence|]. rewrite Hd0. reflexivity. }
  assert (E : HANDLE req (List.map Data chunks ++ [EndOfStream])
              = serve dstate iconv_getDecoder decoder_write decoder_end iconv_encodingExists
                      iconv_decode createError toUpperCase verify PARSE_ANY
                      (incoming req) (OPTIONS req) (List.map Data chunks ++ [EndOfStream])).
  { unfold handle. rewrite Hjp. reflexivity. }
  rewrite E. clear E.
  set (S := serve dstate iconv_getDecoder decoder_write decoder_end iconv_encodingExists
                  iconv_decode createError toUpperCase verify PARSE_ANY
                  (incoming req) (OPTIONS req) (List.map Data chunks ++ [EndOfStream])) in *.
  cbn [body_of opt_encoding read_options] in H3.
  set (text := decode_chunks dstate decoder_write decoder_end d0 chunks) in *.
  cbn [on_body] in H3. rewrite Hv in H3. unfold parse_body in H3. cbn [parse_any] in H3.
  assert (Hmain : nexts (trace S) =
                  match PARSE strict text with
                  | None => [None]
                  | Some err =>
                      [Some (createError 400 err
                               (mkProps (Some (type_or err "entity.parse.failed")) None None
                                  None None None None None (Some (BodyString text))))]
                  end).
  { rewrite H3. destruct (PARSE strict text); reflexivity. }
  split; [exact Hmain|]. split.
  - intros Et. rewrite Hmain, Et. reflexivity.
  - intros Hs ws c rest Et Hws Hc Ht N1 N2.
    rewrite Hmain, Et, Hs, (strict_rejects ws c rest Hws Hc Ht N1 N2). reflexivity.
Qed.

(** *** What [parse] throws *)

(** X17.  [parse] throws on a body that is not empty, and what it throws
    is one of four things.  In strict mode, on a body [firstchar] finds no
    character in, the [TypeError] of indexing [null]; in strict mode, on a
    body whose first character is neither a brace nor a bracket, a syntax
    error with a message and nothing else, which [read] reports with the
    type "entity.parse.failed".  Otherwise, when the evaluation of
    [JSON.parse] throws an error, that error with its own message, once
    the properties it holds itself are deleted: an error with a message
    and nothing else, as the [SyntaxError] of the engine is, comes out as
    it is; and when what is thrown is no error object, the [TypeError]
    the engine throws as [parse] handles it. *)
Theorem parse_errors (mode : bool) (body : Text) (err : Error) :
  PARSE mode body = Some err ->
  body <> []
  /\ ((mode = true /\ firstchar body = None /\ err = null_index_error)
      \/ (mode = true
          /\ exists c message,
               firstchar body = Some c /\ c <> 123%N /\ c <> 91%N
               /\ err = PlainError (replace_hash c message)
               /\ error_status err = None
               /\ type_or err "entity.parse.failed" = "entity.parse.failed")
      \/ ((mode = false \/ firstchar body = Some 123%N \/ firstchar body = Some 91%N)
          /\ (JSON_parse_reviver body = Some (not_an_error err)
              \/ (exists message,
                    JSON_parse_reviver body = Some (an_error (PlainError message))
                    /\ err = PlainError message)
              \/ (exists status message props,
                    JSON_parse_reviver body
                    = Some (an_error (HttpError status message props))
                    /\ err = set_message message
                               (delete_own (HttpError status message props)))))).
Proof.
  unfold parse. destruct body as [|b0 body']; [discriminate|].
  set (body := b0 :: body') in *.
  intros H. split; [discriminate|].
  assert (Hrest : forall r,
            match JSON_parse_reviver body with
            | Some (an_error e) =>
                Some (normalizeJsonSyntaxError delete_own e (error_message e))
            | Some (not_an_error type_error) => Some type_error
            | None => None
            end = Some r ->
            JSON_parse_reviver body = Some (not_an_error r)
            \/ (exists message,
                  JSON_parse_reviver body = Some (an_error (PlainError message))
                  /\ r = PlainError message)
            \/ (exists status message props,
                  JSON_parse_reviver body
                  = Some (an_error (HttpError status message props))
                  /\ r = set_message message
                           (delete_own (HttpError status message props)))).
  { intros r.
    destruct (JSON_parse_reviver body) as [[[status message props|message]|type_error]|];
      [| | |discriminate]; intros [= <-].
    - right. right. exists status, message, props. split; reflexivity.
    - right. left. exists message. split; reflexivity.
    - left. reflexivity. }
  destruct mode.
  - destruct (firstchar body) as [first|] eqn:F.
    + destruct (N.eqb_spec first 123) as [E1|N1].
      { right. right. split; [right; left; rewrite E1; reflexivity|].
        apply Hrest. exact H. }
      destruct (N.eqb_spec first 91) as [E2|N2].
      { right. right. split; [right; right; rewrite E2; reflexivity|].
        apply Hrest. exact H. }
      cbn [negb andb] in H. injection H as <-.
      right. left. split; [reflexivity|].
      unfold createStrictSyntaxError. cbv zeta.
      destruct (JSON_parse _) as [message|].
      * exists first, message. repeat split; assumption.
      * exists first, (code_units "strict violation"). repeat split; assumption.
    + injection H as <-. left. repeat split.
  - right. right. split; [left; reflexivity|]. apply Hrest. exact H.
Qed.

End JsonFacts.

(** ** The accumulator on concrete streams *)

(** Closes an equation between two closed terms from an instance [G] of a
    theorem: both sides are evaluated and compared with the sides of [G]. *)
Ltac by_evaluation G :=
  refine (eq_trans _ (eq_trans G _)); vm_compute; reflexivity.

Section Scenarios.

Import RawBody.

(** The accumulator on its own, with a callback that does nothing, on a
    paused stream. *)
Local Notation "'nothing'" := (fun _ : Args => @nil action).
Local Notation "'read1' e l m" :=
  (readStream unit Latin1.getDecoder nothing e l m (world unit Latin1.quiet false))
  (at level 10, e at level 9, l at level 9, m at level 9).
Local Notation "'run1' e l m sigs" :=
  (run unit Latin1.write Latin1.finish nothing l m
       (readStream unit Latin1.getDecoder nothing e l m (world unit Latin1.quiet false))
       sigs)
  (at level 10, e at level 9, l at level 9, m at level 9, sigs at level 9).

(** C1, the claim as stated: a stream that closes before it ends gets no
    outcome at all, whatever it signals afterwards. *)
Lemma close_delivers_nothing :
  calls (trace (run1 None (Some 10) None
                  [Data (Latin1.chunk "12345678"); Close; EndOfStream; Aborted; Tick]))
  = [].
Proof. vm_compute. reflexivity. Qed.

Lemma at_most_one_outcome_witness :
  le (List.length
        (calls (trace (run1 (Some "latin1"%string) (Some 5) (Some 100)
                         [Data (Latin1.chunk "hel"); Data (Latin1.chunk "lo");
                          EndOfStream; EndOfStream; Close]))))
     1%nat.
Proof.
  exact (proj1 (at_most_one_outcome unit Latin1.getDecoder Latin1.write Latin1.finish
                  nothing (Some "latin1"%string) (Some 5) (Some 100) Latin1.quiet false
                  [Data (Latin1.chunk "hel"); Data (Latin1.chunk "lo"); EndOfStream; EndOfStream; Close])).
Defined.

(** Scenario 4: limit 10, chunks of 8 then 7 bytes. *)
Lemma over_limit_fails_witness :
  calls (trace (run1 None None (Some 10)
                  [Data (Latin1.chunk "12345678"); Data (Latin1.chunk "abcdefg")]))
  = [Failure (HttpError 413 "request entity too large"
       (mkProps (Some "entity.too.large"%string) None None None (Some 10) (Some 15)
          None None None))]
  /\ run1 None None (Some 10)
       [Data (Latin1.chunk "12345678"); Data (Latin1.chunk "abcdefg");
        Data (Latin1.chunk "more"); EndOfStream]
     = run1 None None (Some 10)
         [Data (Latin1.chunk "12345678"); Data (Latin1.chunk "abcdefg")].
Proof.
  assert (H1 : complete (run1 None None (Some 10) [Data (Latin1.chunk "12345678")])
               = false) by (vm_compute; reflexivity).
  assert (H2 : listeners (run1 None None (Some 10) [Data (Latin1.chunk "12345678")])
               <> []) by (vm_compute; discriminate).
  assert (H3 : 10 < received (run1 None None (Some 10) [Data (Latin1.chunk "12345678")])
                    + Buffer_length (Latin1.chunk "abcdefg")) by (vm_compute; reflexivity).
  destruct (over_limit_fails unit Latin1.getDecoder Latin1.write Latin1.finish nothing
              None None (Some 10) Latin1.quiet false [Data (Latin1.chunk "12345678")]
              (Latin1.chunk "abcdefg") 10 eq_refl H1 H2 H3) as (_ & G2 & G3).
  specialize (G3 [Data (Latin1.chunk "more"); EndOfStream] eq_refl).
  split; [by_evaluation G2|by_evaluation G3].
Defined.

(** C7, the claim as stated: the stream closes after four bytes, which
    detaches the listeners of a read that is not complete; the abort that
    follows is delivered to no one. *)
Lemma abort_after_close_delivers_nothing :
  complete (run1 None (Some 10) None [Data (Latin1.chunk "1234"); Close]) = false
  /\ calls (trace (run1 None (Some 10) None [Data (Latin1.chunk "1234"); Close; Aborted]))
     = []
  /\ calls (trace (run1 None (Some 10) None
                     [Data (Latin1.chunk "1234"); Close; Aborted; Tick; Finished]))
     = [].
Proof. repeat split; vm_compute; reflexivity. Qed.

Lemma abort_fails_witness :
  calls (trace (run1 None (Some 10) None [Data (Latin1.chunk "1234"); Aborted]))
  = [Failure (HttpError 400 "request aborted"
       (mkProps (Some "request.aborted"%string) (Some "ECONNABORTED"%string)
          (Some 10) (Some 10) None (Some 4) None None None))].
Proof.
  assert (H1 : complete (run1 None (Some 10) None [Data (Latin1.chunk "1234")])
               = false) by (vm_compute; reflexivity).
  assert (H2 : listeners (run1 None (Some 10) None [Data (Latin1.chunk "1234")])
               <> []) by (vm_compute; discriminate).
  destruct (abort_fails unit Latin1.getDecoder Latin1.write Latin1.finish nothing
              None (Some 10) None Latin1.quiet false [Data (Latin1.chunk "1234")])
    as (G & _).
  destruct (G H1 H2) as (G1 & _).
  by_evaluation G1.
Defined.

(** C4, the claim as stated: the stream closes after four bytes of the
    ten expected, and the end of the stream that follows neither fails
    the read nor makes it succeed. *)
Lemma end_after_close_delivers_nothing :
  complete (run1 None (Some 10) None [Data (Latin1.chunk "1234"); Close]) = false
  /\ calls (trace (run1 None (Some 10) None
                     [Data (Latin1.chunk "1234"); Close; EndOfStream]))
     = []
  /\ calls (trace (run1 None (Some 10) None
                     [Data (Latin1.chunk "1234"); Close; EndOfStream; Tick; Finished]))
     = [].
Proof. repeat split; vm_compute; reflexivity. Qed.

(** Scenario 1 without a charset: declared length 5, limit 100, the bytes
    of "hello" in two chunks. *)
Lemma end_of_stream_witness :
  calls (trace (run1 None (Some 5) (Some 100)
                  [Data (Latin1.chunk "hel"); Data (Latin1.chunk "lo"); EndOfStream]))
  = [Success (BodyBuffer (Latin1.chunk "hello"))].
Proof.
  assert (H1 : complete (run1 None (Some 5) (Some 100)
                           [Data (Latin1.chunk "hel"); Data (Latin1.chunk "lo")])
               = false) by (vm_compute; reflexivity).
  assert (H2 : listeners (run1 None (Some 5) (Some 100)
                            [Data (Latin1.chunk "hel"); Data (Latin1.chunk "lo")])
               <> []) by (vm_compute; discriminate).
  assert (H3 : Some (Int 5)
               = Some (Int (received (run1 None (Some 5) (Some 100)
                                        [Data (Latin1.chunk "hel");
                                         Data (Latin1.chunk "lo")]))))
    by (vm_compute; reflexivity).
  destruct (end_of_stream unit Latin1.getDecoder Latin1.write Latin1.finish
              nothing None (Some 5) (Some 100) Latin1.quiet
              false [Data (Latin1.chunk "hel"); Data (Latin1.chunk "lo")])
    as (G & _).
  destruct (G H1 H2) as (_ & _ & _ & G4 & _).
  specialize (G4 (or_intror H3)).
  by_evaluation G4.
Defined.

(** Scenario 1: the same stream read as latin1 text. *)
Example end_of_stream_decoded :
  calls (trace (run1 (Some "latin1"%string) (Some 5) (Some 100)
                  [Data (Latin1.chunk "hel"); Data (Latin1.chunk "lo"); EndOfStream]))
  = [Success (BodyString "hello")].
Proof. vm_compute. reflexivity. Qed.

(** Scenario 2: declared length 10, seven bytes received. *)
Example size_mismatch_scenario :
  calls (trace (run1 None (Some 10) None
                  [Data (Latin1.chunk "1234"); Data (Latin1.chunk "567"); EndOfStream]))
  = [Failure (HttpError 400 "request size did not match content length"
       (mkProps (Some "request.size.invalid"%string) None (Some 10) (Some 10) None
          (Some 7) None None None))].
Proof. vm_compute. reflexivity. Qed.

(** An expected length that is NaN matches no count, not even zero. *)
Example size_never_matches :
  calls (trace (run1 None (Some (Float S754_nan)) None [EndOfStream]))
  = [Failure (HttpError 400 "request size did not match content length"
       (mkProps (Some "request.size.invalid"%string) None (Some (Float S754_nan))
          (Some (Float S754_nan)) None (Some 0) None None None))].
Proof. vm_compute. reflexivity. Qed.

Lemma length_over_limit_fails_witness :
  trace (read1 None (Some 11) (Some 10)) = []
  /\ calls (trace (run1 None (Some 11) (Some 10)
                     [Data (Latin1.chunk "12345678901"); Tick; EndOfStream]))
     = [Failure (HttpError 413 "request entity too large"
          (mkProps (Some "entity.too.large"%string) None (Some 11) (Some 11) (Some 10)
             None None None None))].
Proof.
  assert (H : 10 < 11) by reflexivity.
  destruct (length_over_limit_fails unit Latin1.getDecoder Latin1.write Latin1.finish
              nothing None (Some 11) (Some 10) Latin1.quiet false 11 10 eq_refl eq_refl H)
    as (G1 & _ & _ & _ & G5).
  destruct (G5 [Data (Latin1.chunk "12345678901"); Tick; EndOfStream]) as (_ & _ & _ & G).
  split; [by_evaluation G1|by_evaluation G].
Defined.

Lemma always_asynchronous_witness :
  calls (trace (read1 (Some "utf-7"%string) None None)) = []
  /\ nextTick (read1 (Some "utf-7"%string) None None)
     = [Failure (HttpError 415 "specified encoding unsupported"
          (mkProps (Some "encoding.unsupported"%string) None None None None None
             (Some "utf-7"%string) None None))].
Proof.
  destruct (always_asynchronous unit Latin1.getDecoder Latin1.write Latin1.finish nothing
              (Some "utf-7"%string) None None Latin1.quiet false)
    as (G1 & _ & _ & _ & G5 & _).
  specialize (G5 _ eq_refl eq_refl eq_refl).
  split; [by_evaluation G1|by_evaluation G5].
Defined.

(** A close after four bytes: nothing is ever delivered. *)
Lemma close_abandons_read_witness :
  calls (trace (run1 None (Some 10) None
                  [Data (Latin1.chunk "1234"); Close; EndOfStream; Tick; Finished]))
  = [].
Proof.
  assert (H1 : complete (run1 None (Some 10) None [Data (Latin1.chunk "1234")])
               = false) by (vm_compute; reflexivity).
  assert (H2 : listeners (run1 None (Some 10) None [Data (Latin1.chunk "1234")])
               <> []) by (vm_compute; discriminate).
  destruct (close_abandons_read unit Latin1.getDecoder Latin1.write Latin1.finish nothing
              None (Some 10) None Latin1.quiet false [Data (Latin1.chunk "1234")]
              [EndOfStream; Tick; Finished] H1 H2)
    as (_ & _ & _ & _ & _ & G).
  by_evaluation G.
Defined.

(** An error of the socket after four bytes. *)
Lemma stream_error_forwarded_witness :
  calls (trace (run1 None None None
                  [Data (Latin1.chunk "1234"); StreamError "socket hang up"; EndOfStream]))
  = [Failure (PlainError "socket hang up")].
Proof.
  assert (H1 : complete (run1 None None None [Data (Latin1.chunk "1234")])
               = false) by (vm_compute; reflexivity).
  assert (H2 : listeners (run1 None None None [Data (Latin1.chunk "1234")])
               <> []) by (vm_compute; discriminate).
  destruct (stream_error_forwarded unit Latin1.getDecoder Latin1.write Latin1.finish nothing
              None None None Latin1.quiet false [Data (Latin1.chunk "1234")]
              [EndOfStream] "socket hang up" H1 H2)
    as (_ & _ & G).
  by_evaluation G.
Defined.

(** Five bytes for a limit of five: the limit is inclusive. *)
Lemma read_succeeds_witness :
  calls (trace (run1 (Some "latin1"%string) (Some 5) (Some 5)
                  [Data (Latin1.chunk "hel"); Data (Latin1.chunk "lo"); EndOfStream]))
  = [Success (BodyString "hello")].
Proof.
  assert (H1 : encoding_set Latin1.quiet = false) by reflexivity.
  assert (H2 : getDecoder unit Latin1.getDecoder (Some "latin1"%string) = inl (Some tt))
    by (vm_compute; reflexivity).
  assert (H3 : forall lim, Some 5 = Some lim ->
                 total [Latin1.chunk "hel"; Latin1.chunk "lo"] <= lim)
    by (intros lim [= <-]; vm_compute; discriminate).
  assert (H4 : forall len, Some 5 = Some len ->
                 total [Latin1.chunk "hel"; Latin1.chunk "lo"] = len)
    by (intros len [= <-]; vm_compute; reflexivity).
  destruct (read_succeeds unit Latin1.getDecoder Latin1.write Latin1.finish nothing
              (Some "latin1"%string) (Some 5) (Some 5) Latin1.quiet false
              [Latin1.chunk "hel"; Latin1.chunk "lo"] (Some tt) H1 H2 H3 H4)
    as (_ & G & _).
  by_evaluation G.
Defined.

(** The same bytes without a charset: the chunks, concatenated. *)
Example read_succeeds_raw :
  calls (trace (run1 None (Some 5) (Some 5)
                  [Data (Latin1.chunk "hel"); Data (Latin1.chunk "lo"); EndOfStream]))
  = [Success (BodyBuffer (Latin1.chunk "hello"))].
Proof. vm_compute. reflexivity. Qed.

(** Eight bytes buffered for a limit of ten. *)
Lemma buffer_bounded_witness :
  received (run1 None None (Some 10) [Data (Latin1.chunk "1234"); Data (Latin1.chunk "5678")])
  = 0
  \/ received (run1 None None (Some 10)
                 [Data (Latin1.chunk "1234"); Data (Latin1.chunk "5678")])
     <= 10.
Proof.
  assert (H1 : complete (run1 None None (Some 10)
                           [Data (Latin1.chunk "1234"); Data (Latin1.chunk "5678")])
               = false) by (vm_compute; reflexivity).
  assert (H2 : listeners (run1 None None (Some 10)
                            [Data (Latin1.chunk "1234"); Data (Latin1.chunk "5678")])
               <> []) by (vm_compute; discriminate).
  exact (proj1 (proj2 (buffer_bounded unit Latin1.getDecoder Latin1.write Latin1.finish
                         nothing None None (Some 10) Latin1.quiet false
                         [Data (Latin1.chunk "1234"); Data (Latin1.chunk "5678")] H1 H2))
               10 eq_refl).
Defined.

(** Two bytes, then three more for a limit of four. *)
Lemma read_fails_witness :
  calls (trace (run1 None None (Some 4)
                  [Data (Latin1.chunk "12"); Data (Latin1.chunk "345"); EndOfStream]))
  = [Failure (HttpError 413 "request entity too large"
       (mkProps (Some "entity.too.large"%string) None None None (Some 4) (Some 5)
          None None None))].
Proof.
  assert (H1 : encoding_set Latin1.quiet = false) by reflexivity.
  assert (H2 : getDecoder unit Latin1.getDecoder None = inl None) by reflexivity.
  destruct (read_fails unit Latin1.getDecoder Latin1.write Latin1.finish nothing
              None None (Some 4) Latin1.quiet false None H1 H2) as (G & _).
  assert (H3 : forall len, @None Z = Some len -> len <= 4) by (intros len H; discriminate H).
  assert (H4 : total [Latin1.chunk "12"] <= 4) by (vm_compute; discriminate).
  assert (H5 : 4 < total [Latin1.chunk "12"] + Buffer_length (Latin1.chunk "345"))
    by (vm_compute; reflexivity).
  specialize (G [Latin1.chunk "12"] (Latin1.chunk "345") [EndOfStream] 4 eq_refl H3 H4 H5).
  by_evaluation G.
Defined.

End Scenarios.

(** ** The orchestrator on concrete requests *)

Section Requests.

Import RawBody Read.

(** No [verify] function, a [parse] that accepts everything. *)
Local Notation "'serve1'" :=
  (serve unit Latin1.getDecoder Latin1.write Latin1.finish Latin1.supported Latin1.decode
         Latin1.createError Latin1.toUpperCase None (fun _ => None)).
Local Notation "'react1'" :=
  (react unit Latin1.write Latin1.finish Latin1.decode Latin1.createError
         Latin1.toUpperCase None (fun _ => None)).
Local Notation "'reading1'" :=
  (read unit Latin1.getDecoder Latin1.supported Latin1.decode
        Latin1.createError Latin1.toUpperCase None (fun _ => None)).

(** A [verify] function that rejects every body, and a [parse] that
    throws on anything but text. *)
Local Notation "'rejecting'" :=
  (Some (fun _ : Body => Some (PlainError "bad signature"))).
Local Notation "'serve2'" :=
  (serve unit Latin1.getDecoder Latin1.write Latin1.finish Latin1.supported Latin1.decode
         Latin1.createError Latin1.toUpperCase rejecting (fun _ => None)).
Local Notation "'text_only'" :=
  (fun body : Body =>
     match body with
     | BodyString _ => None
     | BodyBuffer _ => Some (PlainError "not a string")
     end).

(** Scenario 3, content encoding "br", and a request in gzip: the
    request is piped into the transform, whose length is unknown. *)
Lemma contentstream_routes_witness :
  contentstream unit (mkRequest (Some "br"%string) (Some "5"%string) Latin1.quiet false) None
                (world unit Latin1.quiet false)
  = (inr (HttpError 415 ("unsupported content encoding " ++ quoted "br")
            (mkProps (Some "encoding.unsupported"%string) None None None None None
               (Some "br"%string) None None)),
     world unit Latin1.quiet false)
  /\ trace (snd (contentstream unit
                   (mkRequest (Some "GZip"%string) (Some "5"%string) Latin1.quiet false)
                   None (world unit Latin1.quiet false)))
     = [E_pipe]
  /\ fst (contentstream unit
            (mkRequest (Some "GZip"%string) (Some "5"%string) Latin1.quiet false)
            None (world unit Latin1.quiet false))
     = inl (mkContentStream zlib_gunzip None).
Proof.
  destruct (contentstream_routes unit
              (mkRequest (Some "br"%string) (Some "5"%string) Latin1.quiet false) None
              (world unit Latin1.quiet false)) as (_ & _ & _ & _ & _ & G & _).
  assert (N1 : @None bool <> Some false) by discriminate.
  assert (N2 : encoding_token
                 (mkRequest (Some "br"%string) (Some "5"%string) Latin1.quiet false)
               <> "identity"%string) by (vm_compute; discriminate).
  assert (N3 : encoding_token
                 (mkRequest (Some "br"%string) (Some "5"%string) Latin1.quiet false)
               <> "gzip"%string) by (vm_compute; discriminate).
  assert (N4 : encoding_token
                 (mkRequest (Some "br"%string) (Some "5"%string) Latin1.quiet false)
               <> "deflate"%string) by (vm_compute; discriminate).
  specialize (G N1 N2 N3 N4).
  destruct (contentstream_routes unit
              (mkRequest (Some "GZip"%string) (Some "5"%string) Latin1.quiet false) None
              (world unit Latin1.quiet false)) as (_ & _ & _ & Z & _ & _ & _ & _ & P).
  assert (T : encoding_token
                (mkRequest (Some "GZip"%string) (Some "5"%string) Latin1.quiet false)
              = "gzip"%string) by (vm_compute; reflexivity).
  destruct (P N1 (or_introl T)) as (P1 & _).
  specialize (Z N1 T).
  split; [by_evaluation G|]. split; [by_evaluation P1|].
  exact (f_equal fst Z).
Defined.

(** C9, the claim as stated.  The charset "klingon" is not in the registry,
    the declared length is over the limit, and what [next] receives is
    the 413 error "entity.too.large".  And on a request in gzip the
    request has been piped into the decompressor when the charset is
    found to be unsupported. *)
Lemma charset_after_length_check :
  Latin1.supported "klingon" = false
  /\ nexts (trace (serve1 (mkRequest None (Some "50"%string) Latin1.quiet false)
                           (mkOptions (Some "klingon"%string) None (Latin1.bytes 10))
                           [Tick; Finished]))
     = [Some (HttpError 413 "request entity too large"
                (mkProps (Some "entity.too.large"%string) None (Some 50) (Some 50)
                   (Some 10) None None None None))]
  /\ trace (serve2 (mkRequest (Some "gzip"%string) None Latin1.quiet false)
                   (mkOptions (Some "klingon"%string) None (Latin1.bytes 10))
                   [])
     = [E_pipe;
        E_next (Some (HttpError 415 ("unsupported charset " ++ quoted "KLINGON")
                        (mkProps (Some "charset.unsupported"%string) None None None None
                           None None (Some "klingon"%string) None)))].
Proof. repeat split; vm_compute; reflexivity. Qed.

(** Scenario 5, with a charset no registry has, on a request in gzip. *)
Lemma unsupported_charset_witness :
  received (serve1 (mkRequest (Some "gzip"%string) None Latin1.quiet false)
                   (mkOptions (Some "klingon"%string) None (Latin1.bytes 10))
                   [Data (Latin1.chunk "hello"); EndOfStream]) = 0
  /\ trace (reading1 (mkRequest (Some "gzip"%string) None Latin1.quiet false)
                     (mkOptions (Some "klingon"%string) None (Latin1.bytes 10)))
     = [E_pipe]
  /\ (exists rest,
        trace (serve1 (mkRequest (Some "gzip"%string) None Latin1.quiet false)
                      (mkOptions (Some "klingon"%string) None (Latin1.bytes 10))
                      [Data (Latin1.chunk "hello"); EndOfStream])
        = E_pipe :: rest
        /\ never_attached rest = true)
  /\ nexts (trace (serve1 (mkRequest (Some "gzip"%string) None Latin1.quiet false)
                          (mkOptions (Some "klingon"%string) None (Latin1.bytes 10))
                          (Tick :: [Data (Latin1.chunk "hello"); EndOfStream]
                                ++ [Finished; Immediate])))
     = [Some (HttpError 415 ("unsupported charset " ++ quoted "KLINGON")
                (mkProps (Some "charset.unsupported"%string) None None None None None
                   None (Some "klingon"%string) None))].
Proof.
  assert (H1 : "klingon"%string <> EmptyString) by discriminate.
  assert (H2 : Latin1.supported "klingon" = false) by reflexivity.
  assert (H3 : Latin1.getDecoder "klingon" = inr (Latin1.not_recognized "klingon"))
    by reflexivity.
  assert (H4 : ICONV_ENCODING_MESSAGE_REGEXP_test (Latin1.not_recognized "klingon") = true)
    by reflexivity.
  assert (H5 : fst (contentstream unit
                      (mkRequest (Some "gzip"%string) None Latin1.quiet false) None
                      (world unit Latin1.quiet false))
               = inl (mkContentStream zlib_gunzip None)) by reflexivity.
  assert (H6 : @None (Body -> option Error) = None ->
               length_over_limit (expected_length None) (limit_of (Latin1.bytes 10))
               = false) by (intros _; vm_compute; reflexivity).
  assert (H7 : @None (Body -> option Error) = None ->
               encoding_set
                 (stream (snd (contentstream unit
                                 (mkRequest (Some "gzip"%string) None Latin1.quiet false)
                                 None (world unit Latin1.quiet false))))
               = false) by (intros _; reflexivity).
  destruct (unsupported_charset unit Latin1.getDecoder Latin1.write Latin1.finish
              Latin1.supported Latin1.decode Latin1.createError Latin1.toUpperCase
              None (fun _ => None)
              (mkRequest (Some "gzip"%string) None Latin1.quiet false)
              (mkOptions (Some "klingon"%string) None (Latin1.bytes 10))
              "klingon"%string (Latin1.not_recognized "klingon")
              (mkContentStream zlib_gunzip None)
              [Data (Latin1.chunk "hello"); EndOfStream]
              eq_refl H1 H2 H3 H4 H5 H6 H7)
    as (G1 & G2 & _ & _ & G5 & _ & G7).
  destruct (G7 eq_refl) as (_ & _ & _ & G8).
  assert (K : zlib_gunzip <> the_request) by discriminate.
  split; [by_evaluation G1|]. split; [by_evaluation G2|]. split; [exact (G5 K)|].
  by_evaluation G8.
Defined.

(** C10, the claim as stated: an encoding set on the stream makes the
    accumulator fail with the 500 error "stream.encoding.set";
    [createError(400, error)] keeps that status, and the error [next]
    receives once the request has finished is no 400-class error. *)
Lemma failure_keeps_its_status :
  nexts (trace (serve1 (mkRequest None (Some "5"%string) (mkStream true false true) false)
                       (mkOptions (Some "latin1"%string) None (Latin1.bytes 100))
                       [Tick; Finished]))
  = [Some (HttpError 500 "stream encoding should not be set"
             (mkProps (Some "stream.encoding.set"%string) None None None None None None
                None None))]
  /\ List.map (option_map error_status)
       (nexts (trace (serve1 (mkRequest None (Some "5"%string) (mkStream true false true)
                                false)
                             (mkOptions (Some "latin1"%string) None (Latin1.bytes 100))
                             [Tick; Finished])))
     = [Some (Some 500)].
Proof. split; vm_compute; reflexivity. Qed.

(** Seven bytes for a declared length of 10: the failure waits for the
    request, and keeps its status, with a [createError] that keeps the
    status of the error it is given. *)
Lemma failure_waits_for_request_witness :
  nexts (trace (serve1 (mkRequest None (Some "10"%string) Latin1.quiet false)
                       (mkOptions (Some "latin1"%string) None (Latin1.bytes 100))
                       [Data (Latin1.chunk "1234567"); EndOfStream]))
  = []
  /\ nexts (trace (react1 (mkRequest None (Some "10"%string) Latin1.quiet false)
                          (mkOptions (Some "latin1"%string) None (Latin1.bytes 100))
                          (react1 (mkRequest None (Some "10"%string) Latin1.quiet false)
                                  (mkOptions (Some "latin1"%string) None (Latin1.bytes 100))
                                  (serve1 (mkRequest None (Some "10"%string) Latin1.quiet false)
                                          (mkOptions (Some "latin1"%string) None
                                                     (Latin1.bytes 100))
                                          [Data (Latin1.chunk "1234567"); EndOfStream])
                                  Finished)
                          Immediate))
     = [Some (HttpError 400 "request size did not match content length"
                (mkProps (Some "request.size.invalid"%string) None (Some 10) (Some 10) None
                   (Some 7) None None None))]
  /\ error_status
       (Latin1.createError 400
          (Latin1.createError 400 (request_size_invalid (Some 10) 7) no_props) no_props)
     = Some 400.
Proof.
  assert (H : calls (trace (serve1 (mkRequest None (Some "10"%string) Latin1.quiet false)
                                   (mkOptions (Some "latin1"%string) None (Latin1.bytes 100))
                                   [Data (Latin1.chunk "1234567"); EndOfStream]))
              = [Failure (request_size_invalid (Some 10) 7)]) by (vm_compute; reflexivity).
  destruct (failure_waits_for_request unit Latin1.getDecoder Latin1.write Latin1.finish
              Latin1.supported Latin1.decode Latin1.createError Latin1.toUpperCase
              None (fun _ => None)
              (mkRequest None (Some "10"%string) Latin1.quiet false)
              (mkOptions (Some "latin1"%string) None (Latin1.bytes 100))
              [Data (Latin1.chunk "1234567"); EndOfStream]
              (request_size_invalid (Some 10) 7) H)
    as (_error & pre & post & _ & _ & _ & _ & _ & C6 & C7 & _ & C9).
  assert (N : error_type (request_size_invalid (Some 10) 7)
              <> Some "encoding.unsupported"%string) by (vm_compute; discriminate).
  assert (K : forall status e props,
            error_status (Latin1.createError status e props)
            = Some (match error_status e with Some kept => kept | None => status end))
    by (intros status e props; destruct e; reflexivity).
  specialize (C9 K).
  rewrite (C7 N) in C6, C9.
  split; [vm_compute; reflexivity|]. split; [by_evaluation C6|by_evaluation C9].
Defined.

(** Five bytes of latin1 text, declared as such. *)
Lemma body_is_parsed_witness :
  nexts (trace (serve1 (mkRequest None (Some "5"%string) Latin1.quiet false)
                       (mkOptions (Some "latin1"%string) None (Latin1.bytes 100))
                       [Data (Latin1.chunk "hel"); Data (Latin1.chunk "lo"); EndOfStream]))
  = [None].
Proof.
  assert (H1 : limit_of (Latin1.bytes 100) = None
               \/ exists lim : Z,
                    limit_of (Latin1.bytes 100) = Some lim
                    /\ total [Latin1.chunk "hel"; Latin1.chunk "lo"] <= lim).
  { right. exists 100. split; [vm_compute; reflexivity|vm_compute; discriminate]. }
  assert (H2 : expected_length (Some "5"%string) = None
               \/ expected_length (Some "5"%string)
                  = Some (Int (total [Latin1.chunk "hel"; Latin1.chunk "lo"])))
    by (right; vm_compute; reflexivity).
  assert (H3 : "latin1"%string <> EmptyString) by discriminate.
  destruct (body_is_parsed unit Latin1.getDecoder Latin1.write Latin1.finish
              Latin1.supported Latin1.decode Latin1.createError Latin1.toUpperCase
              None (fun _ => None)
              (mkRequest None (Some "5"%string) Latin1.quiet false)
              (mkOptions (Some "latin1"%string) None (Latin1.bytes 100))
              (mkContentStream the_request (Some "5"%string))
              [Latin1.chunk "hel"; Latin1.chunk "lo"] "latin1"%string tt
              eq_refl eq_refl eq_refl eq_refl H3 eq_refl H1 H2)
    as (_ & G & _).
  specialize (G eq_refl). by_evaluation G.
Defined.

(** The same body with a [verify] function that rejects it. *)
Lemma body_is_verified_witness :
  nexts (trace (serve2 (mkRequest None (Some "5"%string) Latin1.quiet false)
                       (mkOptions (Some "latin1"%string) None (Latin1.bytes 100))
                       [Data (Latin1.chunk "hel"); Data (Latin1.chunk "lo"); EndOfStream]))
  = [Some (HttpError 403 "bad signature"
             (mkProps (Some "entity.verify.failed"%string) None None None None None None None
                (Some (BodyBuffer (Latin1.chunk "hello")))))].
Proof.
  assert (H0 : forall enc, Some "latin1"%string = Some enc -> Latin1.supported enc = true)
    by (intros enc [= <-]; reflexivity).
  assert (H1 : limit_of (Latin1.bytes 100) = None
               \/ exists lim : Z,
                    limit_of (Latin1.bytes 100) = Some lim
                    /\ total [Latin1.chunk "hel"; Latin1.chunk "lo"] <= lim).
  { right. exists 100. split; [vm_compute; reflexivity|vm_compute; discriminate]. }
  assert (H2 : expected_length (Some "5"%string) = None
               \/ expected_length (Some "5"%string)
                  = Some (Int (total [Latin1.chunk "hel"; Latin1.chunk "lo"])))
    by (right; vm_compute; reflexivity).
  destruct (body_is_verified unit Latin1.getDecoder Latin1.write Latin1.finish
              Latin1.supported Latin1.decode Latin1.createError Latin1.toUpperCase
              rejecting (fun _ => None)
              (mkRequest None (Some "5"%string) Latin1.quiet false)
              (mkOptions (Some "latin1"%string) None (Latin1.bytes 100))
              (mkContentStream the_request (Some "5"%string))
              [Latin1.chunk "hel"; Latin1.chunk "lo"]
              (fun _ : Body => Some (PlainError "bad signature"))
              eq_refl eq_refl eq_refl H0 H1 H2)
    as (_ & G & _).
  specialize (G (PlainError "bad signature") eq_refl). by_evaluation G.
Defined.

(** An empty [content-length] header is a number to [isNaN] and no number
    to [parseInt]: the expected length is NaN, and whatever arrives the
    read ends on the 400 error "request.size.invalid". *)
Example empty_content_length :
  expected_length (Some EmptyString) = Some (Float S754_nan)
  /\ nexts (trace (serve1 (mkRequest None (Some EmptyString) Latin1.quiet false)
                          (mkOptions (Some "latin1"%string) None (Latin1.bytes 100))
                          [EndOfStream; Finished]))
     = [Some (HttpError 400 "request size did not match content length"
                (mkProps (Some "request.size.invalid"%string) None (Some (Float S754_nan))
                   (Some (Float S754_nan)) None (Some 0) None None None))].
Proof. split; vm_compute; reflexivity. Qed.

(** Two [parse] functions that differ on buffers alone. *)
Lemma parse_receives_text_witness :
  serve unit Latin1.getDecoder Latin1.write Latin1.finish Latin1.supported Latin1.decode
        Latin1.createError Latin1.toUpperCase None (fun _ => None)
        (mkRequest None (Some "5"%string) Latin1.quiet false)
        (mkOptions (Some "latin1"%string) None (Latin1.bytes 100))
        [Data (Latin1.chunk "hello"); EndOfStream]
  = serve unit Latin1.getDecoder Latin1.write Latin1.finish Latin1.supported Latin1.decode
          Latin1.createError Latin1.toUpperCase None text_only
          (mkRequest None (Some "5"%string) Latin1.quiet false)
          (mkOptions (Some "latin1"%string) None (Latin1.bytes 100))
          [Data (Latin1.chunk "hello"); EndOfStream].
Proof.
  exact (proj2 (parse_receives_text unit Latin1.getDecoder Latin1.write Latin1.finish
                  Latin1.supported Latin1.decode Latin1.createError Latin1.toUpperCase
                  None (fun _ => None) text_only
                  (mkRequest None (Some "5"%string) Latin1.quiet false)
                  (mkOptions (Some "latin1"%string) None (Latin1.bytes 100))
                  "latin1"%string [Data (Latin1.chunk "hello"); EndOfStream]
                  eq_refl (fun _ => eq_refl))).
Defined.

End Requests.

(** ** The size unit parser on concrete strings *)

Section Sizes.

Import Bytes.
Local Open Scope string_scope.

(** C8, the claim as stated.  "-1.5b" has a sign, a decimal magnitude and
    the unit b, and floor(-1.5 x 1) is -2; the pattern has no unit b, so
    the string goes through [parseInt], which stops at the point.  And the
    magnitude is rounded to a number before it is multiplied: twenty-two
    nines after the point are the number 1, so that the result is 1024
    where the floor of the magnitude times 1024 is 1023. *)
Lemma byte_suffix_is_truncated :
  (parse (Str "-1.5b") = Number (of_int false (-1))
   /\ spec_bytes true "1" "5" "b" = (-2)%Z)
  /\ (parse (Str "0.9999999999999999999999kb") = Number (of_int false 1024)
      /\ spec_bytes false "0" "9999999999999999999999" "kb" = 1023%Z).
Proof. repeat split; vm_compute; reflexivity. Qed.

(** A string with no leading integer gives NaN. *)
Example no_leading_integer :
  parse (Str "abc") = Number NaN /\ parse (Str EmptyString) = Number NaN.
Proof. split; vm_compute; reflexivity. Qed.

(** A magnitude whose product with the multiplier has a fraction: 1.3
    times 1024 is 1331.2. *)
Lemma parse_contract_witness :
  parse (Str ("+" ++ "1" ++ fraction "3" ++ spaces 2 ++ "Kb"))
  = Number (of_int false 1331).
Proof.
  destruct parse_contract as (_ & _ & G & _).
  assert (H1 : is_sign "+" = true) by reflexivity.
  assert (H2 : "1" <> EmptyString) by discriminate.
  assert (H3 : all_digits "1" = true) by reflexivity.
  assert (H4 : all_digits "3" = true) by reflexivity.
  assert (H5 : is_unit "Kb" = true) by reflexivity.
  specialize (G "+" "1" "3" 2%nat "Kb" H1 H2 H3 H4 H5).
  by_evaluation G.
Defined.

(** A unit with no number before it. *)
Lemma parse_without_number_witness :
  parse (Str "kb") = Number NaN /\ parse (parse (Str "kb")) = Null.
Proof. exact (parse_without_number "kb" eq_refl). Defined.

End Sizes.

(** ** The middleware on concrete requests *)

Section Middlewares.

Import RawBody Read Json.

(** A registry that knows utf-8, with a decoder that is given bytes below
    128 alone; a [JSON.parse] that refuses every text with the message of
    the engine for a [#]; requests that always have a body of the right
    type; strict mode, no [verify] function, a limit of 100 bytes. *)
Local Notation "'registry'" :=
  (fun enc : string =>
     if String.eqb enc "utf-8" then @inl unit string tt else inr (Latin1.not_recognized enc)).
Local Notation "'refusing'" :=
  (fun _ : Text => Some (code_units "Unexpected token # in JSON at position 1")).
Local Notation "'handle1' charset" :=
  (handle unit registry (fun enc => String.eqb enc "utf-8") Latin1.decode Latin1.createError
          Latin1.toUpperCase refusing (fun _ => None) (PlainError "null")
          (fun e => e)
          (fun _ => true) (fun _ => true) (fun _ => charset) (fun _ => None)
          true true None (Latin1.bytes 100) Latin1.write Latin1.finish)
  (at level 10, charset at level 9).

(** An empty body in utf-8 is the empty object; a body that starts with
    an [x] after a space is refused with the message of the engine, the
    [#] replaced. *)
Lemma json_body_witness :
  nexts (trace (handle1 (Some None)
                  (mkServerRequest (mkRequest None (Some "0"%string) Latin1.quiet false) false)
                  [EndOfStream]))
  = [None]
  /\ nexts (trace (handle1 (Some None)
                     (mkServerRequest (mkRequest None (Some "3"%string) Latin1.quiet false)
                                      false)
                     [Data (Latin1.chunk " x1"); EndOfStream]))
     = [Some (HttpError 400 "Unexpected token x in JSON at position 1"
                (mkProps (Some "entity.parse.failed"%string) None None None None None None
                   None (Some (BodyString " x1"))))].
Proof.
  assert (H1 : limit_of (Latin1.bytes 100) = None
               \/ exists lim : Z, limit_of (Latin1.bytes 100) = Some lim /\ total [] <= lim).
  { right. exists 100. split; [vm_compute; reflexivity|vm_compute; discriminate]. }
  assert (H2 : expected_length (Some "0"%string) = None
               \/ expected_length (Some "0"%string) = Some (Int (total [])))
    by (right; vm_compute; reflexivity).
  destruct (json_body unit registry Latin1.write Latin1.finish
              (fun enc => String.eqb enc "utf-8") Latin1.decode Latin1.createError
              Latin1.toUpperCase refusing (fun _ => None) (PlainError "null")
              (fun e => e)
              (fun _ => true) (fun _ => true) (fun _ => Some None) (fun _ => None)
              true true None (Latin1.bytes 100)
              (mkServerRequest (mkRequest None (Some "0"%string) Latin1.quiet false) false)
              (mkContentStream the_request (Some "0"%string)) [] tt
              eq_refl eq_refl eq_refl eq_refl eq_refl eq_refl eq_refl eq_refl H1 H2)
    as (_ & G & _).
  specialize (G eq_refl).
  assert (K1 : limit_of (Latin1.bytes 100) = None
               \/ exists lim : Z,
                    limit_of (Latin1.bytes 100) = Some lim
                    /\ total [Latin1.chunk " x1"] <= lim).
  { right. exists 100. split; [vm_compute; reflexivity|vm_compute; discriminate]. }
  assert (K2 : expected_length (Some "3"%string) = None
               \/ expected_length (Some "3"%string)
                  = Some (Int (total [Latin1.chunk " x1"])))
    by (right; vm_compute; reflexivity).
  destruct (json_body unit registry Latin1.write Latin1.finish
              (fun enc => String.eqb enc "utf-8") Latin1.decode Latin1.createError
              Latin1.toUpperCase refusing (fun _ => None) (PlainError "null")
              (fun e => e)
              (fun _ => true) (fun _ => true) (fun _ => Some None) (fun _ => None)
              true true None (Latin1.bytes 100)
              (mkServerRequest (mkRequest None (Some "3"%string) Latin1.quiet false) false)
              (mkContentStream the_request (Some "3"%string)) [Latin1.chunk " x1"] tt
              eq_refl eq_refl eq_refl eq_refl eq_refl eq_refl eq_refl eq_refl K1 K2)
    as (_ & _ & R).
  assert (E1 : decode_chunks unit Latin1.write Latin1.finish tt [Latin1.chunk " x1"]
               = (code_units " " ++ 120%N :: code_units "1")%list)
    by (vm_compute; reflexivity).
  assert (E2 : forallb is_space (code_units " ") = true) by reflexivity.
  assert (E3 : is_space 120 = false) by reflexivity.
  assert (E4 : is_line_terminator 120 = false) by reflexivity.
  assert (E5 : 120%N <> 123%N) by discriminate.
  assert (E6 : 120%N <> 91%N) by discriminate.
  specialize (R eq_refl (code_units " ") 120%N (code_units "1") E1 E2 E3 E4 E5 E6).
  split; [by_evaluation G|by_evaluation R].
Defined.


(** [firstchar] on a body that starts with a bracket, on blanks followed by a
    line feed, on a line feed alone, and on white space followed by the
    line separator U+2028. *)
Example firstchar_examples :
  firstchar (code_units "  [1]") = Some 91%N
  /\ firstchar [32; 10]%N = Some 32%N
  /\ firstchar [10]%N = None
  /\ firstchar [32; 8232; 123]%N = Some 32%N
  /\ firstchar [10; 8232; 123]%N = None.
Proof. repeat split. Qed.

(** A reviver that throws an error with a status and a type, both
    properties of its own: [parse] throws it with its message alone. *)
Lemma parse_errors_witness :
  exists status message props,
    Some (an_error (HttpError 500 "reviver failed"
                      (mkProps (Some "reviver.failed"%string) None None None None None
                         None None None)))
    = Some (an_error (HttpError status message props))
    /\ PlainError "reviver failed"
       = set_message message
           (PlainError (error_message (HttpError status message props))).
Proof.
  assert (H : parse refusing
                (fun _ => Some (an_error (HttpError 500 "reviver failed"
                                            (mkProps (Some "reviver.failed"%string) None None
                                               None None None None None None))))
                (PlainError "null")
                (fun e => PlainError (error_message e)) false (code_units "[1]")
              = Some (PlainError "reviver failed")) by (vm_compute; reflexivity).
  destruct (parse_errors refusing
              (fun _ => Some (an_error (HttpError 500 "reviver failed"
                                          (mkProps (Some "reviver.failed"%string) None None
                                             None None None None None None))))
              (PlainError "null")
              (fun e => PlainError (error_message e)) false (code_units "[1]")
              (PlainError "reviver failed") H)
    as [_ [(M & _)|[(M & _)|(_ & [R|[(m & R & _)|G]])]]];
    [discriminate M|discriminate M|discriminate R|discriminate R|exact G].
Defined.

End Middlewares.
